(** * Veritas-AI risk evaluation pipeline: e-mail and URL checkers

    A shallow embedding of
      - [src/lib/generate-pdf.ts], second document: the e-mail route
        ([levenshteinDistance], [detectHomoglyphAttack],
        [performLocalSpamDetection], [getGeminiAnalysis], [POST]);
      - [src/lib/generate-pdf.ts], first document: the claims section
        of [downloadPDFReport];
      - [src/app/api/check-url/route.ts]: the URL route
        ([resolveURLRedirects], [performLocalURLAnalysis],
        [getGeminiURLAnalysis], [POST]).

    JavaScript strings are sequences of UTF-16 code units and are modelled
    as [list N].  What the platform provides and the repository does not
    define ([String.prototype.toLowerCase], the WHATWG [URL] parser, the
    zod schemas, [fetch], [generateObject], clocks and timers) is a
    parameter of the model; everything written in the two routes is
    translated statement by statement. *)

From Stdlib Require Import List ZArith NArith String Ascii Bool Lia DecimalString.
Import ListNotations.

Set Implicit Arguments.

(** ** JavaScript strings and arrays *)

Module Str.

Definition jsstring := list N.

(** An ASCII literal as a sequence of code units. *)
Definition js (s : string) : jsstring :=
  map N_of_ascii (list_ascii_of_string s).

Fixpoint eqb (a b : jsstring) : bool :=
  match a, b with
  | [], [] => true
  | x :: a', y :: b' => N.eqb x y && eqb a' b'
  | _, _ => false
  end.

(** [Array.prototype.includes] on an array of strings. *)
Definition mem (s : jsstring) (l : list jsstring) : bool :=
  existsb (eqb s) l.

Fixpoint startsWith (s p : jsstring) {struct p} : bool :=
  match p, s with
  | [], _ => true
  | y :: p', x :: s' => N.eqb x y && startsWith s' p'
  | _ :: _, [] => false
  end.

(** [String.prototype.includes]: [p] occurs in [s] at some position. *)
Fixpoint includes (s p : jsstring) : bool :=
  startsWith s p ||
  match s with
  | [] => false
  | _ :: s' => includes s' p
  end.

Definition endsWith (s p : jsstring) : bool :=
  startsWith (rev s) (rev p).

(** [s.split(c)] for a one-unit separator: never the empty array. *)
Fixpoint split (c : N) (s : jsstring) : list jsstring :=
  match s with
  | [] => [[]]
  | x :: s' =>
      if N.eqb x c then [] :: split c s'
      else match split c s' with
           | [] => [[x]]
           | p :: ps => (x :: p) :: ps
           end
  end.

(** [parts.join(sep)]. *)
Fixpoint join (sep : jsstring) (parts : list jsstring) : jsstring :=
  match parts with
  | [] => []
  | [p] => p
  | p :: ps => p ++ sep ++ join sep ps
  end.

(** [arr.slice(-n)]: the last [n] elements (all of them if fewer). *)
Definition lastN {A} (n : nat) (l : list A) : list A :=
  skipn (List.length l - n) l.

(** [arr.slice(0, -n)]: everything but the last [n] elements. *)
Definition dropLastN {A} (n : nat) (l : list A) : list A :=
  firstn (List.length l - n) l.

(** [s.replace(".", "")]: the first occurrence only. *)
Fixpoint removeFirst (c : N) (s : jsstring) : jsstring :=
  match s with
  | [] => []
  | x :: s' => if N.eqb x c then s' else x :: removeFirst c s'
  end.

(** Template-literal interpolation of a non-negative integer. *)
Definition ofNat (n : nat) : jsstring :=
  js (NilZero.string_of_uint (N.to_uint (N.of_nat n))).

Definition ofZ (z : Z) : jsstring :=
  js (NilZero.string_of_uint (N.to_uint (Z.to_N z))).

Definition len (s : jsstring) : Z := Z.of_nat (List.length s).

Definition AT : N := 64.      (* "@" *)
Definition DOT : N := 46.     (* "." *)
Definition HYPHEN : N := 45.  (* "-" *)

Definition isUpperAscii (c : N) : bool := N.leb 65 c && N.leb c 90.
Definition isLowerAscii (c : N) : bool := N.leb 97 c && N.leb c 122.
Definition isDigit (c : N) : bool := N.leb 48 c && N.leb c 57.

(** Lower-casing restricted to A-Z; on strings of ASCII code units this
    is what [String.prototype.toLowerCase] computes. *)
Definition asciiLower (s : jsstring) : jsstring :=
  map (fun c => if isUpperAscii c then (c + 32)%N else c) s.

(** Number of occurrences of one code unit: [(s.match(/-/g) || []).length]. *)
Definition countUnit (c : N) (s : jsstring) : nat :=
  List.length (filter (N.eqb c) s).

End Str.

Import Str.

(** ** Regular expressions

    The patterns of the two routes, as data, with a derivative matcher.
    [RegExp.prototype.test] succeeds when some substring of the subject
    belongs to the language of the pattern. *)

Module Regex.

Inductive re : Type :=
| Void                                (* matches nothing *)
| Eps                                 (* the empty string *)
| Cls (ranges : list (N * N))         (* [a-z0-9], a literal unit, \d *)
| Any                                 (* .  : no line terminator *)
| Seq (r s : re)
| Alt (r s : re)
| Star (r : re).

Definition chr (c : ascii) : re := let n := N_of_ascii c in Cls [(n, n)].
Definition digit : re := Cls [(48, 57)%N].

(** A literal word. *)
Fixpoint lit (s : list N) : re :=
  match s with
  | [] => Eps
  | c :: s' => Seq (Cls [(c, c)]) (lit s')
  end.
Definition word (s : string) : re := lit (js s).

Fixpoint alts (l : list re) : re :=
  match l with
  | [] => Void
  | [r] => r
  | r :: l' => Alt r (alts l')
  end.

Definition words (l : list string) : re := alts (map word l).

Definition opt (r : re) : re := Alt r Eps.
Definition plus (r : re) : re := Seq r (Star r).

(** [r{n}] and [r{n,}] and [r{1,3}]. *)
Fixpoint times (n : nat) (r : re) : re :=
  match n with
  | O => Eps
  | S k => Seq r (times k r)
  end.
Definition atLeast (n : nat) (r : re) : re := Seq (times n r) (Star r).
Definition oneToThree (r : re) : re := Seq r (Seq (opt r) (opt r)).

Definition inRanges (ranges : list (N * N)) (c : N) : bool :=
  existsb (fun lh => N.leb (fst lh) c && N.leb c (snd lh)) ranges.

(** The other case of an ASCII letter.  Without the [u] flag a unit
    outside ASCII never folds onto an ASCII one, so for classes of ASCII
    units the [i] flag is exactly this. *)
Definition toggleCase (c : N) : N :=
  if isUpperAscii c then (c + 32)%N
  else if isLowerAscii c then (c - 32)%N
  else c.

Definition inClass (ci : bool) (ranges : list (N * N)) (c : N) : bool :=
  inRanges ranges c || (ci && inRanges ranges (toggleCase c)).

(** Line terminators: LF, CR, LS, PS. *)
Definition lineTerminator (c : N) : bool :=
  N.eqb c 10 || N.eqb c 13 || N.eqb c 8232 || N.eqb c 8233.

(** What it means for a string to belong to the language of a pattern;
    [ci] is the [i] flag. *)
Inductive Matches (ci : bool) : re -> jsstring -> Prop :=
| MEps : Matches ci Eps []
| MCls ranges c : inClass ci ranges c = true -> Matches ci (Cls ranges) [c]
| MAny c : lineTerminator c = false -> Matches ci Any [c]
| MSeq r s u v :
    Matches ci r u -> Matches ci s v -> Matches ci (Seq r s) (u ++ v)
| MAltL r s u : Matches ci r u -> Matches ci (Alt r s) u
| MAltR r s u : Matches ci s u -> Matches ci (Alt r s) u
| MStarEnd r : Matches ci (Star r) []
| MStarMore r u v :
    Matches ci r u -> Matches ci (Star r) v -> Matches ci (Star r) (u ++ v).

Fixpoint nullable (r : re) : bool :=
  match r with
  | Void => false
  | Eps => true
  | Cls _ => false
  | Any => false
  | Seq a b => nullable a && nullable b
  | Alt a b => nullable a || nullable b
  | Star _ => true
  end.

Definition isVoid (r : re) : bool :=
  match r with Void => true | _ => false end.

Definition seq' (a b : re) : re :=
  if isVoid a || isVoid b then Void
  else match a with Eps => b | _ => Seq a b end.

Definition alt' (a b : re) : re :=
  if isVoid a then b else if isVoid b then a else Alt a b.

(** Brzozowski derivative with respect to one code unit. *)
Fixpoint deriv (ci : bool) (c : N) (r : re) : re :=
  match r with
  | Void => Void
  | Eps => Void
  | Cls ranges => if inClass ci ranges c then Eps else Void
  | Any => if lineTerminator c then Void else Eps
  | Seq a b =>
      if nullable a
      then alt' (seq' (deriv ci c a) b) (deriv ci c b)
      else seq' (deriv ci c a) b
  | Alt a b => alt' (deriv ci c a) (deriv ci c b)
  | Star a => seq' (deriv ci c a) (Star a)
  end.

(** The whole of [s] is in the language: [/^r$/.test(s)]. *)
Fixpoint fullMatch (ci : bool) (r : re) (s : jsstring) : bool :=
  match s with
  | [] => nullable r
  | c :: s' => if isVoid r then false else fullMatch ci (deriv ci c r) s'
  end.

(** Some prefix of [s] is in the language. *)
Fixpoint prefixMatch (ci : bool) (r : re) (s : jsstring) : bool :=
  nullable r ||
  match s with
  | [] => false
  | c :: s' => if isVoid r then false else prefixMatch ci (deriv ci c r) s'
  end.

(** [/r/.test(s)]: a match starting at some position. *)
Fixpoint test (ci : bool) (r : re) (s : jsstring) : bool :=
  prefixMatch ci r s ||
  match s with
  | [] => false
  | _ :: s' => test ci r s'
  end.

(** [/r(?=a)/.test(s)]: a match of [r] that is followed by a match of
    the look-ahead [a]. *)
Fixpoint prefixThenAhead (ci : bool) (r a : re) (s : jsstring) : bool :=
  (nullable r && prefixMatch ci a s) ||
  match s with
  | [] => false
  | c :: s' =>
      if isVoid r then false else prefixThenAhead ci (deriv ci c r) a s'
  end.

Fixpoint testAhead (ci : bool) (r a : re) (s : jsstring) : bool :=
  prefixThenAhead ci r a s ||
  match s with
  | [] => false
  | _ :: s' => testAhead ci r a s'
  end.

(** Length of the longest prefix of [s] whose units all satisfy [p]. *)
Fixpoint runLength (p : N -> bool) (s : jsstring) : nat :=
  match s with
  | [] => O
  | c :: s' => if p c then S (runLength p s') else O
  end.

(** [s.match(/\d{5,}/g)]: [None] for [null], otherwise the first
    element of the array of matches (leftmost, greedy). *)
Fixpoint firstDigitRun (s : jsstring) : option jsstring :=
  let n := runLength isDigit s in
  if Nat.leb 5 n then Some (firstn n s)
  else match s with
       | [] => None
       | _ :: s' => firstDigitRun s'
       end.

(** [s.match(/(.)\1{4,}/g)]: the first run of one unit, not a line
    terminator, repeated five times or more. *)
Fixpoint firstRepeat (s : jsstring) : option jsstring :=
  match s with
  | [] => None
  | c :: s' =>
      let n := S (runLength (N.eqb c) s') in
      if negb (lineTerminator c) && Nat.leb 5 n then Some (firstn n s)
      else firstRepeat s'
  end.

End Regex.

Import Regex.

(** ** What the platform provides *)

(** The fields of a parsed [URL] object that the routes read. *)
Record URLObject : Type := {
  hostname : jsstring;
  protocol : jsstring;
  pathname : jsstring;
  searchKeys : list jsstring;       (* Array.from(searchParams.keys()) *)
  port : jsstring
}.

Class Platform : Type := {
  (** [String.prototype.toLowerCase] *)
  toLowerCase : jsstring -> jsstring;
  (** [new URL(s)]; [None] when the constructor throws *)
  parseURL : jsstring -> option URLObject;
  (** [new URL(location, base).toString()]; [None] when it throws *)
  resolveURL : jsstring -> jsstring -> option jsstring;
  (** [z.string().email()] and [z.string().url()] *)
  emailSchema : jsstring -> bool;
  urlSchema : jsstring -> bool
}.

(** ** The shared shape of both local scorers

    Every rule body of the two scorers is a pair of statements,
    [indicators.push(text)] and [score += weight], and no rule reads
    [indicators] or the running score.  A rule is therefore modelled by the
    list of firings it performs, and the scorer by the loop that executes
    them in order on the two variables. *)

Section Scoring.

Variable Rule : Type.

Record Indicator : Type := {
  rule : Rule;
  description : jsstring;
  weightContribution : Z
}.

(** The two local variables: [indicators] and the running score. *)
Definition Acc : Type := (list jsstring * Z)%type.

(** [indicators.push(d); score += w]. *)
Definition emit (st : Acc) (i : Indicator) : Acc :=
  (fst st ++ [description i], (snd st + weightContribution i)%Z).

Definition runRules (firings : list Indicator) : Acc :=
  fold_left emit firings ([], 0%Z).

Definition totalWeight (firings : list Indicator) : Z :=
  fold_right Z.add 0%Z (map weightContribution firings).

Definition when (b : bool) (i : Indicator) : list Indicator :=
  if b then [i] else [].

(** A firing that does not lower the score. *)
Definition nonneg (i : Indicator) : Prop := (0 <= weightContribution i)%Z.

End Scoring.

Arguments when {Rule} b i.

Definition QUOTE : jsstring := [34%N].
Definition quoted (s : jsstring) : jsstring := QUOTE ++ s ++ QUOTE.

(** ** Promises, timers and responses *)

(** How a call of [generateObject] ends: the promise is fulfilled with an
    object, is rejected, or stays pending.  [at_ms] is the time in ms
    after the call. *)
Inductive Outcome (V : Type) : Type :=
| Resolves (at_ms : Z) (verdict : V) (explanation : jsstring)
| Rejects (at_ms : Z) (isError : bool) (name message : jsstring)
| Pending.

Arguments Resolves {V} at_ms verdict explanation.
Arguments Rejects {V} at_ms isError name message.
Arguments Pending {V}.

(** How an [async function] of the routes ends. *)
Inductive Async (A : Type) : Type :=
| Fulfilled (at_ms : Z) (value : A)
| Rejected (at_ms : Z)
| Forever.

Arguments Fulfilled {A} at_ms value.
Arguments Rejected {A} at_ms.
Arguments Forever {A}.

(** What a [POST] handler answers. *)
Inductive Response (R : Type) : Type :=
| Ok200 (body : R)
| Error400
| Error500
| NoResponse.

Arguments Ok200 {R} body.
Arguments Error400 {R}.
Arguments Error500 {R}.
Arguments NoResponse {R}.

(** The arbitration service as a route sees it: the environment variable
    [GOOGLE_GENERATIVE_AI_API_KEY] and the behaviour of [generateObject]
    on the prompt built from the identifier, the indicator list and the
    local score. *)
Record Arbiter (V : Type) : Type := {
  apiKey : option jsstring;
  generateObject : jsstring -> list jsstring -> Z -> Outcome V
}.

(** [!apiKey] is false: the variable is set and not the empty string. *)
Definition configured (key : option jsstring) : bool :=
  match key with
  | Some (_ :: _) => true
  | _ => false
  end.

(** ** The e-mail route *)

Module CheckEmail.

Inductive RiskLevel : Type := Safe | Risky | Invalid.
Inductive Verdict : Type := Legitimate | Suspicious | Fake.

Record SpamCheckResult : Type := {
  email : jsstring;
  isSpam : bool;
  riskLevel : RiskLevel;
  spamScore : Z;
  indicators : list jsstring;
  reason : jsstring;
  aiAnalysis : option jsstring;
  geminiVerdict : option Verdict
}.

(** *** [levenshteinDistance]

    [matrix] has [len2 + 1] rows of [len1 + 1] cells.  Row [0] is
    [0 .. len1]; row [j] starts with [j] and is filled left to right from
    row [j - 1].  The model keeps one row at a time. *)

(** Cells [i ..] of row [j], given [left = matrix[j][i-1]],
    [diag = matrix[j-1][i-1]] and [above = matrix[j-1][i ..]]. *)
Fixpoint fillRow (c2 : N) (str1 : jsstring) (left diag : Z) (above : list Z)
  : list Z :=
  match str1, above with
  | c1 :: rest, up :: above' =>
      let indicator := if N.eqb c1 c2 then 0%Z else 1%Z in
      let cell := Z.min (Z.min (left + 1) (up + 1)) (diag + indicator) in
      cell :: fillRow c2 rest cell up above'
  | _, _ => []
  end.

Definition nextRow (str1 : jsstring) (j : Z) (c2 : N) (prev : list Z)
  : list Z :=
  match prev with
  | [] => []
  | diag :: above => j :: fillRow c2 str1 j diag above
  end.

Fixpoint rows (str1 : jsstring) (j : Z) (str2 : jsstring) (prev : list Z)
  : list Z :=
  match str2 with
  | [] => prev
  | c2 :: rest => rows str1 (j + 1) rest (nextRow str1 j c2 prev)
  end.

Definition levenshteinDistance (str1 str2 : jsstring) : Z :=
  let row0 := map Z.of_nat (seq 0 (S (List.length str1))) in
  last (rows str1 1 str2 row0) 0%Z.

(** The edit distance by its recurrence on the first units of the two
    strings: the cheapest of a deletion, an insertion, and a match or
    substitution. *)
Fixpoint editRec (s : jsstring) : jsstring -> Z :=
  fix inner (t : jsstring) : Z :=
    match s, t with
    | [], _ => len t
    | _ :: _, [] => len s
    | a :: s', b :: t' =>
        Z.min (Z.min (editRec s' t + 1) (inner t' + 1))
              (editRec s' t' + (if N.eqb a b then 0 else 1))
    end.

(** The matrix of [levenshteinDistance] is laid out on prefixes, hence
    the recurrence is read on the last units. *)
Definition editDistance (str1 str2 : jsstring) : Z :=
  editRec (rev str1) (rev str2).

(** Row [q] of the matrix as it should be: the distances from the
    prefixes of [str1] to [q].  [cells p rest q] are those of the prefixes
    of [p ++ rest] that are longer than [p]. *)
Fixpoint cells (p rest q : jsstring) : list Z :=
  match rest with
  | [] => []
  | c :: rest' => editDistance (p ++ [c]) q :: cells (p ++ [c]) rest' q
  end.

Definition row (str1 q : jsstring) : list Z :=
  editDistance [] q :: cells [] str1 q.

(** *** [detectHomoglyphAttack] *)

(** The keys of [cyrillicToLatin] as they stand in the source file. *)
Definition cyrillicToLatin : list jsstring :=
  [ [286; 176]; [286; 181]; [286; 190]; [209; 8364]; [209];
    [209; 8230]; [209; 402]; [286; 186]; [286; 189] ]%N.

Definition suspiciousRanges : list re :=
  [ Cls [(880, 1023)%N];      (* u0370-u03FF Greek *)
    Cls [(1024, 1279)%N];     (* u0400-u04FF Cyrillic *)
    Cls [(1280, 1327)%N] ].   (* u0500-u052F Cyrillic Supplement *)

Definition detectHomoglyphAttack (email : jsstring) : bool :=
  existsb (includes email) cyrillicToLatin
  || existsb (fun range => test false range email) suspiciousRanges.

(** *** The rule tables of [performLocalSpamDetection] *)

Definition disposableDomains : list jsstring :=
  map js [ "tempmail.com"; "10minutemail.com"; "guerrillamail.com";
           "mailinator.com"; "temp-mail.org"; "throwaway.email";
           "yopmail.com"; "maildrop.cc"; "trashmail.com"; "tempmail.org";
           "sharklasers.com"; "spam4.me"; "grr.la"; "guerrillamail.info";
           "mintemail.com"; "mytrashmail.com" ]%string.

Definition freeDomains : list jsstring :=
  map js [ "gmail.com"; "yahoo.com"; "hotmail.com"; "outlook.com";
           "aol.com" ]%string.

Definition corporateKeywords : list jsstring :=
  map js [ "amazon"; "apple"; "microsoft"; "google"; "facebook"; "twitter";
           "netflix"; "paypal"; "bank"; "security"; "admin"; "support";
           "billing" ]%string.

Definition brand (legit : string) (typos : list string)
  : jsstring * list jsstring := (js legit, map js typos).

(** [Object.entries(trustedBrands)]: insertion order. *)
Definition trustedBrands : list (jsstring * list jsstring) :=
  [ brand "amazon.com" ["amason.com"; "amzaon.com"; "amazn.com";
                        "ammozon.com"; "anazon.com"; "amazom.com"];
    brand "apple.com" ["appel.com"; "aple.com"; "appple.com"; "appl.com";
                       "app1e.com"];
    brand "microsoft.com" ["microsft.com"; "microsfot.com";
                           "microosoft.com"; "microsof.com";
                           "micros0ft.com"];
    brand "google.com" ["gogle.com"; "googel.com"; "googl.com";
                        "g00gle.com"; "gooogle.com"];
    brand "paypal.com" ["paypall.com"; "paypa1.com"; "paypa.com";
                        "payal.com"; "paypaI.com"; "paypai.com"];
    brand "chase.com" ["chace.com"; "chas.com"; "chaze.com"; "chasse.com"];
    brand "bankofamerica.com" ["bankofamerica.co"; "bank-of-america.com";
                               "bankofamerca.com"];
    brand "wellsfargo.com" ["wellsfargo.co"; "wellsfago.com";
                            "wells-fargo.com"];
    brand "citibank.com" ["citibank.co"; "citibanc.com"; "citi-bank.com"];
    brand "gmail.com" ["gmai1.com"; "gmall.com"; "gmial.com"; "gamil.com";
                       "gmai.com"];
    brand "yahoo.com" ["yaho.com"; "yahooo.com"; "yaho0.com"; "yahho.com"];
    brand "outlook.com" ["outlok.com"; "0utlook.com"; "out1ook.com"];
    brand "facebook.com" ["faceb00k.com"; "facebok.com"; "face-book.com";
                          "faceboook.com"];
    brand "instagram.com" ["instgram.com"; "instagran.com";
                           "inst4gram.com"];
    brand "twitter.com" ["twiter.com"; "twiiter.com"; "twittter.com"];
    brand "linkedin.com" ["linkedln.com"; "linked-in.com"; "linkdin.com"];
    brand "netflix.com" ["netfl1x.com"; "netflx.com"; "netflix.co";
                         "netflex.com"];
    brand "spotify.com" ["spotfy.com"; "spotifi.com"; "spot1fy.com"];
    brand "ebay.com" ["ebey.com"; "e-bay.com"; "ebay.co"];
    brand "fedex.com" ["fedx.com"; "fed-ex.com"; "fedex.co"];
    brand "usps.com" ["usps.co"; "u5ps.com"; "usps.net"];
    brand "dhl.com" ["dh1.com"; "dhI.com"] ]%string.

Definition hyphenOrDot : re := Cls [(45, 45); (46, 46)]%N.   (* [-.] *)

(** [suspiciousComboPatterns], all with the [i] flag. *)
Definition suspiciousComboPatterns : list (re * jsstring) :=
  [ (Seq (words ["amazon"; "paypal"; "apple"; "microsoft"; "google";
                 "netflix"; "facebook"]%string) hyphenOrDot,
     js "major tech/retail brand");
    (Seq (words ["chase"; "bank"; "citibank"; "wells"; "fargo"]%string)
         hyphenOrDot,
     js "financial institution");
    (Seq (words ["service"; "support"; "account"; "verify";
                 "security"]%string)
         (Seq hyphenOrDot
              (words ["amazon"; "paypal"; "apple"; "google"]%string)),
     js "service subdomain + brand") ].

Definition keyboardProximityPairs : list (N * list N) :=
  [ (97,  [115; 113; 119; 122]);    (* a: s q w z *)
    (101, [114; 119; 100]);         (* e: r w d *)
    (105, [111; 117; 107]);         (* i: o u k *)
    (111, [105; 112; 108]);         (* o: i p l *)
    (110, [109; 98; 104]) ]%N.      (* n: m b h *)

(** [keyboardProximityPairs[c] || []]. *)
Definition proximityChars (c : N) : list N :=
  match find (fun kv => N.eqb (fst kv) c) keyboardProximityPairs with
  | Some kv => snd kv
  | None => []
  end.

Definition lowerLetter : re := Cls [(97, 122)%N].            (* [a-z] *)

(** [substitutionPatterns]: pattern, [char], [example]; flag [i]. *)
Definition substitutionPatterns : list (re * jsstring * jsstring) :=
  [ (atLeast 2 (Cls [(48, 48); (111, 111)]%N), js "o/0", js "g00gle");
    (atLeast 2 (Cls [(49, 49); (105, 105); (108, 108)]%N),
     js "i/l/1", js "app1e");
    (Alt (Seq (chr "5") (Seq (Star Any) (chr "s")))
         (Seq (chr "s") (Seq (Star Any) (chr "5"))),
     js "s/5", js "5ecure");
    (Alt (Seq (chr "3") (Seq (Star Any) (chr "e")))
         (Seq (chr "e") (Seq (Star Any) (chr "3"))),
     js "e/3", js "3bay") ].

(** [homoglyphPatterns]: a tester per pattern, and [name].  The pattern
    objects are built by each call and tested once, so the [g] flag
    starts every test at index 0. *)
Definition homoglyphPatterns : list ((jsstring -> bool) * jsstring) :=
  [ (testAhead true (chr "0") (Seq (Star Any) lowerLetter),
     js "Zero/O substitution");                 (* /0(?=.*[a-z])/gi *)
    (testAhead true (chr "1") (Seq (Star Any) lowerLetter),
     js "One/l substitution");                  (* /1(?=.*[a-z])/gi *)
    (test true (atLeast 2 (Cls [(53, 53); (83, 83)]%N)),
     js "S/5 pattern repetition");              (* /[5S]{2,}/gi *)
    (testAhead false (chr "I") (Seq (Star lowerLetter) (chr "@")),
     js "Capital I/lowercase l in domain") ].   (* /I(?=[a-z]*@)/g *)

Definition suspiciousKeywords : list jsstring :=
  map js [ "noreply"; "donotreply"; "no-reply"; "urgent"; "verify";
           "confirm"; "alert"; "action"; "required"; "update"; "security";
           "account"; "spam"; "admin"; "test"; "fake"; "tmp"; "temp";
           "payment"; "wire"; "transfer"; "invoice"; "receipt";
           "confirm-identity"; "verify-account"; "suspend"; "locked";
           "compromised"; "unauthorized" ]%string.

(** [BECPatterns]: pattern (flag [i]), [score], [name]. *)
Definition BECPatterns : list (re * Z * jsstring) :=
  [ (words ["ceo"; "executive"; "cfo"; "cto"; "director"]%string, 25%Z,
     js "Executive role in username");
    (words ["finance"; "accounting"; "payroll"; "treasury"]%string, 20%Z,
     js "Finance/banking keywords");
    (words ["wire"; "transfer"; "payment"; "invoice"]%string, 25%Z,
     js "Financial transaction keywords") ].

Definition suspiciousTLDs : list jsstring :=
  map js [ ".tk"; ".ml"; ".ga"; ".cf"; ".gq";
           ".xyz"; ".top"; ".win"; ".bid"; ".stream"; ".download";
           ".pw"; ".ws"; ".cc"; ".tv"; ".link"; ".click";
           ".info"; ".biz"; ".online"; ".site"; ".website";
           ".ru"; ".cn"; ".br"; ".in" ]%string.

Definition urlShortenerDomains : list jsstring :=
  map js [ "bit.ly"; "tinyurl.com"; "goo.gl"; "ow.ly"; "t.co"; "is.gd";
           "buff.ly"; "adf.ly"; "shorturl.at"; "cutt.ly"; "rb.gy" ]%string.

Definition suspiciousSuffixes : list jsstring :=
  map js [ "verify"; "update"; "confirm"; "alert"; "security"; "support";
           "admin"; "account"; "service"; "portal"; "login"; "signin";
           "secure"; "auth" ]%string.

Definition brandPatterns : list jsstring :=
  map js [ "micro-soft"; "amaz-on"; "app-le"; "pay-pal"; "google-";
           "-google"; "face-book" ]%string.

Definition veryGenericNames : list jsstring :=
  map js [ "admin"; "test"; "user"; "info"; "support"; "noreply";
           "mail" ]%string.

(** [/\.(com|net|org)-/] *)
Definition dotComHyphen : re :=
  Seq (chr ".") (Seq (words ["com"; "net"; "org"]%string) (chr "-")).

(** [/[\.\-_]{2,}/] *)
Definition consecutiveSpecial : re :=
  atLeast 2 (Cls [(46, 46); (45, 45); (95, 95)]%N).

(** [/\d{1,3}\.\d{1,3}\.\d{1,3}\.\d{1,3}/] *)
Definition dottedQuad : re :=
  Seq (oneToThree digit) (Seq (chr ".")
 (Seq (oneToThree digit) (Seq (chr ".")
 (Seq (oneToThree digit) (Seq (chr ".") (oneToThree digit)))))).

(** [/support-?id-?\d+|ticket-?\d+|case-?\d+|ref-?\d+|transaction-?\d+/i] *)
Definition serviceId : re :=
  let numbered (w : string) :=
    Seq (word w) (Seq (opt (chr "-")) (plus digit)) in
  alts [ Seq (word "support") (Seq (opt (chr "-")) (Seq (word "id")
           (Seq (opt (chr "-")) (plus digit))));
         numbered "ticket"%string; numbered "case"%string;
         numbered "ref"%string; numbered "transaction"%string ].

(** [expiredDomainIndicators]: the [source] of each pattern (flag [i]). *)
Definition expiredDomainIndicators : list jsstring :=
  map js [ "parked"; "expired"; "forsale"; "available";
           "register" ]%string.

Definition SIREN : jsstring := [287; 376; 353; 168]%N.
Definition WARNING : jsstring := [226; 353; 160; 239; 184]%N.

(** *** The rules, in evaluation order *)

Inductive Rule : Type :=
| InvalidFormat | Disposable | CorporateImpersonation
| TyposquattingConfirmed | TyposquattingFuzzy | ComboDomain
| KeyboardProximity | Substitution | HomoglyphAttack | HomoglyphInDomain
| SuspiciousKeywords | BEC | RandomNumbers | RepeatingChars | HighRiskTLD
| ShortenerDomain | ComplexDomain | SubdomainConfusion | SuspiciousSuffix
| BrandInSubdomain | BrandHyphens | ShortUsername | LongUsername
| GenericUsername | ProfessionalMismatch | Aliasing | ConsecutiveSpecials
| Punycode | IPAddress | ServiceIdPattern | ExpiredDomain
| ExcessiveHyphens | MixedCase | VowellessDomain.

Definition ind (r : Rule) (d : jsstring) (w : Z) : Indicator Rule :=
  {| rule := r; description := d; weightContribution := w |}.

(** [s.split(".")[0]] *)
Definition firstLabel (s : jsstring) : jsstring := hd [] (split DOT s).

(** The loop over [Object.entries(trustedBrands)]: the exact check of
    every entry up to and including the first entry that matches
    fuzzily, where the loop breaks. *)
Fixpoint typosquattingLoop (domain baseDomain : jsstring)
         (entries : list (jsstring * list jsstring))
  : list (Indicator Rule) :=
  match entries with
  | [] => []
  | (legitimate, typos) :: rest =>
      let exact :=
        when (mem domain typos || mem baseDomain typos)
             (ind TyposquattingConfirmed
                  (SIREN ++ js " TYPOSQUATTING CONFIRMED: " ++ quoted domain
                         ++ js " mimics " ++ quoted legitimate) 75) in
      let domainName := firstLabel baseDomain in
      let legitName := firstLabel legitimate in
      let distance := levenshteinDistance domainName legitName in
      if ((0 <? distance) && (distance <=? 2) && (4 <=? len domainName))%Z
      then exact ++
           [ind TyposquattingFuzzy
                (WARNING ++ js " TYPOSQUATTING (fuzzy match): "
                   ++ quoted domainName ++ js " resembles "
                   ++ quoted legitName ++ js " (" ++ ofZ distance
                   ++ js " character difference)") 55]
      else exact ++ typosquattingLoop domain baseDomain rest
  end.

Definition isFuzzy (i : Indicator Rule) : bool :=
  match rule i with TyposquattingFuzzy => true | _ => false end.

(** What the text of a fuzzy indicator starts with, and the test for
    it on the texts of a result. *)
Definition fuzzyPrefix : jsstring :=
  WARNING ++ js " TYPOSQUATTING (fuzzy match): ".

Definition isFuzzyText (text : jsstring) : bool :=
  startsWith text fuzzyPrefix.

(** The text of a firing tells whether the fuzzy rule pushed it. *)
Definition textAgrees (i : Indicator Rule) : Prop :=
  isFuzzyText (description i) = isFuzzy i.

(** The test of the fuzzy rule for one entry of [trustedBrands]. *)
Definition fuzzyHit (baseDomain : jsstring)
           (entry : jsstring * list jsstring) : bool :=
  let domainName := firstLabel baseDomain in
  let distance := levenshteinDistance domainName (firstLabel (fst entry)) in
  ((0 <? distance) && (distance <=? 2) && (4 <=? len domainName))%Z.

(** The indicator the fuzzy rule pushes for one entry. *)
Definition fuzzyIndicator (baseDomain : jsstring)
           (entry : jsstring * list jsstring) : Indicator Rule :=
  let domainName := firstLabel baseDomain in
  let legitName := firstLabel (fst entry) in
  ind TyposquattingFuzzy
      (WARNING ++ js " TYPOSQUATTING (fuzzy match): "
         ++ quoted domainName ++ js " resembles " ++ quoted legitName
         ++ js " (" ++ ofZ (levenshteinDistance domainName legitName)
         ++ js " character difference)") 55.

Definition comboRule (domain : jsstring) : list (Indicator Rule) :=
  flat_map
    (fun pb =>
       when (test true (fst pb) domain)
            (ind ComboDomain
                 (js "Combo domain attack: Uses " ++ snd pb
                     ++ js " name in suspicious context") 45))
    suspiciousComboPatterns.

(** The inner [for] of the keyboard rule, over two names of one length. *)
Fixpoint proximityMatches (legitName domainName : jsstring) : nat :=
  match legitName, domainName with
  | l :: ls, d :: ds =>
      (if negb (N.eqb l d) && existsb (N.eqb d) (proximityChars l)
       then 1 else 0) + proximityMatches ls ds
  | _, _ => 0
  end.

Fixpoint keyboardLoop (baseDomain : jsstring)
         (entries : list (jsstring * list jsstring))
  : list (Indicator Rule) :=
  match entries with
  | [] => []
  | (legitimate, _) :: rest =>
      let legitName := firstLabel legitimate in
      let domainName := firstLabel baseDomain in
      if Nat.eqb (List.length legitName) (List.length domainName)
         && Nat.eqb (proximityMatches legitName domainName) 1
      then [ind KeyboardProximity
                (js "Keyboard proximity typo: " ++ quoted domainName
                    ++ js " is one key away from " ++ quoted legitName) 50]
      else keyboardLoop baseDomain rest
  end.

Definition substitutionRule (baseDomain : jsstring)
  : list (Indicator Rule) :=
  flat_map
    (fun pce =>
       let '(pattern, char, example) := pce in
       when (test true pattern baseDomain
             && test false lowerLetter baseDomain)
            (ind Substitution
                 (js "Number/letter substitution: Uses " ++ char
                     ++ js " confusion (e.g., " ++ quoted example
                     ++ js ")") 40))
    substitutionPatterns.

Definition homoglyphDomainRule (domain : jsstring)
  : list (Indicator Rule) :=
  flat_map
    (fun pn =>
       when (fst pn domain)
            (ind HomoglyphInDomain
                 (js "Homoglyph attack in domain: " ++ snd pn) 30))
    homoglyphPatterns.

Definition keywordRule (username : jsstring) : list (Indicator Rule) :=
  let matchedKeywords := filter (includes username) suspiciousKeywords in
  when (Nat.ltb 0 (List.length matchedKeywords))
       (ind SuspiciousKeywords
            (js "Suspicious keywords detected: "
                ++ join (js ", ") matchedKeywords)
            (Z.min (Z.of_nat (List.length matchedKeywords) * 10) 40)).

Definition becRule (email : jsstring) : list (Indicator Rule) :=
  flat_map
    (fun psn =>
       let '(pattern, score, name) := psn in
       when (test true pattern email)
            (ind BEC
                 (js "Business Email Compromise (BEC) pattern: " ++ name)
                 score))
    BECPatterns.

Definition randomnessRules (email : jsstring) : list (Indicator Rule) :=
  (match firstDigitRun email with
   | Some first =>
       [ind RandomNumbers
            (js "Excessive random numbers: " ++ quoted first) 25]
   | None => []
   end) ++
  (match firstRepeat email with
   | Some first =>
       [ind RepeatingChars
            (js "Repeating characters detected: " ++ quoted first) 20]
   | None => []
   end).

(** The [for] over [suspiciousSuffixes], left at the first hit. *)
Definition suffixRule (domain : jsstring) : list (Indicator Rule) :=
  match find (fun suffix => includes domain (HYPHEN :: suffix)
                            || includes domain (suffix ++ [HYPHEN]))
             suspiciousSuffixes with
  | Some suffix =>
      [ind SuspiciousSuffix
           (js "Suspicious domain suffix: Contains " ++ quoted suffix
               ++ js " (common phishing tactic)") 40]
  | None => []
  end.

Definition expiredRule (domain : jsstring) : list (Indicator Rule) :=
  flat_map
    (fun source =>
       when (test true (lit source) domain)
            (ind ExpiredDomain
                 (js "Expired/parked domain indicator: Domain contains "
                     ++ quoted source) 45))
    expiredDomainIndicators.

Section Scorer.

Context {P : Platform}.

(** Everything [performLocalSpamDetection] does between the format
    check and the normalisation of the score. *)
Definition ruleFirings (email username domain : jsstring)
  : list (Indicator Rule) :=
  let domainParts := split DOT domain in
  let baseDomain := join [DOT] (lastN 2 domainParts) in
  let subdomain :=
    if Nat.ltb 2 (List.length domainParts)
    then join [DOT] (dropLastN 2 domainParts) else [] in
  let tld := toLowerCase (last domainParts []) in
  let hyphenCount := countUnit HYPHEN domain in
  let domainNameOnly := firstLabel baseDomain in
  let isLikelyProDomain :=
    includes domain (js "company") || includes domain (js "corp")
    || endsWith domain (js ".edu") in
  (* 1 *)
  when (mem domain disposableDomains)
       (ind Disposable
            (js "Disposable/temporary email domain detected") 50)
  (* 2 *)
  ++ when (mem domain freeDomains
           && existsb (fun keyword =>
                         includes username keyword
                         || includes username (removeFirst DOT keyword))
                      corporateKeywords)
       (ind CorporateImpersonation
            (js "Corporate impersonation attempt detected (free domain + business keywords)")
            45)
  (* 3 *)
  ++ typosquattingLoop domain baseDomain trustedBrands
  ++ comboRule domain
  ++ keyboardLoop baseDomain trustedBrands
  ++ substitutionRule baseDomain
  (* 4 *)
  ++ when (detectHomoglyphAttack email)
       (ind HomoglyphAttack
            (js "Homoglyph attack detected: Non-Latin characters detected (Cyrillic/Greek/etc.)")
            50)
  ++ homoglyphDomainRule domain
  (* 5 *)
  ++ keywordRule username
  ++ becRule email
  (* 6 *)
  ++ randomnessRules email
  (* 7 *)
  ++ when (mem (DOT :: tld) suspiciousTLDs)
       (ind HighRiskTLD
            (WARNING ++ js " High-risk TLD: ." ++ tld
               ++ js " (frequently used for phishing/spam)") 35)
  ++ when (mem baseDomain urlShortenerDomains)
       (ind ShortenerDomain
            (js "URL shortener domain: " ++ baseDomain
                ++ js " (can hide malicious destinations)") 30)
  (* 8 *)
  ++ when (Nat.ltb 3 (List.length domainParts))
       (ind ComplexDomain
            (js "Overly complex domain structure (excessive subdomains - possible subdomain confusion attack)")
            25)
  ++ when (test false dotComHyphen domain)
       (ind SubdomainConfusion
            (SIREN ++ js " SUBDOMAIN CONFUSION: Domain contains "
               ++ quoted (js ".com-")
               ++ js " pattern (real domain is after the hyphen)") 65)
  ++ suffixRule domain
  ++ when (negb (eqb subdomain [])
           && existsb (fun entry =>
                         includes subdomain (firstLabel (fst entry)))
                      trustedBrands)
       (ind BrandInSubdomain
            (js "Brand impersonation in subdomain: Trusted brand appears before real domain")
            50)
  (* 9 *)
  ++ when (existsb (includes domain) brandPatterns)
       (ind BrandHyphens
            (js "Domain uses hyphens to break up brand names (spoofing technique)")
            35)
  (* 10 *)
  ++ when (Nat.ltb (List.length username) 2)
       (ind ShortUsername
            (js "Extremely short username (typically invalid)") 20)
  ++ when (Nat.ltb 64 (List.length username))
       (ind LongUsername (js "Unusually long username") 15)
  ++ when (mem username veryGenericNames && negb (mem domain freeDomains))
       (ind GenericUsername
            (js "Generic username " ++ quoted username
                ++ js " on unknown domain") 20)
  (* 11 *)
  ++ when (isLikelyProDomain
           && existsb (includes username) suspiciousKeywords)
       (ind ProfessionalMismatch
            (js "Mismatch: Professional domain paired with suspicious username")
            25)
  (* 12 *)
  ++ when (includes username (js "++"))
       (ind Aliasing
            (js "Email aliasing pattern detected (Gmail ++ technique)")
            15)
  (* 13 *)
  ++ when (test false consecutiveSpecial username)
       (ind ConsecutiveSpecials
            (js "Multiple consecutive special characters in username")
            15)
  (* 14 *)
  ++ when (includes domain (js "xn--"))
       (ind Punycode
            (SIREN ++ js " PUNYCODE DETECTED: Domain uses internationalized encoding (possible homoglyph attack)")
            60)
  (* 15 *)
  ++ when (test false dottedQuad domain)
       (ind IPAddress
            (SIREN ++ js " IP ADDRESS AS DOMAIN: Using raw IP instead of domain name (major red flag)")
            80)
  (* 16 *)
  ++ when (test true serviceId username)
       (ind ServiceIdPattern
            (js "Generic service ID pattern: Username looks like auto-generated support ticket")
            30)
  (* 17 *)
  ++ expiredRule domain
  (* 18 *)
  ++ when (Nat.leb 3 hyphenCount)
       (ind ExcessiveHyphens
            (js "Excessive hyphens in domain: " ++ ofNat hyphenCount
                ++ js " hyphens detected (obfuscation tactic)") 35)
  (* 19 *)
  ++ when (test false (Cls [(65, 90)%N]) domain
           && negb (eqb domain (toLowerCase domain)))
       (ind MixedCase
            (js "Mixed case in domain: Legitimate domains don't use uppercase")
            25)
  (* 20 *)
  ++ when (Nat.ltb 5 (List.length domainNameOnly)
           && negb (test true
                      (Cls [(97, 97); (101, 101); (105, 105);
                            (111, 111); (117, 117)]%N)
                      domainNameOnly))
       (ind VowellessDomain
            (js "Vowel-less domain: " ++ quoted domainNameOnly
                ++ js " appears to be gibberish") 30).

(** [const [username, domain] = emailLower.split("@")] followed by
    [if (!username || !domain)]: [None] when the early return is
    taken.  [domain] is [undefined] when there is no second piece. *)
Definition emailParts (email : jsstring) : option (jsstring * jsstring) :=
  let emailLower := toLowerCase email in
  match split AT emailLower with
  | username :: domain :: _ =>
      if eqb username [] || eqb domain [] then None
      else Some (username, domain)
  | _ => None
  end.

Definition invalidFormat (email : jsstring) : SpamCheckResult :=
  {| email := email;
     isSpam := true;
     riskLevel := Invalid;
     spamScore := 100;
     indicators := [js "Invalid email format"];
     reason := js "Email format is invalid";
     aiAnalysis := None;
     geminiVerdict := None |}.

Definition performLocalSpamDetection (email : jsstring)
  : SpamCheckResult :=
  match emailParts email with
  | None => invalidFormat email
  | Some (username, domain) =>
      let '(indicators, raw) :=
        runRules (ruleFirings email username domain) in
      let spamScore := Z.min raw 100 in
      let riskLevel := Safe in
      let riskLevel := if (35 <=? spamScore)%Z then Risky else riskLevel in
      let riskLevel :=
        if (65 <=? spamScore)%Z then Invalid else riskLevel in
      {| email := email;
         isSpam := (35 <? spamScore)%Z;
         riskLevel := riskLevel;
         spamScore := spamScore;
         indicators := indicators;
         reason :=
           if Nat.eqb (List.length indicators) 0
           then js "Email appears legitimate"
           else js "Detected " ++ ofNat (List.length indicators)
                   ++ js " risk indicator(s)";
         aiAnalysis := None;
         geminiVerdict := None |}
  end.

(** The indicators behind a result, with the rule and the weight of
    each.  The early return hands out the score [100] together with
    its one indicator. *)
Definition firedIndicators (email : jsstring) : list (Indicator Rule) :=
  match emailParts email with
  | None => [ind InvalidFormat (js "Invalid email format") 100]
  | Some (username, domain) => ruleFirings email username domain
  end.

End Scorer.

(** *** [getGeminiAnalysis] and [POST] *)

Section Route.

Context {P : Platform}.
Variable A : Arbiter Verdict.

(** The whole body is inside [try]; [await generateObject] has no
    timer of its own. *)
Definition getGeminiAnalysis (email : jsstring)
           (localFindings : SpamCheckResult)
  : Async (Verdict * jsstring) :=
  if negb (configured (apiKey A))
  then Fulfilled 0
         (Suspicious,
          js "API key not configured. Please set GOOGLE_GENERATIVE_AI_API_KEY environment variable.")
  else
    match generateObject A email (indicators localFindings)
                         (spamScore localFindings) with
    | Resolves t verdict explanation => Fulfilled t (verdict, explanation)
    | Rejects t _ _ _ =>
        Fulfilled t
          (Suspicious,
           js "AI analysis encountered an error. Please try again.")
    | Pending => Forever
    end.

(** [geminiVerdict] of the branch without API key. *)
Definition verdictOfBand (level : RiskLevel) : Verdict :=
  match level with
  | Invalid => Fake
  | Risky => Suspicious
  | Safe => Legitimate
  end.

(** The final result built from the verdict of the arbiter. *)
Definition assemble (email : jsstring) (localResult : SpamCheckResult)
           (verdict : Verdict) (explanation : jsstring)
  : SpamCheckResult :=
  {| email := email;
     isSpam := match verdict with
               | Fake | Suspicious => true
               | Legitimate => false
               end;
     riskLevel := match verdict with
                  | Fake => Invalid
                  | Suspicious => Risky
                  | Legitimate => Safe
                  end;
     spamScore := match verdict with
                  | Fake => 85
                  | Suspicious => 60
                  | Legitimate => 20
                  end;
     indicators := indicators localResult;
     reason := explanation;
     aiAnalysis := Some explanation;
     geminiVerdict := Some verdict |}.

(** [POST], from the validation of the parsed body on. *)
Definition POST (email : jsstring) : Response SpamCheckResult :=
  if negb (emailSchema email) then Error400
  else
    let localResult := performLocalSpamDetection email in
    if negb (configured (apiKey A))
    then Ok200
           {| email := CheckEmail.email localResult;
              isSpam := isSpam localResult;
              riskLevel := riskLevel localResult;
              spamScore := spamScore localResult;
              indicators := indicators localResult;
              reason := reason localResult;
              aiAnalysis :=
                Some (WARNING ++ js " API key not configured. Using local analysis only.");
              geminiVerdict :=
                Some (verdictOfBand (riskLevel localResult)) |}
    else
      match getGeminiAnalysis email localResult with
      | Fulfilled _ (verdict, explanation) =>
          Ok200 (assemble email localResult verdict explanation)
      | Rejected _ => Error500
      | Forever => NoResponse
      end.

End Route.

End CheckEmail.

(** ** The URL route *)

Module CheckUrl.

(** ["safe" | "suspicious" | "dangerous"]: both the risk level of a
    result and the verdict of the arbiter. *)
Inductive RiskLevel : Type := Safe | Suspicious | Dangerous.

Record URLCheckResult : Type := {
  url : jsstring;
  isSafe : bool;
  riskLevel : RiskLevel;
  riskScore : Z;
  indicators : list jsstring;
  redirectChain : option (list jsstring);
  finalDestination : option jsstring;
  isShortened : option bool;
  reason : jsstring;
  aiAnalysis : option jsstring;
  geminiVerdict : option RiskLevel
}.

(** UTF-16 code units of the pictographs that open the indicators. *)
Definition SIREN : jsstring := [55357; 57000]%N.     (* U+1F6A8 *)
Definition WARNING : jsstring := [9888; 65039]%N.    (* U+26A0 U+FE0F *)
Definition LINK : jsstring := [55357; 56599]%N.      (* U+1F517 *)

Definition urlShorteners : list jsstring :=
  map js [ "bit.ly"; "tinyurl.com"; "goo.gl"; "ow.ly"; "t.co"; "is.gd";
           "buff.ly"; "adf.ly"; "shorturl.at"; "cutt.ly"; "rb.gy";
           "short.io"; "tiny.cc"; "tr.im"; "cli.gs"; "u.nu"; "x.co";
           "budurl.com" ]%string.

(** *** [resolveURLRedirects] *)

(** One [HEAD] probe with [redirect: 'manual']: the request fails (the
    2 s abort signal included) or answers with a status and possibly a
    [location] header. *)
Inductive HeadResult : Type :=
| NetworkError
| Answer (status : Z) (location : option jsstring).

Record Network : Type := {
  (** the probe made by the iteration that starts with [attempts = n] *)
  head : nat -> jsstring -> HeadResult;
  (** [Date.now() - startTime] when that iteration tests the condition *)
  elapsed : nat -> Z;
  (** the 5000 ms timer of [POST] fires before the resolver settles *)
  resolverLate : bool
}.

Record RedirectInfo : Type := {
  finalUrl : jsstring;
  chain : list jsstring;
  shortened : bool
}.

(** The variables of the [while] loop. *)
Record Loop : Type := {
  loopChain : list jsstring;
  nextUrl : jsstring;
  currentUrl : jsstring;
  attempts : nat
}.

Definition maxRedirects : nat := 5.
Definition totalTimeLimit : Z := 5000.

Section Resolver.

Context {P : Platform}.
Variable net : Network.

(** The condition of the [while] loop. *)
Definition guard (st : Loop) : bool :=
  Nat.ltb (attempts st) maxRedirects
  && (elapsed net (attempts st) <? totalTimeLimit)%Z.

(** The redirect target the body computes from a [location] header:
    [None] when [new URL(location, nextUrl)] throws. *)
Definition target (st : Loop) (location : jsstring) : option jsstring :=
  if startsWith location (js "http") then Some location
  else resolveURL location (nextUrl st).

(** One pass through the loop body: [None] for [break], caught fetch
    errors included. *)
Definition iteration (st : Loop) : option Loop :=
  match head net (attempts st) (nextUrl st) with
  | NetworkError => None
  | Answer status location =>
      if ((300 <=? status) && (status <? 400))%Z
      then
        match location with
        | None => None
        | Some [] => None
        | Some location =>
            match target st location with
            | None => None
            | Some redirectUrl =>
                if mem redirectUrl (loopChain st) then None
                else Some {| loopChain := loopChain st ++ [redirectUrl];
                             nextUrl := redirectUrl;
                             currentUrl := redirectUrl;
                             attempts := S (attempts st) |}
            end
        end
      else None
  end.

(** The [while] loop. *)
Fixpoint loop (fuel : nat) (st : Loop) : Loop :=
  if guard st
  then
    match fuel with
    | O => st
    | S fuel' =>
        match iteration st with
        | None => st
        | Some st' => loop fuel' st'
        end
    end
  else st.

Definition initial (url : jsstring) : Loop :=
  {| loopChain := [url]; nextUrl := url; currentUrl := url;
     attempts := 0 |}.

Definition resolveURLRedirects (url : jsstring) : RedirectInfo :=
  match parseURL url with
  | None => {| finalUrl := url; chain := [url]; shortened := false |}
  | Some urlObj =>
      let domain := toLowerCase (hostname urlObj) in
      let isShortened := existsb (includes domain) urlShorteners in
      let st := loop maxRedirects (initial url) in
      {| finalUrl := currentUrl st;
         chain := loopChain st;
         shortened := isShortened |}
  end.

(** [hops st st']: the loop, started in [st], follows redirects up to
    the state [st']. *)
Inductive hops : Loop -> Loop -> Prop :=
| hops_here st : hops st st
| hops_next st st' st'' :
    guard st = true -> iteration st = Some st' -> hops st' st'' ->
    hops st st''.

(** What holds of the loop variables throughout. *)
Record Inv (url : jsstring) (st : Loop) : Prop := {
  inv_current : currentUrl st = nextUrl st;
  inv_last : last (loopChain st) url = currentUrl st;
  inv_head : hd url (loopChain st) = url;
  inv_nodup : NoDup (loopChain st);
  inv_length : List.length (loopChain st) = S (attempts st);
  inv_bound : attempts st <= maxRedirects
}.

(** The loop stops in [st]: the condition fails or the body breaks. *)
Definition stops (st : Loop) : Prop :=
  guard st = false \/ iteration st = None.

End Resolver.

(** *** [performLocalURLAnalysis] *)

Inductive Rule : Type :=
| ParseFailure | NoHttps | IPAddress | Shortener | HighRiskTLD
| BrandImpersonation | SubdomainConfusion | ExcessiveHyphens
| ComplexSubdomain | PhishingKeywords | LongPath | RandomString
| RedirectParameters | Punycode | AtSymbol | UnusualPort | ExecutableFile
| DataUrl | JavascriptProtocol.

Definition ind (r : Rule) (d : jsstring) (w : Z) : Indicator Rule :=
  {| rule := r; description := d; weightContribution := w |}.

Definition suspiciousTLDs : list jsstring :=
  map js [ ".tk"; ".ml"; ".ga"; ".cf"; ".gq";
           ".xyz"; ".top"; ".win"; ".bid"; ".stream"; ".download";
           ".click";
           ".pw"; ".ws"; ".cc"; ".zip"; ".review"; ".loan"; ".faith";
           ".science";
           ".work"; ".party"; ".gdn"; ".men"; ".date" ]%string.

Definition trustedBrands : list jsstring :=
  map js [ "google.com"; "facebook.com"; "amazon.com"; "paypal.com";
           "microsoft.com"; "apple.com"; "netflix.com"; "instagram.com";
           "twitter.com"; "linkedin.com"; "ebay.com"; "walmart.com";
           "chase.com"; "bankofamerica.com"; "wellsfargo.com" ]%string.

Definition suspiciousKeywords : list jsstring :=
  map js [ "verify"; "account"; "secure"; "login"; "signin"; "update";
           "confirm"; "suspended"; "locked"; "urgent"; "alert";
           "security"; "authentication"; "billing"; "payment"; "wallet";
           "bank"; "credential"; "password" ]%string.

Definition suspiciousParams : list jsstring :=
  map js [ "redirect"; "url"; "link"; "goto"; "return"; "continue";
           "next" ]%string.

Definition usualPorts : list jsstring :=
  map js [ "80"; "443"; "8080" ]%string.

Definition dangerousExtensions : list jsstring :=
  map js [ ".exe"; ".scr"; ".bat"; ".cmd"; ".com"; ".pif"; ".apk";
           ".dmg" ]%string.

(** [s.split(".")[0]] and [s.split(".").pop() || ""] *)
Definition firstLabel (s : jsstring) : jsstring := hd [] (split DOT s).
Definition lastLabel (s : jsstring) : jsstring := last (split DOT s) [].

(** [/\.(com|net|org)-/] *)
Definition dotComHyphen : re :=
  Seq (chr ".") (Seq (words ["com"; "net"; "org"]%string) (chr "-")).

(** The body of [/^\d{1,3}\.\d{1,3}\.\d{1,3}\.\d{1,3}$/] *)
Definition dottedQuad : re :=
  Seq (oneToThree digit) (Seq (chr ".")
 (Seq (oneToThree digit) (Seq (chr ".")
 (Seq (oneToThree digit) (Seq (chr ".") (oneToThree digit)))))).

(** [/[a-z0-9]{30,}/] *)
Definition randomLooking : re :=
  atLeast 30 (Cls [(97, 122); (48, 57)]%N).

(** [", "] with the quotes: the separator of the two [join]s. *)
Definition quoteCommaQuote : jsstring := QUOTE ++ js ", " ++ QUOTE.

Definition brandRule (domain : jsstring) : list (Indicator Rule) :=
  flat_map
    (fun brand =>
       let brandName := firstLabel brand in
       when (includes domain brandName && negb (endsWith domain brand))
            (ind BrandImpersonation
                 (SIREN ++ js " BRAND IMPERSONATION: Domain contains "
                    ++ quoted brandName
                    ++ js " but is NOT the official site") 60))
    trustedBrands.

Section Scorer.

Context {P : Platform}.

(** The rules of the [try] block, for a URL that parses to [urlObj]. *)
Definition ruleFirings (url : jsstring) (urlObj : URLObject)
  : list (Indicator Rule) :=
  let domain := toLowerCase (hostname urlObj) in
  let protocol := protocol urlObj in
  let path := pathname urlObj in
  let tld := lastLabel domain in
  let hyphenCount := countUnit HYPHEN domain in
  let subdomainCount :=
    (Z.of_nat (List.length (split DOT domain)) - 2)%Z in
  let urlLower := toLowerCase url in
  let foundKeywords := filter (includes urlLower) suspiciousKeywords in
  let paramKeys := searchKeys urlObj in
  let foundParams :=
    filter (fun key => mem (toLowerCase key) suspiciousParams)
           paramKeys in
  (* 1 *)
  when (negb (eqb protocol (js "https:")))
       (ind NoHttps
            (SIREN ++ js " NO SSL/HTTPS: Website does not use secure encryption")
            50)
  (* 2 *)
  ++ when (fullMatch false dottedQuad domain)
       (ind IPAddress
            (SIREN ++ js " IP ADDRESS: Using raw IP instead of domain name (extremely suspicious)")
            80)
  (* 3 *)
  ++ when (existsb (includes domain) urlShorteners)
       (ind Shortener
            (WARNING ++ js " URL SHORTENER: Link hides real destination (could redirect to malicious site)")
            40)
  (* 4 *)
  ++ when (mem (DOT :: tld) suspiciousTLDs)
       (ind HighRiskTLD
            (WARNING ++ js " HIGH-RISK TLD: ." ++ tld
               ++ js " extension frequently used for phishing/malware")
            35)
  (* 5 *)
  ++ brandRule domain
  (* 6 *)
  ++ when (test false dotComHyphen domain)
       (ind SubdomainConfusion
            (SIREN ++ js " SUBDOMAIN CONFUSION: Contains '.com-' pattern (real domain is AFTER the hyphen)")
            70)
  (* 7 *)
  ++ when (Nat.leb 3 hyphenCount)
       (ind ExcessiveHyphens
            (WARNING ++ js " EXCESSIVE HYPHENS: " ++ ofNat hyphenCount
               ++ js " hyphens detected (common phishing tactic)") 30)
  ++ when (3 <=? subdomainCount)%Z
       (ind ComplexSubdomain
            (WARNING ++ js " COMPLEX SUBDOMAIN: " ++ ofZ subdomainCount
               ++ js " subdomains (possible obfuscation)") 25)
  (* 8 *)
  ++ when (Nat.leb 2 (List.length foundKeywords))
       (ind PhishingKeywords
            (WARNING ++ js " PHISHING KEYWORDS: Found "
               ++ quoted (join quoteCommaQuote foundKeywords)
               ++ js " (common in scam URLs)") 35)
  (* 9 *)
  ++ when (Nat.ltb 100 (List.length path))
       (ind LongPath
            (WARNING ++ js " UNUSUALLY LONG URL PATH: "
               ++ ofNat (List.length path)
               ++ js " characters (possible obfuscation)") 20)
  ++ when (test false randomLooking path)
       (ind RandomString
            (WARNING ++ js " RANDOM CHARACTER STRING: Path contains long random sequence")
            25)
  (* 10 *)
  ++ when (Nat.ltb 0 (List.length foundParams))
       (ind RedirectParameters
            (WARNING ++ js " REDIRECT PARAMETERS: Found "
               ++ quoted (join quoteCommaQuote foundParams)
               ++ js " (possible redirect chain)") 30)
  (* 11 *)
  ++ when (includes domain (js "xn--"))
       (ind Punycode
            (SIREN ++ js " PUNYCODE DETECTED: Domain uses internationalized encoding (possible homoglyph attack)")
            60)
  (* 12 *)
  ++ when (Nat.ltb 1 (List.length (split AT url)))
       (ind AtSymbol
            (SIREN ++ js " URL OBFUSCATION: Contains '@' symbol (can hide real destination)")
            70)
  (* 13 *)
  ++ when (negb (eqb (port urlObj) [])
           && negb (mem (port urlObj) usualPorts))
       (ind UnusualPort
            (WARNING ++ js " UNUSUAL PORT: Using port " ++ port urlObj
               ++ js " (could be malicious service)") 35)
  (* 14 *)
  ++ when (existsb (endsWith (toLowerCase path)) dangerousExtensions)
       (ind ExecutableFile
            (SIREN ++ js " EXECUTABLE FILE: URL points to downloadable executable (high malware risk)")
            75)
  (* 15 *)
  ++ when (eqb protocol (js "data:"))
       (ind DataUrl
            (WARNING ++ js " DATA URL: Embedded data (could contain malicious content)")
            45)
  (* 16 *)
  ++ when (eqb protocol (js "javascript:"))
       (ind JavascriptProtocol
            (SIREN ++ js " JAVASCRIPT PROTOCOL: Extremely dangerous (code execution risk)")
            90).

(** The [try] block: [None] when it throws, which only [new URL(url)]
    can do. *)
Definition tryBlock (url : jsstring) : option URLCheckResult :=
  match parseURL url with
  | None => None
  | Some urlObj =>
      let '(indicators, raw) := runRules (ruleFirings url urlObj) in
      let riskScore := Z.min raw 100 in
      let riskLevel := Safe in
      let riskLevel :=
        if (30 <=? riskScore)%Z then Suspicious else riskLevel in
      let riskLevel :=
        if (60 <=? riskScore)%Z then Dangerous else riskLevel in
      Some {| url := url;
              isSafe := (riskScore <? 30)%Z;
              riskLevel := riskLevel;
              riskScore := riskScore;
              indicators := indicators;
              redirectChain := None;
              finalDestination := None;
              isShortened := None;
              reason :=
                if Nat.eqb (List.length indicators) 0
                then js "URL appears safe - no red flags detected"
                else js "Detected " ++ ofNat (List.length indicators)
                        ++ js " security concern(s)";
              aiAnalysis := None;
              geminiVerdict := None |}
  end.

(** The [catch] block. *)
Definition parseFailure (url : jsstring) : URLCheckResult :=
  {| url := url;
     isSafe := false;
     riskLevel := Dangerous;
     riskScore := 100;
     indicators := [js "Invalid URL format - unable to parse"];
     redirectChain := None;
     finalDestination := None;
     isShortened := None;
     reason :=
       js "URL parsing failed - potentially malformed or malicious";
     aiAnalysis := None;
     geminiVerdict := None |}.

Definition performLocalURLAnalysis (url : jsstring) : URLCheckResult :=
  match tryBlock url with
  | Some result => result
  | None => parseFailure url
  end.

(** The indicators behind a result, with the rule and the weight of
    each.  The [catch] block hands out the score [100] together with
    its one indicator. *)
Definition firedIndicators (url : jsstring) : list (Indicator Rule) :=
  match parseURL url with
  | None =>
      [ind ParseFailure (js "Invalid URL format - unable to parse") 100]
  | Some urlObj => ruleFirings url urlObj
  end.

End Scorer.

(** *** [getGeminiURLAnalysis] and [POST] *)

Definition gatewayTimeout : Z := 18000.
Definition handlerTimeout : Z := 22000.

Definition timedOutText : jsstring :=
  js "AI analysis timed out. URL appears suspicious - please verify manually before clicking.".

Definition errorText : jsstring :=
  js "AI analysis encountered an error. Please verify this URL manually before clicking.".

(** [Promise.race([generateObject(...), timeoutPromise])]: the call wins
    when it settles before the 18000 ms timer rejects. *)
Definition raceGateway (o : Outcome RiskLevel) : Outcome RiskLevel :=
  let timeout :=
    Rejects gatewayTimeout true (js "Error") (js "Gemini analysis timeout") in
  match o with
  | Resolves t _ _ => if (t <? gatewayTimeout)%Z then o else timeout
  | Rejects t _ _ _ => if (t <? gatewayTimeout)%Z then o else timeout
  | Pending => timeout
  end.

Section Route.

Context {P : Platform}.
Variable net : Network.
Variable A : Arbiter RiskLevel.

(** The whole body is inside [try]; the [catch] block answers for
    every rejection of the race. *)
Definition getGeminiURLAnalysis (url : jsstring)
           (localFindings : URLCheckResult)
  : Async (RiskLevel * jsstring) :=
  if negb (configured (apiKey A))
  then Fulfilled 0
         (Suspicious,
          WARNING ++ js " API key not configured. Using local analysis only.")
  else
    match raceGateway
            (generateObject A url (indicators localFindings)
                            (riskScore localFindings)) with
    | Resolves t verdict explanation => Fulfilled t (verdict, explanation)
    | Rejects t isError name message =>
        if isError && (eqb name (js "AbortError")
                       || includes message (js "timeout"))
        then Fulfilled t (Suspicious, timedOutText)
        else Fulfilled t (Suspicious, errorText)
    | Pending => Forever
    end.

(** [redirectInfo] before the race, kept when the race is lost. *)
Definition unresolved (url : jsstring) : RedirectInfo :=
  {| finalUrl := url; chain := [url]; shortened := false |}.

(** Step 1 of [POST]. *)
Definition redirectStep (url : jsstring) : RedirectInfo :=
  if resolverLate net then unresolved url
  else resolveURLRedirects net url.

(** Step 2 of [POST]: the local result with the redirect fields set
    and, for a shortened link that redirected, one line put in front
    of the indicators. *)
Definition localStep (redirectInfo : RedirectInfo) : URLCheckResult :=
  let urlToAnalyze := finalUrl redirectInfo in
  let localResult := performLocalURLAnalysis urlToAnalyze in
  {| url := url localResult;
     isSafe := isSafe localResult;
     riskLevel := riskLevel localResult;
     riskScore := riskScore localResult;
     indicators :=
       if shortened redirectInfo
          && Nat.ltb 1 (List.length (chain redirectInfo))
       then (LINK ++ js " SHORTENED URL: Redirects to "
                  ++ finalUrl redirectInfo)
              :: indicators localResult
       else indicators localResult;
     redirectChain := Some (chain redirectInfo);
     finalDestination := Some (finalUrl redirectInfo);
     isShortened := Some (shortened redirectInfo);
     reason := reason localResult;
     aiAnalysis := aiAnalysis localResult;
     geminiVerdict := geminiVerdict localResult |}.

(** Step 3 of [POST]: the race of the gateway against 22000 ms, with
    the local result as the answer of the [catch] block. *)
Definition verdictStep (urlToAnalyze : jsstring)
           (localResult : URLCheckResult) : RiskLevel * jsstring :=
  let fallback := (riskLevel localResult, reason localResult) in
  match getGeminiURLAnalysis urlToAnalyze localResult with
  | Fulfilled t data => if (t <? handlerTimeout)%Z then data else fallback
  | Rejected _ => fallback
  | Forever => fallback
  end.

Definition assemble (url : jsstring) (redirectInfo : RedirectInfo)
           (localResult : URLCheckResult)
           (verdict : RiskLevel) (explanation : jsstring)
  : URLCheckResult :=
  {| url := url;
     isSafe := match verdict with Safe => true | _ => false end;
     riskLevel := verdict;
     riskScore := match verdict with
                  | Dangerous => 85
                  | Suspicious => 60
                  | Safe => 15
                  end;
     indicators := indicators localResult;
     redirectChain := Some (chain redirectInfo);
     finalDestination := Some (finalUrl redirectInfo);
     isShortened := Some (shortened redirectInfo);
     reason := explanation;
     aiAnalysis := Some explanation;
     geminiVerdict := Some verdict |}.

(** [POST], from the validation of the parsed body on. *)
Definition POST (url : jsstring) : Response URLCheckResult :=
  if negb (urlSchema url) then Error400
  else
    let redirectInfo := redirectStep url in
    let urlToAnalyze := finalUrl redirectInfo in
    let localResult := localStep redirectInfo in
    if negb (configured (apiKey A))
    then Ok200
           {| url := CheckUrl.url localResult;
              isSafe := isSafe localResult;
              riskLevel := riskLevel localResult;
              riskScore := riskScore localResult;
              indicators := indicators localResult;
              redirectChain := redirectChain localResult;
              finalDestination := finalDestination localResult;
              isShortened := isShortened localResult;
              reason := reason localResult;
              aiAnalysis :=
                Some (WARNING ++ js " API key not configured. Using local analysis only.");
              geminiVerdict := Some (riskLevel localResult) |}
    else
      let '(verdict, explanation) :=
        verdictStep urlToAnalyze localResult in
      Ok200 (assemble url redirectInfo localResult verdict explanation).

End Route.

End CheckUrl.

(** ** The claim of the specification about the e-mail split, in its words *)

(** "Splits local-part from domain on the last [@]": the text before the
    last [@] and the text after it; [None] when there is no [@]. *)
Fixpoint splitAtLast (s : jsstring) : option (jsstring * jsstring) :=
  match s with
  | [] => None
  | c :: s' =>
      match splitAtLast s' with
      | Some (localPart, domain) => Some (c :: localPart, domain)
      | None => if N.eqb c AT then Some ([], s') else None
      end
  end.

(** ** Concrete environments for the scenarios *)

Module Fixtures.

Definition urlObject (host path : string) : URLObject :=
  {| hostname := js host; protocol := js "https:"; pathname := js path;
     searchKeys := []; port := [] |}.

(** What [new URL] answers on the URLs of the scenarios. *)
Definition parsed : list (jsstring * URLObject) :=
  [ (js "https://bit.ly/abc123", urlObject "bit.ly" "/abc123");
    (js "https://hop.example/r", urlObject "hop.example" "/r");
    (js "https://example.com", urlObject "example.com" "/");
    (js "https://best.com/", urlObject "best.com" "/");
    (js "https://a.example/", urlObject "a.example" "/");
    (js "https://b.example/", urlObject "b.example" "/") ].

Definition lookup {A} (key : jsstring) (table : list (jsstring * A))
  : option A :=
  option_map snd (find (fun kv => eqb (fst kv) key) table).

(** A platform for ASCII identifiers: the scenarios use nothing else. *)
#[export] Instance platform : Platform :=
  {| toLowerCase := asciiLower;
     parseURL := fun s => lookup s parsed;
     resolveURL := fun _ _ => None;
     emailSchema := fun s =>
       mem s (map js [ "john.doe@example.org";
                       "support-id-7193@service.amason.com" ]%string);
     urlSchema := fun s =>
       match lookup s parsed with Some _ => true | None => false end |}.

Definition redirect (status : Z) (target : string) : CheckUrl.HeadResult :=
  CheckUrl.Answer status (Some (js target)).

(** [https://bit.ly/abc123] answers 301 to a hop that answers 302 to
    [https://example.com], which answers 200. *)
Definition shortLink : CheckUrl.Network :=
  {| CheckUrl.head := fun _ u =>
       match lookup u [ (js "https://bit.ly/abc123",
                         redirect 301 "https://hop.example/r");
                        (js "https://hop.example/r",
                         redirect 302 "https://example.com") ] with
       | Some answer => answer
       | None => CheckUrl.Answer 200 None
       end;
     CheckUrl.elapsed := fun n => (Z.of_nat n * 150)%Z;
     CheckUrl.resolverLate := false |}.

(** [https://a.example/] and [https://b.example/] redirect to each
    other. *)
Definition cycle : CheckUrl.Network :=
  {| CheckUrl.head := fun _ u =>
       match lookup u [ (js "https://a.example/",
                         redirect 302 "https://b.example/");
                        (js "https://b.example/",
                         redirect 302 "https://a.example/") ] with
       | Some answer => answer
       | None => CheckUrl.Answer 200 None
       end;
     CheckUrl.elapsed := fun n => (Z.of_nat n * 150)%Z;
     CheckUrl.resolverLate := false |}.

(** An arbiter whose call is rejected after 1.2 s. *)
Definition failing (V : Type) : Arbiter V :=
  {| apiKey := Some (js "key");
     generateObject := fun _ _ _ =>
       Rejects 1200 true (js "Error") (js "fetch failed") |}.

(** An arbiter that never answers. *)
Definition hanging (V : Type) : Arbiter V :=
  {| apiKey := Some (js "key");
     generateObject := fun _ _ _ => Pending |}.

(** No API key in the environment. *)
Definition unconfigured (V : Type) : Arbiter V :=
  {| apiKey := None;
     generateObject := fun _ _ _ => Pending |}.

(** An arbiter that answers [v] after one second. *)
Definition answering (V : Type) (v : V) : Arbiter V :=
  {| apiKey := Some (js "key");
     generateObject := fun _ _ _ => Resolves 1000 v (js "ok") |}.

End Fixtures.

(** ** Predicates of the statements about the scorers and the resolver *)

(** A firing of weight at least [k]. *)
Definition heavy (Rule : Type) (k : Z) (i : Indicator Rule) : Prop :=
  (k <= weightContribution i)%Z.

(** The band the e-mail scorer gives a score. *)
Definition emailBandOf (score : Z) : CheckEmail.RiskLevel :=
  if (65 <=? score)%Z then CheckEmail.Invalid
  else if (35 <=? score)%Z then CheckEmail.Risky
  else CheckEmail.Safe.

(** The band the URL scorer gives a score. *)
Definition urlBandOf (score : Z) : CheckUrl.RiskLevel :=
  if (60 <=? score)%Z then CheckUrl.Dangerous
  else if (30 <=? score)%Z then CheckUrl.Suspicious
  else CheckUrl.Safe.

(** One to three decimal digits. *)
Definition digits1to3 (s : jsstring) : Prop :=
  1 <= List.length s <= 3 /\ forall c, In c s -> isDigit c = true.

(** Four groups of one to three digits, separated by dots. *)
Definition dottedQuadText (s : jsstring) : Prop :=
  exists a b c d,
    digits1to3 a /\ digits1to3 b /\ digits1to3 c /\ digits1to3 d
    /\ s = a ++ [DOT] ++ b ++ [DOT] ++ c ++ [DOT] ++ d.



(** [redirectsTo net n a b]: the probe of iteration [n] on [a] answers
    with a redirect status and a [location] header whose target is
    [b]. *)
Definition redirectsTo {P : Platform} (net : CheckUrl.Network) (n : nat)
           (a b : jsstring) : Prop :=
  exists status location,
    CheckUrl.head net n a = CheckUrl.Answer status (Some location)
    /\ (300 <= status < 400)%Z
    /\ location <> []
    /\ (if startsWith location (js "http") then Some location
        else resolveURL location a) = Some b.

(** Every URL of the list redirects to the next one, at the iterations
    [n], [n + 1], ... *)
Fixpoint linked {P : Platform} (net : CheckUrl.Network) (n : nat)
         (l : list jsstring) : Prop :=
  match l with
  | a :: ((b :: _) as rest) => redirectsTo net n a b /\ linked net (S n) rest
  | _ => True
  end.

(** ** The claims section of the PDF report *)

Module Report.

(** [AnalysisResult["claims"][number]] *)
Inductive Status : Type := Verified | Contradicted | Unverified.

Record Claim : Type := {
  text : jsstring;
  status : Status;
  explanation : jsstring
}.

(** [c.status === s] *)
Definition hasStatus (s : Status) (c : Claim) : bool :=
  match s, status c with
  | Verified, Verified | Contradicted, Contradicted
  | Unverified, Unverified => true
  | _, _ => false
  end.

(** [results.claims.filter((c) => c.status === s).length] *)
Definition count (s : Status) (claims : list Claim) : nat :=
  List.length (filter (hasStatus s) claims).

(** The children of the claims section: a box per claim with its
    index and border colour, or the closing line with the number of
    claims left out. *)
Inductive Element : Type :=
| ClaimBox (index : nat) (borderColor : string) (claim : Claim)
| MoreLine (additional : nat).

Definition claimBorderColor (c : Claim) : string :=
  match status c with
  | Verified => "#22c55e"
  | Contradicted => "#ef4444"
  | Unverified => "#f59e0b"
  end.

(** [array.map((claim, index) => ...)], from [index] on. *)
Fixpoint boxesFrom (index : nat) (claims : list Claim) : list Element :=
  match claims with
  | [] => []
  | claim :: rest =>
      ClaimBox index (claimBorderColor claim) claim
        :: boxesFrom (S index) rest
  end.

(** [claimElements] of [downloadPDFReport]: [slice(0, 10).map(...)] and
    the [push] under [results.claims.length > 10]. *)
Definition claimElements (claims : list Claim) : list Element :=
  boxesFrom 0 (firstn 10 claims)
  ++ (if Nat.ltb 10 (List.length claims)
      then [MoreLine (List.length claims - 10)]
      else []).

(** The number of claims an element stands for. *)
Definition covers (e : Element) : nat :=
  match e with
  | ClaimBox _ _ _ => 1
  | MoreLine additional => additional
  end.

End Report.

(** ** Further environments *)

Module Samples.

(** What [new URL] answers on further URLs. *)
Definition parsed : list (jsstring * URLObject) :=
  [ (js "http://example.com/",
     {| hostname := js "example.com"; protocol := js "http:";
        pathname := js "/"; searchKeys := []; port := [] |});
    (js "https://192.168.0.1/login",
     Fixtures.urlObject "192.168.0.1" "/login");
    (js "https://paypal.com@evil.example/",
     Fixtures.urlObject "evil.example" "/");
    (js "https://example.com", Fixtures.urlObject "example.com" "/") ].

Definition platform : Platform :=
  {| toLowerCase := asciiLower;
     parseURL := fun s => Fixtures.lookup s parsed;
     resolveURL := fun _ _ => None;
     emailSchema := fun s => Nat.eqb (countUnit AT s) 1;
     urlSchema := fun s =>
       match Fixtures.lookup s parsed with
       | Some _ => true
       | None => false
       end |}.

(** The probes of [Fixtures.shortLink], three seconds apart. *)
Definition slow : CheckUrl.Network :=
  {| CheckUrl.head := CheckUrl.head Fixtures.shortLink;
     CheckUrl.elapsed := fun n => (Z.of_nat n * 3000)%Z;
     CheckUrl.resolverLate := false |}.


(** Twelve claims, verified, contradicted and unverified in turn. *)
Definition claims : list Report.Claim :=
  map (fun n =>
         {| Report.text := ofNat n;
            Report.status :=
              match Nat.modulo n 3 with
              | 0 => Report.Verified
              | 1 => Report.Contradicted
              | _ => Report.Unverified
              end;
            Report.explanation := [] |})
      (seq 0 12).

End Samples.

(** * Properties *)

(** ** Strings *)

Module StrFacts.

Lemma eqb_eq (a b : jsstring) : eqb a b = true <-> a = b.
Proof.
  revert b; induction a as [|x a IH]; intros [|y b]; simpl;
    try (split; congruence).
  rewrite andb_true_iff, N.eqb_eq, IH.
  split; [intros [-> ->]; reflexivity | intros H; inversion H; auto].
Qed.

Lemma eqb_refl (a : jsstring) : eqb a a = true.
Proof. apply eqb_eq; reflexivity. Qed.

Lemma eqb_neq (a b : jsstring) : eqb a b = false <-> a <> b.
Proof.
  rewrite <- eqb_eq. destruct (eqb a b); split; congruence.
Qed.

Lemma mem_In (s : jsstring) (l : list jsstring) :
  mem s l = true <-> In s l.
Proof.
  unfold mem. rewrite existsb_exists. split.
  - intros [x [Hin Heq]]. apply eqb_eq in Heq. subst; assumption.
  - intros Hin. exists s. split; [assumption | apply eqb_refl].
Qed.

Lemma mem_not_In (s : jsstring) (l : list jsstring) :
  mem s l = false <-> ~ In s l.
Proof.
  rewrite <- mem_In. destruct (mem s l); split; congruence.
Qed.

(** [startsWith] is "has this prefix". *)
Lemma startsWith_prefix (s p : jsstring) :
  startsWith s p = true <-> exists rest, s = p ++ rest.
Proof.
  revert s; induction p as [|y p IH]; intros s; simpl.
  - split; [intros _; exists s; reflexivity | reflexivity].
  - destruct s as [|x s].
    + split; [discriminate | intros [rest H]; discriminate].
    + rewrite andb_true_iff, N.eqb_eq, IH. split.
      * intros [-> [rest ->]]. exists rest; reflexivity.
      * intros [rest H]. inversion H; subst. split; eauto.
Qed.

(** [includes] is "occurs as a substring". *)
Lemma includes_substring (s p : jsstring) :
  includes s p = true <-> exists before after, s = before ++ p ++ after.
Proof.
  induction s as [|x s IH].
  - simpl. rewrite orb_false_r, startsWith_prefix. split.
    + intros [rest H]. exists [], rest. assumption.
    + intros [[|b before] [after H]]; [exists after; assumption|].
      discriminate.
  - change (includes (x :: s) p)
      with (startsWith (x :: s) p || includes s p).
    rewrite orb_true_iff, startsWith_prefix, IH. split.
    + intros [[rest H] | [before [after H]]].
      * exists [], rest. assumption.
      * exists (x :: before), after. simpl. congruence.
    + intros [[|b before] [after H]].
      * left. exists after. assumption.
      * right. inversion H; subst. eauto.
Qed.

(** [split] never answers the empty array. *)
Lemma split_nonempty (c : N) (s : jsstring) : split c s <> [].
Proof.
  induction s as [|x s IH]; simpl; [discriminate|].
  destruct (N.eqb x c); [discriminate|].
  destruct (split c s); discriminate.
Qed.

(** Without the separator in it, a string is its own single piece. *)
Lemma split_without (c : N) (s : jsstring) :
  countUnit c s = 0 -> split c s = [s].
Proof.
  unfold countUnit. induction s as [|x s IH]; simpl; [reflexivity|].
  rewrite (N.eqb_sym c x). destruct (N.eqb x c); simpl; [discriminate|].
  intros H. rewrite (IH H). reflexivity.
Qed.

End StrFacts.

(** ** The matcher against the languages of the patterns *)

Module RegexFacts.

Section Semantics.

Variable ci : bool.

Lemma Void_empty s : ~ Matches ci Void s.
Proof. intros H. inversion H. Qed.

Lemma isVoid_empty r s : isVoid r = true -> ~ Matches ci r s.
Proof. destruct r; try discriminate. intros _. apply Void_empty. Qed.

Lemma seq'_Seq a b s : Matches ci (seq' a b) s <-> Matches ci (Seq a b) s.
Proof.
  unfold seq'. destruct (isVoid a || isVoid b) eqn:Hv.
  - split; intros H; [destruct (Void_empty H)|].
    inversion H; subst. apply orb_true_iff in Hv.
    destruct Hv as [Hv | Hv]; eapply isVoid_empty in Hv; exfalso; eauto.
  - destruct a; try tauto. split; intros H.
    + change s with ([] ++ s). constructor; [constructor | exact H].
    + inversion H; subst.
      match goal with Hm : Matches ci Eps _ |- _ => inversion Hm; subst end.
      assumption.
Qed.

Lemma alt'_Alt a b s : Matches ci (alt' a b) s <-> Matches ci (Alt a b) s.
Proof.
  unfold alt'. destruct (isVoid a) eqn:Ha; [|destruct (isVoid b) eqn:Hb].
  - split; intros H; [apply MAltR; exact H|].
    inversion H; subst; [exfalso; eapply isVoid_empty; eauto | assumption].
  - split; intros H; [apply MAltL; exact H|].
    inversion H; subst; [assumption | exfalso; eapply isVoid_empty; eauto].
  - tauto.
Qed.

Lemma nullable_Matches r : nullable r = true <-> Matches ci r [].
Proof.
  induction r as [| | ranges | | a IHa b IHb | a IHa b IHb | a IHa];
    cbn [nullable].
  - split; [discriminate | intros H; inversion H].
  - split; [constructor | reflexivity].
  - split; [discriminate | intros H; inversion H].
  - split; [discriminate | intros H; inversion H].
  - rewrite andb_true_iff, IHa, IHb. split.
    + intros [Ha Hb]. change (@nil N) with (@nil N ++ []). constructor; auto.
    + intros H. inversion H; subst.
      match goal with
      | Heq : _ ++ _ = [] |- _ =>
          apply app_eq_nil in Heq; destruct Heq as [-> ->]
      end.
      auto.
  - rewrite orb_true_iff, IHa, IHb. split.
    + intros [H | H]; [apply MAltL | apply MAltR]; exact H.
    + intros H. inversion H; subst; auto.
  - split; [constructor | reflexivity].
Qed.

(** A non-empty match of a star starts with a non-empty match of its body. *)
Lemma star_cons a c s :
  Matches ci (Star a) (c :: s) ->
  exists u v, s = u ++ v /\ Matches ci a (c :: u) /\ Matches ci (Star a) v.
Proof.
  intros H. remember (Star a) as r eqn:Hr. remember (c :: s) as w eqn:Hw.
  revert a c s Hr Hw.
  induction H as [| | | | | | r | r u v Hu _ Hv IHv];
    intros a0 c0 s0 Hr Hw; try discriminate.
  injection Hr as ->. destruct u as [|x u].
  - apply (IHv a0 c0 s0 eq_refl Hw).
  - injection Hw as -> <-. exists u, v. auto.
Qed.

Lemma deriv_Matches r : forall c s,
  Matches ci (deriv ci c r) s <-> Matches ci r (c :: s).
Proof.
  induction r as [| | ranges | | a IHa b IHb | a IHa b IHb | a IHa];
    intros c s; cbn [deriv].
  - split; intros H; inversion H.
  - split; intros H; inversion H.
  - destruct (inClass ci ranges c) eqn:Hc; split; intros H.
    + inversion H; subst. constructor. exact Hc.
    + inversion H; subst. constructor.
    + inversion H.
    + inversion H; subst. congruence.
  - destruct (lineTerminator c) eqn:Hc; split; intros H.
    + inversion H.
    + inversion H; subst. congruence.
    + inversion H; subst. constructor. exact Hc.
    + inversion H; subst. constructor.
  - assert (Hhead : Matches ci (seq' (deriv ci c a) b) s
                    <-> exists u v, s = u ++ v /\ Matches ci a (c :: u)
                                    /\ Matches ci b v).
    { rewrite seq'_Seq. split.
      - intros H. inversion H; subst. do 2 eexists.
        split; [reflexivity|]. split; [apply IHa|]; assumption.
      - intros [u [v [-> [Hu Hv]]]]. constructor; [apply IHa|]; assumption. }
    assert (Hsplit : Matches ci (Seq a b) (c :: s)
                     <-> (exists u v, s = u ++ v /\ Matches ci a (c :: u)
                                      /\ Matches ci b v)
                         \/ (Matches ci a [] /\ Matches ci b (c :: s))).
    { split.
      - intros H. inversion H as [| | |r' s' u v Hu Hv Hr Hs| | | |]; subst.
        destruct u as [|x u].
        + right. simpl in Hs. subst. auto.
        + left. simpl in Hs. injection Hs as -> <-. eauto.
      - intros [[u [v [-> [Hu Hv]]]] | [Ha Hb]].
        + change (c :: u ++ v) with ((c :: u) ++ v). constructor; assumption.
        + change (c :: s) with ([] ++ c :: s). constructor; assumption. }
    rewrite Hsplit. destruct (nullable a) eqn:Hn.
    + rewrite alt'_Alt. split.
      * intros H. inversion H; subst.
        -- left. apply Hhead. assumption.
        -- right. split; [apply nullable_Matches, Hn | apply IHb; assumption].
      * intros [H | [_ H]].
        -- apply MAltL. apply Hhead. exact H.
        -- apply MAltR. apply IHb. exact H.
    + rewrite Hhead. split; [tauto|]. intros [H | [H _]]; [exact H|].
      apply nullable_Matches in H. congruence.
  - rewrite alt'_Alt. split; intros H; inversion H; subst.
    + apply MAltL, IHa. assumption.
    + apply MAltR, IHb. assumption.
    + apply MAltL, IHa. assumption.
    + apply MAltR, IHb. assumption.
  - rewrite seq'_Seq. split.
    + intros H. inversion H; subst.
      change (c :: u ++ v) with ((c :: u) ++ v).
      constructor; [apply IHa|]; assumption.
    + intros H. destruct (star_cons H) as [u [v [-> [Hu Hv]]]].
      constructor; [apply IHa|]; assumption.
Qed.

Lemma fullMatch_Matches s : forall r,
  fullMatch ci r s = true <-> Matches ci r s.
Proof.
  induction s as [|c s IH]; intros r; cbn [fullMatch].
  - apply nullable_Matches.
  - destruct (isVoid r) eqn:Hv.
    + split; [discriminate|]. intros H. destruct (isVoid_empty Hv H).
    + rewrite IH. apply deriv_Matches.
Qed.

Lemma prefixMatch_Matches s : forall r,
  prefixMatch ci r s = true
  <-> exists u rest, s = u ++ rest /\ Matches ci r u.
Proof.
  induction s as [|c s IH]; intros r.
  - cbn [prefixMatch]. rewrite orb_false_r, nullable_Matches. split.
    + intros H. exists [], []. auto.
    + intros [u [rest [Heq H]]]. symmetry in Heq.
      apply app_eq_nil in Heq. destruct Heq as [-> _]. exact H.
  - change (prefixMatch ci r (c :: s))
      with (nullable r
            || (if isVoid r then false else prefixMatch ci (deriv ci c r) s)).
    rewrite orb_true_iff, nullable_Matches. split.
    + intros [H | H].
      * exists [], (c :: s). auto.
      * destruct (isVoid r); [discriminate|].
        apply IH in H. destruct H as [u [rest [-> H]]].
        exists (c :: u), rest. split; [reflexivity|].
        apply deriv_Matches. exact H.
    + intros [[|x u] [rest [Heq H]]]; [left; exact H|].
      right. injection Heq as <- ->.
      destruct (isVoid r) eqn:Hv; [destruct (isVoid_empty Hv H)|].
      apply IH. exists u, rest. split; [reflexivity|].
      apply deriv_Matches. exact H.
Qed.

Theorem test_Matches r s :
  test ci r s = true
  <-> exists before m after, s = before ++ m ++ after /\ Matches ci r m.
Proof.
  induction s as [|c s IH].
  - cbn [test]. rewrite orb_false_r, prefixMatch_Matches. split.
    + intros [u [rest [Heq H]]]. exists [], u, rest. auto.
    + intros [[|x before] [m [after [Heq H]]]]; [|discriminate].
      exists m, after. auto.
  - change (test ci r (c :: s))
      with (prefixMatch ci r (c :: s) || test ci r s).
    rewrite orb_true_iff, prefixMatch_Matches, IH. split.
    + intros [[u [rest [Heq H]]] | [before [m [after [Heq H]]]]].
      * exists [], u, rest. auto.
      * exists (c :: before), m, after. subst. auto.
    + intros [[|x before] [m [after [Heq H]]]].
      * left. exists m, after. auto.
      * right. injection Heq as <- ->. exists before, m, after. auto.
Qed.

Lemma prefixThenAhead_Matches a s : forall r,
  prefixThenAhead ci r a s = true
  <-> exists u rest, s = u ++ rest /\ Matches ci r u
                     /\ prefixMatch ci a rest = true.
Proof.
  induction s as [|c s IH]; intros r.
  - cbn [prefixThenAhead]. rewrite orb_false_r, andb_true_iff,
      nullable_Matches. split.
    + intros [H Ha]. exists [], []. auto.
    + intros [u [rest [Heq [H Ha]]]]. symmetry in Heq.
      apply app_eq_nil in Heq. destruct Heq as [-> ->]. auto.
  - change (prefixThenAhead ci r a (c :: s))
      with ((nullable r && prefixMatch ci a (c :: s))
            || (if isVoid r then false
                else prefixThenAhead ci (deriv ci c r) a s)).
    rewrite orb_true_iff, andb_true_iff, nullable_Matches. split.
    + intros [[H Ha] | H].
      * exists [], (c :: s). auto.
      * destruct (isVoid r); [discriminate|].
        apply IH in H. destruct H as [u [rest [-> [H Ha]]]].
        exists (c :: u), rest. split; [reflexivity|].
        split; [apply deriv_Matches; exact H | exact Ha].
    + intros [[|x u] [rest [Heq [H Ha]]]].
      * left. simpl in Heq. subst. auto.
      * right. injection Heq as <- ->.
        destruct (isVoid r) eqn:Hv; [destruct (isVoid_empty Hv H)|].
        apply IH. exists u, rest. split; [reflexivity|].
        split; [apply deriv_Matches; exact H | exact Ha].
Qed.

Theorem testAhead_Matches r a s :
  testAhead ci r a s = true
  <-> exists before m after,
        s = before ++ m ++ after /\ Matches ci r m
        /\ exists w rest, after = w ++ rest /\ Matches ci a w.
Proof.
  induction s as [|c s IH].
  - cbn [testAhead]. rewrite orb_false_r, prefixThenAhead_Matches. split.
    + intros [u [rest [Heq [H Ha]]]]. apply prefixMatch_Matches in Ha.
      exists [], u, rest. auto.
    + intros [[|x before] [m [after [Heq [H Ha]]]]]; [|discriminate].
      apply prefixMatch_Matches in Ha. exists m, after. auto.
  - change (testAhead ci r a (c :: s))
      with (prefixThenAhead ci r a (c :: s) || testAhead ci r a s).
    rewrite orb_true_iff, prefixThenAhead_Matches, IH. split.
    + intros [[u [rest [Heq [H Ha]]]] | [before [m [after [Heq H]]]]].
      * apply prefixMatch_Matches in Ha. exists [], u, rest. auto.
      * exists (c :: before), m, after. subst. auto.
    + intros [[|x before] [m [after [Heq [H Ha]]]]].
      * left. apply prefixMatch_Matches in Ha. exists m, after. auto.
      * right. injection Heq as <- ->. exists before, m, after. auto.
Qed.

End Semantics.

End RegexFacts.

(** ** [levenshteinDistance] against the recurrence *)

Module LevenshteinFacts.

Import CheckEmail.

Lemma editRec_nil_l t : editRec [] t = len t.
Proof. destruct t; reflexivity. Qed.

Lemma editRec_nil_r s : editRec s [] = len s.
Proof. destruct s; reflexivity. Qed.

Lemma editRec_cons a s b t :
  editRec (a :: s) (b :: t)
  = Z.min (Z.min (editRec s (b :: t) + 1) (editRec (a :: s) t + 1))
          (editRec s t + (if N.eqb a b then 0 else 1)).
Proof. reflexivity. Qed.

Lemma editDistance_nil_r p : editDistance p [] = len p.
Proof.
  unfold editDistance. simpl. rewrite editRec_nil_r.
  unfold len. rewrite length_rev. reflexivity.
Qed.

Lemma editDistance_nil_l q : editDistance [] q = len q.
Proof.
  unfold editDistance. simpl. rewrite editRec_nil_l.
  unfold len. rewrite length_rev. reflexivity.
Qed.

Lemma editDistance_snoc p a q b :
  editDistance (p ++ [a]) (q ++ [b])
  = Z.min (Z.min (editDistance p (q ++ [b]) + 1)
                 (editDistance (p ++ [a]) q + 1))
          (editDistance p q + (if N.eqb a b then 0 else 1)).
Proof.
  unfold editDistance. rewrite !rev_unit. apply editRec_cons.
Qed.

Lemma fillRow_cells c2 q rest : forall p,
  fillRow c2 rest (editDistance p (q ++ [c2])) (editDistance p q)
          (cells p rest q)
  = cells p rest (q ++ [c2]).
Proof.
  induction rest as [|c1 rest IH]; intros p; cbn [fillRow cells];
    [reflexivity|].
  rewrite <- editDistance_snoc. rewrite IH. reflexivity.
Qed.

Lemma nextRow_row str1 q c2 :
  nextRow str1 (len q + 1) c2 (row str1 q) = row str1 (q ++ [c2]).
Proof.
  unfold nextRow, row.
  replace (len q + 1)%Z with (editDistance [] (q ++ [c2])).
  - rewrite fillRow_cells. reflexivity.
  - rewrite editDistance_nil_l. unfold len. rewrite length_app. simpl. lia.
Qed.

Lemma rows_row str1 str2 : forall q,
  rows str1 (len q + 1) str2 (row str1 q) = row str1 (q ++ str2).
Proof.
  induction str2 as [|c2 str2 IH]; intros q; cbn [rows].
  - rewrite app_nil_r. reflexivity.
  - rewrite nextRow_row.
    replace (len q + 1 + 1)%Z with (len (q ++ [c2]) + 1)%Z
      by (unfold len; rewrite length_app; simpl; lia).
    rewrite IH, <- app_assoc. reflexivity.
Qed.

Lemma row0 rest : forall p,
  map Z.of_nat (seq (S (List.length p)) (List.length rest)) = cells p rest [].
Proof.
  induction rest as [|c rest IH]; intros p; cbn [List.length seq map cells];
    [reflexivity|].
  rewrite editDistance_nil_r. unfold len at 1. rewrite length_app.
  cbn [List.length]. rewrite Nat.add_1_r. f_equal.
  rewrite <- IH. rewrite length_app. cbn [List.length].
  rewrite Nat.add_1_r. reflexivity.
Qed.

Lemma last_cells rest : forall p q d,
  last (editDistance p q :: cells p rest q) d = editDistance (p ++ rest) q.
Proof.
  induction rest as [|c rest IH]; intros p q d.
  - rewrite app_nil_r. reflexivity.
  - cbn [cells].
    change (last (editDistance p q :: editDistance (p ++ [c]) q
                    :: cells (p ++ [c]) rest q) d)
      with (last (editDistance (p ++ [c]) q :: cells (p ++ [c]) rest q) d).
    rewrite IH, <- app_assoc. reflexivity.
Qed.

(** The matrix computes the edit distance. *)
Theorem levenshteinDistance_editDistance str1 str2 :
  levenshteinDistance str1 str2 = editDistance str1 str2.
Proof.
  unfold levenshteinDistance.
  assert (H0 : map Z.of_nat (seq 0 (S (List.length str1))) = row str1 []).
  { unfold row. pose proof (row0 str1 []) as Hr. cbn [List.length] in Hr.
    cbn [seq map]. rewrite Hr. reflexivity. }
  rewrite H0.
  pose proof (rows_row str1 str2 []) as H. cbn in H. rewrite H.
  unfold row. apply last_cells.
Qed.

Lemma editRec_nonneg s : forall t, (0 <= editRec s t)%Z.
Proof.
  induction s as [|a s IHs]; intros t.
  - rewrite editRec_nil_l. unfold len. lia.
  - induction t as [|b t IHt].
    + rewrite editRec_nil_r. unfold len. lia.
    + rewrite editRec_cons.
      pose proof (IHs (b :: t)). pose proof (IHs t).
      destruct (N.eqb a b); lia.
Qed.

Lemma editRec_zero s : forall t, editRec s t = 0%Z <-> s = t.
Proof.
  induction s as [|a s IHs]; intros t.
  - rewrite editRec_nil_l. unfold len.
    destruct t; simpl; split; try congruence; lia.
  - destruct t as [|b t].
    + rewrite editRec_nil_r. unfold len. simpl. split; [lia | discriminate].
    + rewrite editRec_cons.
      pose proof (editRec_nonneg s (b :: t)) as Hdel.
      pose proof (editRec_nonneg (a :: s) t) as Hins.
      pose proof (editRec_nonneg s t) as Hsub.
      destruct (N.eqb a b) eqn:Hab.
      * apply N.eqb_eq in Hab. subst b. split.
        -- intros Hzero. assert (Hst : editRec s t = 0%Z) by lia.
           apply IHs in Hst. congruence.
        -- intros Heq. injection Heq as <-.
           assert (Hst : editRec s s = 0%Z) by (apply IHs; reflexivity).
           lia.
      * apply N.eqb_neq in Hab. split; [lia | congruence].
Qed.

(** The distance is zero exactly between equal strings, so a distance of
    1 or 2 is a near miss. *)
Lemma levenshteinDistance_zero str1 str2 :
  levenshteinDistance str1 str2 = 0%Z <-> str1 = str2.
Proof.
  rewrite levenshteinDistance_editDistance. unfold editDistance.
  rewrite editRec_zero. split; [|congruence].
  intros H. apply (f_equal (@rev N)) in H.
  rewrite !rev_involutive in H. exact H.
Qed.

End LevenshteinFacts.

(** ** The accumulation loop shared by both scorers *)

Section ScoringFacts.

Variable Rule : Type.
Implicit Types (fs : list (Indicator Rule)) (i : Indicator Rule).

Lemma fold_emit fs : forall (st : Acc),
  fold_left (@emit Rule) fs st
  = (fst st ++ map (@description Rule) fs, (snd st + totalWeight fs)%Z).
Proof.
  induction fs as [|i fs IH]; intros [ds n]; simpl.
  - rewrite app_nil_r, Z.add_0_r. reflexivity.
  - rewrite IH. simpl. unfold totalWeight. simpl.
    rewrite <- app_assoc, Z.add_assoc. reflexivity.
Qed.

(** After the loop, [indicators] holds the descriptions in firing order
    and the score is the sum of the weights. *)
Lemma runRules_eq fs :
  runRules fs = (map (@description Rule) fs, totalWeight fs).
Proof. unfold runRules. rewrite fold_emit. reflexivity. Qed.

Lemma totalWeight_nonneg fs : Forall (@nonneg Rule) fs -> (0 <= totalWeight fs)%Z.
Proof.
  unfold totalWeight.
  induction 1 as [|i fs Hi _ IH]; simpl; [lia|]. unfold nonneg in Hi. lia.
Qed.

Lemma totalWeight_app fs gs :
  totalWeight (fs ++ gs) = (totalWeight fs + totalWeight gs)%Z.
Proof.
  unfold totalWeight. induction fs as [|i fs IH]; simpl; [reflexivity|].
  rewrite IH. lia.
Qed.

(** One firing bounds the sum from below when nothing is negative. *)
Lemma totalWeight_In fs i :
  Forall (@nonneg Rule) fs -> In i fs -> (weightContribution i <= totalWeight fs)%Z.
Proof.
  induction 1 as [|j fs Hj Hfs IH]; simpl; [tauto|].
  unfold totalWeight; simpl. fold (totalWeight fs).
  pose proof (totalWeight_nonneg Hfs). unfold nonneg in Hj.
  intros [-> | Hin]; [lia | specialize (IH Hin); lia].
Qed.

Lemma Forall_when (Q : Indicator Rule -> Prop) (b : bool) i :
  Q i -> Forall Q (when b i).
Proof. destruct b; simpl; auto. Qed.

Lemma Forall_flat_map {A} (Q : Indicator Rule -> Prop)
      (f : A -> list (Indicator Rule)) (l : list A) :
  (forall x, Forall Q (f x)) -> Forall Q (flat_map f l).
Proof.
  intros H. induction l as [|x l IH]; simpl; [constructor|].
  apply Forall_app; auto.
Qed.

Lemma filter_when (p : Indicator Rule -> bool) (b : bool) i :
  p i = false -> filter p (when b i) = [].
Proof. destruct b; simpl; [intros ->|]; reflexivity. Qed.

Lemma filter_flat_map_nil {A} (p : Indicator Rule -> bool)
      (f : A -> list (Indicator Rule)) (l : list A) :
  (forall x, filter p (f x) = []) -> filter p (flat_map f l) = [].
Proof.
  intros H. induction l as [|x l IH]; simpl; [reflexivity|].
  rewrite filter_app, H, IH. reflexivity.
Qed.

End ScoringFacts.

(** Splits a goal [Forall Q (r1 ++ r2 ++ ...)] over the firings of a
    scorer into one goal per firing, and closes each with [tac]. *)
Ltac each_firing tac :=
  repeat first
    [ apply Forall_nil
    | apply Forall_app; split
    | apply Forall_when; tac
    | apply Forall_cons; [tac|] ].

Ltac weight_nonneg :=
  cbv [nonneg weightContribution CheckEmail.ind CheckUrl.ind]; lia.

(** ** The e-mail scorer *)

Module EmailFacts.

Import CheckEmail StrFacts.

Lemma typosquattingLoop_nonneg domain baseDomain entries :
  Forall (@nonneg Rule) (typosquattingLoop domain baseDomain entries).
Proof.
  induction entries as [|[legitimate typos] rest IH];
    cbn [typosquattingLoop]; [constructor|].
  match goal with |- context [if ?c then _ else _] => destruct c end;
    each_firing weight_nonneg; assumption.
Qed.

Lemma keyboardLoop_nonneg baseDomain entries :
  Forall (@nonneg Rule) (keyboardLoop baseDomain entries).
Proof.
  induction entries as [|[legitimate typos] rest IH];
    cbn [keyboardLoop]; [constructor|].
  match goal with |- context [if ?c then _ else _] => destruct c end;
    each_firing weight_nonneg; assumption.
Qed.

Lemma comboRule_nonneg domain : Forall (@nonneg Rule) (comboRule domain).
Proof. apply Forall_flat_map; intros x; each_firing weight_nonneg. Qed.

Lemma substitutionRule_nonneg b :
  Forall (@nonneg Rule) (substitutionRule b).
Proof.
  apply Forall_flat_map; intros [[pattern char] example];
    each_firing weight_nonneg.
Qed.

Lemma homoglyphDomainRule_nonneg d :
  Forall (@nonneg Rule) (homoglyphDomainRule d).
Proof. apply Forall_flat_map; intros x; each_firing weight_nonneg. Qed.

Lemma keywordRule_nonneg u : Forall (@nonneg Rule) (keywordRule u).
Proof. unfold keywordRule. each_firing weight_nonneg. Qed.

Lemma becRule_nonneg e : Forall (@nonneg Rule) (becRule e).
Proof.
  unfold becRule, BECPatterns. cbn [flat_map].
  each_firing weight_nonneg.
Qed.

Lemma randomnessRules_nonneg e : Forall (@nonneg Rule) (randomnessRules e).
Proof.
  unfold randomnessRules.
  destruct (firstDigitRun e), (firstRepeat e); each_firing weight_nonneg.
Qed.

Lemma suffixRule_nonneg d : Forall (@nonneg Rule) (suffixRule d).
Proof.
  unfold suffixRule.
  match goal with |- context [find ?f ?l] => destruct (find f l) end;
    each_firing weight_nonneg.
Qed.

Lemma expiredRule_nonneg d : Forall (@nonneg Rule) (expiredRule d).
Proof. apply Forall_flat_map; intros x; each_firing weight_nonneg. Qed.

Create HintDb firings.

#[local] Hint Resolve typosquattingLoop_nonneg keyboardLoop_nonneg
  comboRule_nonneg substitutionRule_nonneg homoglyphDomainRule_nonneg
  keywordRule_nonneg becRule_nonneg randomnessRules_nonneg
  suffixRule_nonneg expiredRule_nonneg : firings.

(** No rule of the e-mail scorer subtracts from the score. *)
Lemma ruleFirings_nonneg {P : Platform} email username domain :
  Forall (@nonneg Rule) (ruleFirings email username domain).
Proof.
  unfold ruleFirings. cbv zeta.
  repeat (apply Forall_app; split);
    try (apply Forall_when; weight_nonneg);
    auto with firings;
    match goal with
    | |- Forall _ (match ?x with _ => _ end) =>
        destruct x; each_firing weight_nonneg
    end.
Qed.

Lemma firedIndicators_nonneg {P : Platform} email :
  Forall (@nonneg Rule) (firedIndicators email).
Proof.
  unfold firedIndicators. destruct (emailParts email) as [[u d]|].
  - apply ruleFirings_nonneg.
  - each_firing weight_nonneg.
Qed.

(** The result of the scorer in terms of the firings. *)
Lemma performLocalSpamDetection_scored {P : Platform} email username domain :
  emailParts email = Some (username, domain) ->
  let fs := ruleFirings email username domain in
  let r := performLocalSpamDetection email in
  indicators r = map (@description Rule) fs
  /\ spamScore r = Z.min (totalWeight fs) 100.
Proof.
  intros Hparts. cbv zeta. unfold performLocalSpamDetection.
  rewrite Hparts, runRules_eq. split; reflexivity.
Qed.

(** From 35 on the band is not [safe]. *)
Lemma not_safe_from_35 {P : Platform} email :
  (35 <= spamScore (performLocalSpamDetection email))%Z ->
  riskLevel (performLocalSpamDetection email) <> Safe.
Proof.
  unfold performLocalSpamDetection.
  destruct (emailParts email) as [[username domain]|]; [|discriminate].
  destruct (runRules _) as [indicators raw].
  cbn [spamScore riskLevel]. intros H35.
  destruct (65 <=? Z.min raw 100)%Z; [discriminate|].
  destruct (35 <=? Z.min raw 100)%Z eqn:Hlow; [discriminate|].
  apply Z.leb_gt in Hlow. lia.
Qed.

(** *** The fuzzy rule inside the loop over the brands *)

Lemma typosquattingLoop_fuzzy domain baseDomain entries :
  filter isFuzzy (typosquattingLoop domain baseDomain entries)
  = match find (fuzzyHit baseDomain) entries with
    | Some entry => [fuzzyIndicator baseDomain entry]
    | None => []
    end.
Proof.
  induction entries as [|[legitimate typos] rest IH];
    cbn [typosquattingLoop find]; [reflexivity|].
  unfold fuzzyHit at 1. cbn [fst].
  match goal with |- context [if ?c then _ else _] => destruct c end.
  - rewrite filter_app, filter_when by reflexivity. reflexivity.
  - rewrite filter_app, filter_when by reflexivity. exact IH.
Qed.

Lemma keyboardLoop_fuzzy baseDomain entries :
  filter isFuzzy (keyboardLoop baseDomain entries) = [].
Proof.
  induction entries as [|[legitimate typos] rest IH];
    cbn [keyboardLoop]; [reflexivity|].
  match goal with |- context [if ?c then _ else _] => destruct c end;
    [reflexivity | exact IH].
Qed.

Lemma flat_when_fuzzy {A} (f : A -> list (Indicator Rule)) (l : list A) :
  (forall x, exists b i, f x = when b i /\ isFuzzy i = false) ->
  filter isFuzzy (flat_map f l) = [].
Proof.
  intros H. apply filter_flat_map_nil. intros x.
  destruct (H x) as [b [i [-> Hi]]]. apply filter_when, Hi.
Qed.

(** Only the loop over the brands pushes fuzzy indicators. *)
Lemma ruleFirings_fuzzy {P : Platform} email username domain :
  filter isFuzzy (ruleFirings email username domain)
  = filter isFuzzy
      (typosquattingLoop domain
         (join [DOT] (lastN 2 (split DOT domain))) trustedBrands).
Proof.
  unfold ruleFirings. cbv zeta.
  repeat rewrite filter_app.
  repeat rewrite filter_when by reflexivity.
  rewrite keyboardLoop_fuzzy.
  unfold comboRule, substitutionRule, homoglyphDomainRule, becRule,
    expiredRule.
  repeat rewrite flat_when_fuzzy.
  - unfold keywordRule, randomnessRules, suffixRule.
    rewrite filter_when by reflexivity.
    destruct (firstDigitRun email), (firstRepeat email);
      match goal with |- context [find ?f ?l] => destruct (find f l) end;
      cbn [app filter isFuzzy rule ind]; rewrite ?app_nil_r; reflexivity.
  - intros x; eauto.
  - intros [[pattern score] name]; eauto.
  - intros x; eauto.
  - intros [[pattern char] example]; eauto.
  - intros x; eauto.
Qed.

(** *** The fuzzy rule in the texts of the result *)

Lemma filter_agrees (l : list (Indicator Rule)) :
  Forall textAgrees l ->
  filter isFuzzyText (map (@description Rule) l)
  = map (@description Rule) (filter isFuzzy l).
Proof.
  induction 1 as [|i l Hi _ IH]; [reflexivity|].
  cbn [map filter]. rewrite Hi, IH. destruct (isFuzzy i); reflexivity.
Qed.

Ltac text_agrees := unfold textAgrees; vm_compute; reflexivity.

Lemma typosquattingLoop_agrees domain baseDomain entries :
  Forall textAgrees (typosquattingLoop domain baseDomain entries).
Proof.
  induction entries as [|[legitimate typos] rest IH];
    cbn [typosquattingLoop]; [constructor|].
  match goal with |- context [if ?c then _ else _] => destruct c end;
    each_firing text_agrees; assumption.
Qed.

Lemma keyboardLoop_agrees baseDomain entries :
  Forall textAgrees (keyboardLoop baseDomain entries).
Proof.
  induction entries as [|[legitimate typos] rest IH];
    cbn [keyboardLoop]; [constructor|].
  match goal with |- context [if ?c then _ else _] => destruct c end;
    each_firing text_agrees; assumption.
Qed.

Lemma ruleFirings_agrees {P : Platform} email username domain :
  Forall textAgrees (ruleFirings email username domain).
Proof.
  unfold ruleFirings. cbv zeta.
  repeat first
    [ apply typosquattingLoop_agrees
    | apply keyboardLoop_agrees
    | apply Forall_nil
    | apply Forall_when; text_agrees
    | apply Forall_cons; [text_agrees|]
    | apply Forall_flat_map; intros ?
    | apply Forall_app; split
    | match goal with
      | |- Forall _ (match ?x with _ => _ end) => destruct x
      end
    | progress unfold suffixRule, keywordRule, randomnessRules, comboRule,
        substitutionRule, becRule, expiredRule, homoglyphDomainRule ].
Qed.

End EmailFacts.

(** ** The URL scorer *)

Module UrlFacts.

Import CheckUrl StrFacts.

Lemma brandRule_nonneg domain : Forall (@nonneg Rule) (brandRule domain).
Proof. apply Forall_flat_map; intros x; each_firing weight_nonneg. Qed.

(** No rule of the URL scorer subtracts from the score. *)
Lemma url_ruleFirings_nonneg {P : Platform} url urlObj :
  Forall (@nonneg Rule) (ruleFirings url urlObj).
Proof.
  unfold ruleFirings. cbv zeta.
  repeat first [ apply brandRule_nonneg
               | apply Forall_when; weight_nonneg
               | apply Forall_app; split ].
Qed.

Lemma url_firedIndicators_nonneg {P : Platform} url :
  Forall (@nonneg Rule) (firedIndicators url).
Proof.
  unfold firedIndicators. destruct (parseURL url).
  - apply url_ruleFirings_nonneg.
  - each_firing weight_nonneg.
Qed.

(** The result of the scorer in terms of the firings. *)
Lemma performLocalURLAnalysis_scored {P : Platform} url urlObj :
  parseURL url = Some urlObj ->
  let fs := ruleFirings url urlObj in
  let r := performLocalURLAnalysis url in
  indicators r = map (@description Rule) fs
  /\ riskScore r = Z.min (totalWeight fs) 100.
Proof.
  intros Hparse. cbv zeta. unfold performLocalURLAnalysis, tryBlock.
  rewrite Hparse, runRules_eq. split; reflexivity.
Qed.


End UrlFacts.

(** ** Claims on the two local scorers *)

(** C2. The risk band is a function of the normalised score.  E-mail:
    [invalid] from 65, else [risky] from 35, else [safe], and [isSpam]
    exactly above 35.  URL: [dangerous] from 60, else [suspicious] from
    30, else [safe], and [isSafe] exactly below 30.  This holds for every
    input string, the two early results included. *)
Theorem risk_band_from_score (P : Platform) :
  (forall email : jsstring,
     let r := CheckEmail.performLocalSpamDetection email in
     CheckEmail.riskLevel r
     = (if (65 <=? CheckEmail.spamScore r)%Z then CheckEmail.Invalid
        else if (35 <=? CheckEmail.spamScore r)%Z then CheckEmail.Risky
             else CheckEmail.Safe)
     /\ CheckEmail.isSpam r = (35 <? CheckEmail.spamScore r)%Z)
  /\
  (forall url : jsstring,
     let r := CheckUrl.performLocalURLAnalysis url in
     CheckUrl.riskLevel r
     = (if (60 <=? CheckUrl.riskScore r)%Z then CheckUrl.Dangerous
        else if (30 <=? CheckUrl.riskScore r)%Z then CheckUrl.Suspicious
             else CheckUrl.Safe)
     /\ CheckUrl.isSafe r = (CheckUrl.riskScore r <? 30)%Z).
Proof.
  split.
  - intros email. cbv zeta. unfold CheckEmail.performLocalSpamDetection.
    destruct (CheckEmail.emailParts email) as [[username domain]|].
    + destruct (runRules _) as [indicators raw].
      cbn [CheckEmail.riskLevel CheckEmail.spamScore CheckEmail.isSpam].
      split; [|reflexivity].
      destruct (65 <=? Z.min raw 100)%Z eqn:H65;
        destruct (35 <=? Z.min raw 100)%Z eqn:H35; try reflexivity.
    + split; reflexivity.
  - intros url. cbv zeta. unfold CheckUrl.performLocalURLAnalysis,
      CheckUrl.tryBlock.
    destruct (parseURL url) as [urlObj|].
    + destruct (runRules _) as [indicators raw].
      cbn [CheckUrl.riskLevel CheckUrl.riskScore CheckUrl.isSafe].
      split; [|reflexivity].
      destruct (60 <=? Z.min raw 100)%Z eqn:H60;
        destruct (30 <=? Z.min raw 100)%Z eqn:H30; try reflexivity.
    + split; reflexivity.
Qed.

(** C3. In both scorers the normalised score is the smaller of 100 and
    the sum of the weights of the fired indicators, and so lies between 0
    and 100; the indicator list of the result is the list of the fired
    indicators in firing order.  In the two early results (format check,
    parse failure) the one indicator counts with the score 100 that is
    returned with it. *)
Theorem normalized_score_is_capped_sum (P : Platform) :
  (forall email : jsstring,
     let r := CheckEmail.performLocalSpamDetection email in
     let fired := CheckEmail.firedIndicators email in
     CheckEmail.spamScore r = Z.min (totalWeight fired) 100
     /\ (0 <= CheckEmail.spamScore r <= 100)%Z
     /\ CheckEmail.indicators r = map (@description _) fired)
  /\
  (forall url : jsstring,
     let r := CheckUrl.performLocalURLAnalysis url in
     let fired := CheckUrl.firedIndicators url in
     CheckUrl.riskScore r = Z.min (totalWeight fired) 100
     /\ (0 <= CheckUrl.riskScore r <= 100)%Z
     /\ CheckUrl.indicators r = map (@description _) fired).
Proof.
  split.
  - intros email. cbv zeta.
    pose proof (EmailFacts.firedIndicators_nonneg email) as Hnn.
    apply totalWeight_nonneg in Hnn. revert Hnn.
    unfold CheckEmail.firedIndicators, CheckEmail.performLocalSpamDetection.
    destruct (CheckEmail.emailParts email) as [[username domain]|].
    + rewrite runRules_eq.
      cbn [CheckEmail.spamScore CheckEmail.indicators]. intros Hnn.
      repeat split; lia.
    + intros _. cbn. repeat split; lia.
  - intros url. cbv zeta.
    pose proof (UrlFacts.url_firedIndicators_nonneg url) as Hnn.
    apply totalWeight_nonneg in Hnn. revert Hnn.
    unfold CheckUrl.firedIndicators, CheckUrl.performLocalURLAnalysis,
      CheckUrl.tryBlock.
    destruct (parseURL url) as [urlObj|].
    + rewrite runRules_eq.
      cbn [CheckUrl.riskScore CheckUrl.indicators]. intros Hnn.
      repeat split; lia.
    + intros _. cbn. repeat split; lia.
Qed.

(** ** The early return of the e-mail scorer *)

Module SplitFacts.

Import CheckEmail StrFacts.

(** With exactly one [@], the first two pieces of [split("@")] are the
    two sides of the last [@]. *)
Lemma countUnit_cons (c x : N) (s : jsstring) :
  countUnit c (x :: s)
  = if N.eqb x c then S (countUnit c s) else countUnit c s.
Proof.
  unfold countUnit. cbn [filter]. rewrite (N.eqb_sym c x).
  destruct (N.eqb x c); reflexivity.
Qed.

Lemma splitAtLast_none (s : jsstring) :
  countUnit AT s = 0 -> splitAtLast s = None.
Proof.
  induction s as [|c s IH]; [reflexivity|].
  rewrite countUnit_cons. cbn [splitAtLast].
  destruct (N.eqb c AT); [discriminate|].
  intros H. rewrite (IH H). reflexivity.
Qed.

Lemma single_at (s : jsstring) :
  countUnit AT s = 1 ->
  splitAtLast s = Some (hd [] (split AT s), nth 1 (split AT s) []).
Proof.
  induction s as [|c s IH]; [discriminate|].
  rewrite countUnit_cons. cbn [splitAtLast split].
  destruct (N.eqb c AT) eqn:Hc.
  - intros H. injection H as H.
    rewrite (splitAtLast_none _ H), (split_without _ _ H). reflexivity.
  - intros H. rewrite (IH H).
    pose proof (split_nonempty AT s) as Hne.
    destruct (split AT s) as [|p ps]; [congruence|]. reflexivity.
Qed.

(** The condition of the early return, on the pieces of the split. *)
Lemma emailParts_none {P : Platform} (email : jsstring) :
  let pieces := split AT (toLowerCase email) in
  emailParts email = None <-> (hd [] pieces = [] \/ nth 1 pieces [] = []).
Proof.
  cbv zeta. unfold emailParts.
  destruct (split AT (toLowerCase email)) as [|u [|d rest]]; simpl.
  - tauto.
  - tauto.
  - destruct (eqb u []) eqn:Hu; simpl.
    + apply eqb_eq in Hu. tauto.
    + apply eqb_neq in Hu. destruct (eqb d []) eqn:Hd.
      * apply eqb_eq in Hd. tauto.
      * apply eqb_neq in Hd. split; [discriminate | tauto].
Qed.

End SplitFacts.

(** C5, as stated, fails.  For [a@b@] the part after the last [@] is
    empty, yet the scorer takes [a] and [b] as local part and domain, runs
    its rules and answers a safe result of score 20. *)
Lemma last_at_split_counterexample :
  let email := js "a@b@" in
  let r := CheckEmail.performLocalSpamDetection (P := Fixtures.platform) email in
  splitAtLast (asciiLower email) = Some (js "a@b", [])
  /\ r <> CheckEmail.invalidFormat email
  /\ CheckEmail.spamScore r = 20%Z
  /\ CheckEmail.riskLevel r = CheckEmail.Safe
  /\ CheckEmail.isSpam r = false
  /\ CheckEmail.indicators r
     = [js "Extremely short username (typically invalid)"].
Proof.
  cbv zeta. repeat split; try (vm_compute; reflexivity).
  intros H. apply (f_equal CheckEmail.spamScore) in H.
  vm_compute in H. discriminate H.
Qed.

(** C5, amended.  The scorer splits the lower-cased input at every [@]
    and takes the first two pieces as local part and domain, which are the
    two sides of the last [@] when there is exactly one [@].  Whenever the
    first piece is empty or the second is missing or empty it returns,
    before any rule, the result of score 100, band [invalid], [isSpam]
    true, with the single indicator "Invalid email format"; otherwise the
    rules run on these two pieces. *)
Theorem format_short_circuit (P : Platform) (email : jsstring) :
  let pieces := split AT (toLowerCase email) in
  let r := CheckEmail.performLocalSpamDetection email in
  ((hd [] pieces = [] \/ nth 1 pieces [] = []) ->
     r = CheckEmail.invalidFormat email
     /\ CheckEmail.spamScore r = 100%Z
     /\ CheckEmail.riskLevel r = CheckEmail.Invalid
     /\ CheckEmail.isSpam r = true
     /\ CheckEmail.indicators r = [js "Invalid email format"])
  /\ (~ (hd [] pieces = [] \/ nth 1 pieces [] = []) ->
        CheckEmail.indicators r
        = map (@description _)
              (CheckEmail.ruleFirings email (hd [] pieces) (nth 1 pieces [])))
  /\ (countUnit AT (toLowerCase email) = 1 ->
        splitAtLast (toLowerCase email)
        = Some (hd [] pieces, nth 1 pieces [])).
Proof.
  cbv zeta. split; [|split].
  - intros Hempty. apply SplitFacts.emailParts_none in Hempty.
    unfold CheckEmail.performLocalSpamDetection. rewrite Hempty.
    repeat split.
  - intros Hfull.
    destruct (CheckEmail.emailParts email) as [[u d]|] eqn:Hparts.
    + destruct (EmailFacts.performLocalSpamDetection_scored _ Hparts)
        as [Hind _].
      rewrite Hind. unfold CheckEmail.emailParts in Hparts.
      destruct (split AT (toLowerCase email)) as [|u' [|d' rest]];
        try discriminate.
      destruct (eqb u' [] || eqb d' []); [discriminate|].
      injection Hparts as -> ->. reflexivity.
    + apply SplitFacts.emailParts_none in Hparts. contradiction.
  - apply SplitFacts.single_at.
Qed.

(** The three parts of [format_short_circuit] on [a@@b.com] (second piece
    empty), [a@b@] (both pieces present) and [a@b.com] (one [@]). *)
Lemma format_short_circuit_witness :
  CheckEmail.performLocalSpamDetection (P := Fixtures.platform) (js "a@@b.com")
  = CheckEmail.invalidFormat (js "a@@b.com")
  /\ CheckEmail.indicators
       (CheckEmail.performLocalSpamDetection (P := Fixtures.platform)
          (js "a@b@"))
     = map (@description _)
           (CheckEmail.ruleFirings (P := Fixtures.platform)
              (js "a@b@") (js "a") (js "b"))
  /\ splitAtLast (js "a@b.com") = Some (js "a", js "b.com").
Proof.
  split; [|split].
  - apply (format_short_circuit Fixtures.platform (js "a@@b.com")).
    right. reflexivity.
  - apply (format_short_circuit Fixtures.platform (js "a@b@")).
    intros [H | H]; vm_compute in H; discriminate H.
  - apply (format_short_circuit Fixtures.platform (js "a@b.com")).
    reflexivity.
Defined.

(** ** The fuzzy brand match *)

(** C7.  For an address that passes the format check, with [name] the
    first label of its base domain: the fuzzy indicators in the result,
    the texts that start with "TYPOSQUATTING (fuzzy match): " behind the
    warning sign, are exactly the text for the first entry of
    [trustedBrands], in table order, whose name is at edit distance 1 or
    2 from [name], if [name] has at least 4 units and such an entry
    exists, and none otherwise.  So the rule fires exactly when some
    brand is that near, at most once, with weight 55, and its text is in
    the result; these texts are the texts of the fuzzy firings.  When it
    fires the local score is at least 55 and the band is not [safe].
    The distance is the edit distance of the recurrence, which
    [levenshteinDistance] computes.  For
    [support-id-7193@service.amason.com] the distance to [amazon] is 1,
    the result holds the one fuzzy text, for [amason] and [amazon], and
    score and band follow. *)
Theorem fuzzy_brand_match (P : Platform) :
  (forall email username domain : jsstring,
     CheckEmail.emailParts email = Some (username, domain) ->
     let baseDomain := join [DOT] (lastN 2 (split DOT domain)) in
     let name := CheckEmail.firstLabel baseDomain in
     let near (entry : jsstring * list jsstring) :=
       (1 <= CheckEmail.editDistance
               name (CheckEmail.firstLabel (fst entry)) <= 2)%Z
       /\ (4 <= len name)%Z in
     let r := CheckEmail.performLocalSpamDetection email in
     let fuzzy := filter CheckEmail.isFuzzyText (CheckEmail.indicators r) in
     (fuzzy <> [] <-> exists entry, In entry CheckEmail.trustedBrands
                                    /\ near entry)
     /\ (List.length fuzzy <= 1)%nat
     /\ (forall text, In text fuzzy ->
           exists before entry rest,
             CheckEmail.trustedBrands = before ++ entry :: rest
             /\ near entry
             /\ (forall e, In e before -> ~ near e)
             /\ text = description (CheckEmail.fuzzyIndicator baseDomain entry)
             /\ In (CheckEmail.fuzzyIndicator baseDomain entry)
                   (CheckEmail.firedIndicators email)
             /\ weightContribution
                  (CheckEmail.fuzzyIndicator baseDomain entry) = 55%Z)
     /\ fuzzy
        = map (@description _)
              (filter CheckEmail.isFuzzy (CheckEmail.firedIndicators email))
     /\ (fuzzy <> [] ->
           (55 <= CheckEmail.spamScore r)%Z
           /\ CheckEmail.riskLevel r <> CheckEmail.Safe))
  /\
  (let address := js "support-id-7193@service.amason.com" in
   let r := CheckEmail.performLocalSpamDetection address in
   toLowerCase address = address ->
   CheckEmail.editDistance (js "amason") (js "amazon") = 1%Z
   /\ filter CheckEmail.isFuzzyText (CheckEmail.indicators r)
      = [CheckEmail.WARNING ++ js " TYPOSQUATTING (fuzzy match): "
           ++ quoted (js "amason") ++ js " resembles "
           ++ quoted (js "amazon") ++ js " (1 character difference)"]
   /\ (55 <= CheckEmail.spamScore r)%Z
   /\ CheckEmail.riskLevel r <> CheckEmail.Safe).
Proof.
  assert (Hnear : forall b e,
            CheckEmail.fuzzyHit b e = true
            <-> (1 <= CheckEmail.editDistance
                        (CheckEmail.firstLabel b)
                        (CheckEmail.firstLabel (fst e)) <= 2)%Z
                /\ (4 <= len (CheckEmail.firstLabel b))%Z).
  { intros b e. unfold CheckEmail.fuzzyHit. cbv zeta.
    rewrite LevenshteinFacts.levenshteinDistance_editDistance.
    rewrite !andb_true_iff, Z.ltb_lt, !Z.leb_le. lia. }
  assert (Hfired : forall email username domain,
            CheckEmail.emailParts email = Some (username, domain) ->
            filter CheckEmail.isFuzzy (CheckEmail.firedIndicators email)
            = match find (CheckEmail.fuzzyHit
                            (join [DOT] (lastN 2 (split DOT domain))))
                         CheckEmail.trustedBrands with
              | Some entry =>
                  [CheckEmail.fuzzyIndicator
                     (join [DOT] (lastN 2 (split DOT domain))) entry]
              | None => []
              end).
  { intros email username domain Hparts.
    unfold CheckEmail.firedIndicators. rewrite Hparts.
    rewrite EmailFacts.ruleFirings_fuzzy.
    apply EmailFacts.typosquattingLoop_fuzzy. }
  assert (Hlink : forall email username domain,
            CheckEmail.emailParts email = Some (username, domain) ->
            filter CheckEmail.isFuzzyText
              (CheckEmail.indicators
                 (CheckEmail.performLocalSpamDetection email))
            = map (@description _)
                  (filter CheckEmail.isFuzzy
                     (CheckEmail.firedIndicators email))).
  { intros email username domain Hparts.
    destruct (EmailFacts.performLocalSpamDetection_scored _ Hparts)
      as [Hind _].
    rewrite Hind. unfold CheckEmail.firedIndicators. rewrite Hparts.
    apply EmailFacts.filter_agrees, EmailFacts.ruleFirings_agrees. }
  assert (Hscore : forall email i,
            In i (filter CheckEmail.isFuzzy
                    (CheckEmail.firedIndicators email)) ->
            weightContribution i = 55%Z ->
            (55 <= CheckEmail.spamScore
                     (CheckEmail.performLocalSpamDetection email))%Z
            /\ CheckEmail.riskLevel
                 (CheckEmail.performLocalSpamDetection email)
               <> CheckEmail.Safe).
  { intros email i Hin Hw. apply filter_In in Hin. destruct Hin as [Hin _].
    pose proof (@totalWeight_In _ _ _
                  (EmailFacts.firedIndicators_nonneg email) Hin) as Hle.
    assert (H55 : (55 <= CheckEmail.spamScore
                           (CheckEmail.performLocalSpamDetection email))%Z).
    { revert Hle. unfold CheckEmail.firedIndicators,
        CheckEmail.performLocalSpamDetection.
      destruct (CheckEmail.emailParts email) as [[u d]|].
      - rewrite runRules_eq. cbn [CheckEmail.spamScore]. lia.
      - cbn. lia. }
    split; [exact H55|]. apply EmailFacts.not_safe_from_35. lia. }
  split.
  - intros email username domain Hparts. cbv zeta.
    pose proof (Hfired _ _ _ Hparts) as Hf.
    rewrite (Hlink _ _ _ Hparts).
    set (b := join [DOT] (lastN 2 (split DOT domain))) in *.
    destruct (find (CheckEmail.fuzzyHit b) CheckEmail.trustedBrands)
      as [entry|] eqn:Hfind; rewrite Hf; cbn [map].
    + split; [|split; [|split; [|split]]].
      * split; [|discriminate]. intros _.
        apply find_some in Hfind. destruct Hfind as [Hin Hhit].
        exists entry. split; [exact Hin | apply Hnear, Hhit].
      * simpl. lia.
      * intros text [<- | []].
        assert (Hin : In (CheckEmail.fuzzyIndicator b entry)
                         (CheckEmail.firedIndicators email)).
        { apply (proj1 (filter_In CheckEmail.isFuzzy _
                          (CheckEmail.firedIndicators email))).
          rewrite Hf. left. reflexivity. }
        clear Hf. revert Hfind.
        generalize CheckEmail.trustedBrands as entries.
        induction entries as [|e entries IH]; cbn [find]; [discriminate|].
        destruct (CheckEmail.fuzzyHit b e) eqn:He.
        -- intros Heq. injection Heq as ->.
           exists [], entry, entries.
           split; [reflexivity|]. split; [apply Hnear, He|].
           split; [intros e' []|]. split; [reflexivity|].
           split; [exact Hin | reflexivity].
        -- intros Hrest.
           destruct (IH Hrest)
             as [before [entry' [rest [-> [Hn [Hb [Ht [Hi Hw]]]]]]]].
           exists (e :: before), entry', rest.
           split; [reflexivity|]. split; [exact Hn|]. split.
           ++ intros e' [<- | Hin']; [|apply Hb, Hin'].
              intros Hcontra. apply Hnear in Hcontra. congruence.
           ++ split; [exact Ht|]. split; [exact Hi | exact Hw].
      * reflexivity.
      * intros _. apply (Hscore email (CheckEmail.fuzzyIndicator b entry)).
        -- rewrite Hf. left. reflexivity.
        -- reflexivity.
    + split; [|split; [|split; [|split]]].
      * split; [congruence|]. intros [entry [Hin Hn]].
        apply Hnear in Hn.
        pose proof (find_none _ _ Hfind _ Hin). congruence.
      * simpl. lia.
      * intros text [].
      * reflexivity.
      * intros H. exfalso. apply H. reflexivity.
  - cbv zeta. intros Hlower.
    assert (Hparts : CheckEmail.emailParts
                       (js "support-id-7193@service.amason.com")
                     = Some (js "support-id-7193", js "service.amason.com")).
    { unfold CheckEmail.emailParts. rewrite Hlower. reflexivity. }
    pose proof (Hfired _ _ _ Hparts) as Hf.
    assert (Hone : filter CheckEmail.isFuzzy
                     (CheckEmail.firedIndicators
                        (js "support-id-7193@service.amason.com"))
                   = [CheckEmail.fuzzyIndicator (js "amason.com")
                        (js "amazon.com",
                         snd (hd ([], []) CheckEmail.trustedBrands))]).
    { rewrite Hf. vm_compute. reflexivity. }
    split; [vm_compute; reflexivity|].
    split.
    + rewrite (Hlink _ _ _ Hparts), Hone. vm_compute. reflexivity.
    + apply (Hscore _ (CheckEmail.fuzzyIndicator (js "amason.com")
                         (js "amazon.com",
                          snd (hd ([], []) CheckEmail.trustedBrands)))).
      * rewrite Hone. left. reflexivity.
      * reflexivity.
Qed.

(** [fuzzy_brand_match] at [support-id-7193@service.amason.com]. *)
Lemma fuzzy_brand_match_witness :
  let address := js "support-id-7193@service.amason.com" in
  let r := CheckEmail.performLocalSpamDetection (P := Fixtures.platform)
             address in
  CheckEmail.emailParts (P := Fixtures.platform) address
  = Some (js "support-id-7193", js "service.amason.com")
  /\ (List.length (filter CheckEmail.isFuzzyText (CheckEmail.indicators r)) <= 1)%nat
  /\ asciiLower address = address
  /\ filter CheckEmail.isFuzzyText (CheckEmail.indicators r)
     = [CheckEmail.WARNING ++ js " TYPOSQUATTING (fuzzy match): "
          ++ quoted (js "amason") ++ js " resembles "
          ++ quoted (js "amazon") ++ js " (1 character difference)"]
  /\ (55 <= CheckEmail.spamScore r)%Z
  /\ CheckEmail.riskLevel r <> CheckEmail.Safe.
Proof.
  cbv zeta. split; [reflexivity|]. split.
  - apply (proj1 (fuzzy_brand_match Fixtures.platform)
             (js "support-id-7193@service.amason.com")
             (js "support-id-7193") (js "service.amason.com") eq_refl).
  - split; [reflexivity|].
    apply (proj2 (fuzzy_brand_match Fixtures.platform)). reflexivity.
Defined.

(** ** The URL scorer on unparsable input, and the shortener test *)

(** C9.  [performLocalURLAnalysis] answers on every string.  Either the
    URL parses and the answer is the result of the [try] block, or the
    parser throws and the answer is the result of the [catch] block:
    score 100, level [dangerous], [isSafe] false and the single indicator
    "Invalid URL format - unable to parse". *)
Theorem url_analysis_total (P : Platform) (url : jsstring) :
  let r := CheckUrl.performLocalURLAnalysis url in
  (parseURL url <> None /\ CheckUrl.tryBlock url = Some r)
  \/
  (parseURL url = None
   /\ CheckUrl.tryBlock url = None
   /\ r = CheckUrl.parseFailure url
   /\ CheckUrl.riskScore r = 100%Z
   /\ CheckUrl.riskLevel r = CheckUrl.Dangerous
   /\ CheckUrl.isSafe r = false
   /\ CheckUrl.indicators r = [js "Invalid URL format - unable to parse"]).
Proof.
  cbv zeta. unfold CheckUrl.performLocalURLAnalysis, CheckUrl.tryBlock.
  destruct (parseURL url) as [urlObj|].
  - left. split; [discriminate|].
    destruct (runRules _) as [indicators raw]. reflexivity.
  - right. repeat split.
Qed.



(** ** The redirect resolver *)

Module ResolverFacts.

Import CheckUrl StrFacts.

Section Run.

Context {P : Platform}.
Variable net : Network.

Lemma Inv_initial url : Inv url (initial url).
Proof.
  constructor; simpl; auto.
  - constructor; [intros [] | constructor].
  - unfold maxRedirects. lia.
Qed.

(** A pass that does not break appends one new URL and counts it. *)
Lemma iteration_Some st st' :
  iteration net st = Some st' ->
  exists redirectUrl,
    ~ In redirectUrl (loopChain st)
    /\ st' = {| loopChain := loopChain st ++ [redirectUrl];
                nextUrl := redirectUrl;
                currentUrl := redirectUrl;
                attempts := S (attempts st) |}.
Proof.
  unfold iteration.
  repeat match goal with
         | |- context [match ?x with _ => _ end] =>
             destruct x eqn:?; try discriminate
         end.
  intros H. injection H as <-.
  match goal with
  | Hmem : mem ?u _ = false |- _ =>
      exists u; split; [apply mem_not_In, Hmem | reflexivity]
  end.
Qed.

Lemma guard_bound st : guard net st = true -> attempts st < maxRedirects.
Proof.
  unfold guard. intros H. apply andb_true_iff in H.
  destruct H as [Hlt _]. apply Nat.ltb_lt in Hlt. exact Hlt.
Qed.

Lemma Inv_iteration url st st' :
  Inv url st -> guard net st = true -> iteration net st = Some st' ->
  Inv url st'.
Proof.
  intros [Hc Hl Hh Hn Hlen Hb] Hg Hit.
  apply guard_bound in Hg.
  destruct (iteration_Some _ Hit) as [u [Hnew ->]].
  constructor; cbn [loopChain nextUrl currentUrl attempts].
  - reflexivity.
  - apply last_last.
  - destruct (loopChain st); [discriminate | exact Hh].
  - apply NoDup_app; [exact Hn | constructor; [intros [] | constructor] |].
    intros x Hx [<- | []]. contradiction.
  - rewrite length_app, Hlen. simpl. lia.
  - lia.
Qed.


Lemma Inv_hops url st st' : hops net st st' -> Inv url st -> Inv url st'.
Proof.
  induction 1 as [|st st1 st2 Hg Hit _ IH]; auto.
  intros Hinv. apply IH. apply (Inv_iteration Hinv Hg Hit).
Qed.

(** With fuel for the redirects that are left, [loop] follows the
    hops to the state where they stop. *)
Lemma loop_hops st st' :
  hops net st st' -> stops net st' ->
  forall fuel, maxRedirects - attempts st <= fuel ->
  loop net fuel st = st'.
Proof.
  induction 1 as [st|st st1 st2 Hg Hit Hrest IH]; intros Hstop fuel Hfuel.
  - destruct fuel as [|fuel]; cbn [loop];
      destruct (guard net st) eqn:Hg; try reflexivity.
    destruct Hstop as [Hstop | Hstop]; [congruence|].
    rewrite Hstop. reflexivity.
  - destruct (iteration_Some _ Hit) as [u [_ Hst1]].
    assert (Hatt : attempts st1 = S (attempts st))
      by (rewrite Hst1; reflexivity).
    pose proof (guard_bound _ Hg) as Hlt.
    destruct fuel as [|fuel]; [lia|].
    cbn [loop]. rewrite Hg, Hit.
    apply IH; [exact Hstop | lia].
Qed.

(** The loop always ends in a state reached by hops where it stops:
    five passes are enough. *)
Lemma loop_stops fuel : forall st,
  maxRedirects - attempts st <= fuel ->
  hops net st (loop net fuel st) /\ stops net (loop net fuel st).
Proof.
  induction fuel as [|fuel IH]; intros st Hfuel; cbn [loop]; destruct (guard net st) eqn:Hg.
  - apply guard_bound in Hg. lia.
  - split; [constructor | left; exact Hg].
  - destruct (iteration net st) as [st'|] eqn:Hit.
    + destruct (iteration_Some _ Hit) as [u [_ Hst']].
      assert (Hatt : attempts st' = S (attempts st))
        by (rewrite Hst'; reflexivity).
      destruct (IH st') as [Hh Hs]; [lia|].
      split; [econstructor; eassumption | exact Hs].
    + split; [constructor | right; exact Hit].
  - split; [constructor | left; exact Hg].
Qed.

(** The answer of the resolver for a URL that parses. *)
Lemma resolve_parsed url urlObj :
  parseURL url = Some urlObj ->
  let st := loop net maxRedirects (initial url) in
  resolveURLRedirects net url
  = {| finalUrl := currentUrl st;
       chain := loopChain st;
       shortened := existsb (includes (toLowerCase (hostname urlObj)))
                            urlShorteners |}.
Proof.
  intros Hparse. unfold resolveURLRedirects. rewrite Hparse. reflexivity.
Qed.


End Run.

End ResolverFacts.

(** C4, as stated, fails.  [https://a.example/] redirects to
    [https://b.example/], which redirects back.  The second hop finds its
    target in the chain and the loop breaks before the [push]: the chain
    is the two URLs visited, it ends with [https://b.example/], and the
    repeated URL is not appended. *)
Lemma repeated_url_counterexample :
  let a := js "https://a.example/" in
  let b := js "https://b.example/" in
  let r := CheckUrl.resolveURLRedirects (P := Fixtures.platform)
             Fixtures.cycle a in
  CheckUrl.head Fixtures.cycle 1 b = CheckUrl.Answer 302 (Some a)
  /\ CheckUrl.chain r = [a; b]
  /\ CheckUrl.finalUrl r = b
  /\ last (CheckUrl.chain r) [] <> a
  /\ CheckUrl.chain r <> [a; b; a].
Proof.
  cbv zeta. repeat split; try (vm_compute; reflexivity);
    vm_compute; discriminate.
Qed.

(** C4, amended.  When, after some hops, the loop condition holds and
    the probe answers with a redirect whose target is already in the
    chain, resolution stops there without error: the chain returned is
    the chain built so far, the repeated URL is not appended again (the
    chain holds it once and holds no URL twice), and the final URL, the
    last element of the chain, is the URL whose answer pointed back. *)
Theorem repeated_url_stops_resolution
        (P : Platform) (net : CheckUrl.Network) (url : jsstring)
        (st : CheckUrl.Loop) (status : Z) (location repeated : jsstring) :
  parseURL url <> None ->
  CheckUrl.hops net (CheckUrl.initial url) st ->
  CheckUrl.guard net st = true ->
  CheckUrl.head net (CheckUrl.attempts st) (CheckUrl.nextUrl st)
  = CheckUrl.Answer status (Some location) ->
  (300 <= status < 400)%Z ->
  CheckUrl.target st location = Some repeated ->
  In repeated (CheckUrl.loopChain st) ->
  let r := CheckUrl.resolveURLRedirects net url in
  CheckUrl.chain r = CheckUrl.loopChain st
  /\ CheckUrl.finalUrl r = CheckUrl.nextUrl st
  /\ CheckUrl.finalUrl r = last (CheckUrl.chain r) url
  /\ In repeated (CheckUrl.chain r)
  /\ NoDup (CheckUrl.chain r).
Proof.
  intros Hparse Hhops Hguard Hhead Hstatus Htarget Hin. cbv zeta.
  assert (Hbreak : CheckUrl.iteration net st = None).
  { unfold CheckUrl.iteration. rewrite Hhead.
    replace ((300 <=? status) && (status <? 400))%Z with true
      by (symmetry; apply andb_true_iff; split;
          [apply Z.leb_le | apply Z.ltb_lt]; lia).
    destruct location as [|c location].
    - reflexivity.
    - rewrite Htarget.
      apply StrFacts.mem_In in Hin. rewrite Hin. reflexivity. }
  assert (Hloop : CheckUrl.loop net CheckUrl.maxRedirects
                    (CheckUrl.initial url) = st).
  { apply ResolverFacts.loop_hops; [exact Hhops | right; exact Hbreak |].
    cbn [CheckUrl.initial CheckUrl.attempts]. lia. }
  destruct (parseURL url) as [urlObj|] eqn:Hp; [|congruence].
  pose proof (ResolverFacts.resolve_parsed net url Hp) as Hr.
  cbv zeta in Hr. rewrite Hloop in Hr.
  pose proof (ResolverFacts.Inv_hops Hhops (ResolverFacts.Inv_initial url))
    as [Hc Hl Hh Hn Hlen Hb].
  rewrite Hr. cbn [CheckUrl.chain CheckUrl.finalUrl].
  repeat split; auto; congruence.
Qed.

(** [repeated_url_stops_resolution] on the two sites that redirect to
    each other, at the state after the first hop. *)
Lemma repeated_url_stops_resolution_witness :
  let a := js "https://a.example/" in
  let b := js "https://b.example/" in
  let r := CheckUrl.resolveURLRedirects (P := Fixtures.platform)
             Fixtures.cycle a in
  CheckUrl.chain r = [a; b]
  /\ CheckUrl.finalUrl r = b
  /\ CheckUrl.finalUrl r = last (CheckUrl.chain r) a
  /\ In a (CheckUrl.chain r)
  /\ NoDup (CheckUrl.chain r).
Proof.
  cbv zeta.
  apply (@repeated_url_stops_resolution Fixtures.platform Fixtures.cycle
           (js "https://a.example/")
           {| CheckUrl.loopChain :=
                [js "https://a.example/"; js "https://b.example/"];
              CheckUrl.nextUrl := js "https://b.example/";
              CheckUrl.currentUrl := js "https://b.example/";
              CheckUrl.attempts := 1 |}
           302 (js "https://a.example/") (js "https://a.example/")).
  - vm_compute. discriminate.
  - eapply CheckUrl.hops_next;
      [reflexivity | reflexivity | apply CheckUrl.hops_here].
  - reflexivity.
  - reflexivity.
  - lia.
  - reflexivity.
  - left. reflexivity.
Defined.

(** ** The two routes *)

Module RouteFacts.

Import CheckUrl.

Section Url.

Context {P : Platform}.
Variable net : Network.
Variable A : Arbiter RiskLevel.

(** The gateway always answers, and does so before the 22000 ms
    timer of the route: the [catch] block of step 3 is never
    entered. *)
Lemma gateway_settles url localFindings :
  exists t data,
    getGeminiURLAnalysis A url localFindings = Fulfilled t data
    /\ (t < handlerTimeout)%Z.
Proof.
  unfold getGeminiURLAnalysis, raceGateway, handlerTimeout,
    gatewayTimeout.
  destruct (configured (apiKey A)); cbn [negb].
  - destruct (generateObject A url (indicators localFindings)
                             (riskScore localFindings))
      as [t v e | t isError name message |];
      try (destruct (t <? 18000)%Z eqn:Ht;
           [apply Z.ltb_lt in Ht|]);
      repeat match goal with
             | |- context [if ?c then _ else _] => destruct c
             end;
      eexists; eexists; (split; [reflexivity | lia]).
  - eexists; eexists; (split; [reflexivity | lia]).
Qed.

Lemma verdictStep_gateway url localResult t data :
  getGeminiURLAnalysis A url localResult = Fulfilled t data ->
  verdictStep A url localResult = data.
Proof.
  intros H. destruct (gateway_settles url localResult)
    as [t' [data' [H' Ht]]].
  unfold verdictStep. rewrite H'. rewrite H' in H.
  injection H as -> ->. apply Z.ltb_lt in Ht. rewrite Ht. reflexivity.
Qed.

(** What the gateway answers for a call that fails or is late. *)
Lemma gateway_failure url localFindings :
  configured (apiKey A) = true ->
  match generateObject A url (indicators localFindings)
                       (riskScore localFindings) with
  | Resolves t _ _ => (gatewayTimeout <= t)%Z
  | _ => True
  end ->
  exists t text,
    getGeminiURLAnalysis A url localFindings
    = Fulfilled t (Suspicious, text)
    /\ (text = timedOutText \/ text = errorText).
Proof.
  intros Hkey. unfold getGeminiURLAnalysis, raceGateway.
  rewrite Hkey. cbn [negb].
  destruct (generateObject A url (indicators localFindings)
                           (riskScore localFindings))
    as [t v e | t isError name message |]; intros Hlate.
  - apply Z.ltb_ge in Hlate. rewrite Hlate.
    cbn. eexists; eexists; split; [reflexivity | left; reflexivity].
  - destruct (t <? gatewayTimeout)%Z.
    + destruct (isError && _);
        eexists; eexists; split; try reflexivity; auto.
    + cbn. eexists; eexists; split; [reflexivity | left; reflexivity].
  - cbn. eexists; eexists; split; [reflexivity | left; reflexivity].
Qed.

(** Step 2 keeps everything the scorer computed and may put one line
    in front of the indicators. *)
Lemma localStep_scored (info : RedirectInfo) :
  let scored := performLocalURLAnalysis (finalUrl info) in
  let local := localStep info in
  riskScore local = riskScore scored
  /\ riskLevel local = riskLevel scored
  /\ isSafe local = isSafe scored
  /\ reason local = reason scored
  /\ indicators local
     = (if shortened info && Nat.ltb 1 (List.length (chain info))
        then [LINK ++ js " SHORTENED URL: Redirects to " ++ finalUrl info]
        else [])
       ++ indicators scored
  /\ redirectChain local = Some (chain info)
  /\ finalDestination local = Some (finalUrl info).
Proof.
  cbv zeta. unfold localStep.
  cbn [riskScore riskLevel isSafe reason indicators redirectChain
       finalDestination].
  repeat split. destruct (shortened info && _); reflexivity.
Qed.

(** A valid request is always answered with a result, which carries
    the indicators, the chain and the destination of step 2. *)
Lemma POST_answers url :
  urlSchema url = true ->
  let info := redirectStep net url in
  let local := localStep info in
  exists r,
    POST net A url = Ok200 r
    /\ indicators r = indicators local
    /\ redirectChain r = Some (chain info)
    /\ finalDestination r = Some (finalUrl info)
    /\ (configured (apiKey A) = false ->
          riskScore r = riskScore local
          /\ riskLevel r = riskLevel local
          /\ isSafe r = isSafe local
          /\ reason r = reason local
          /\ geminiVerdict r = Some (riskLevel local))
    /\ (configured (apiKey A) = true ->
          forall t verdict text,
            getGeminiURLAnalysis A (finalUrl info) local
            = Fulfilled t (verdict, text) ->
            r = assemble url info local verdict text).
Proof.
  intros Hvalid. cbv zeta. unfold POST. rewrite Hvalid. cbn [negb].
  destruct (configured (apiKey A)) eqn:Hkey; cbn [negb].
  - destruct (gateway_settles (finalUrl (redirectStep net url))
                (localStep (redirectStep net url)))
      as [t [[verdict text] [Hg Ht]]].
    rewrite (verdictStep_gateway _ _ Hg).
    eexists. split; [reflexivity|].
    cbn [assemble indicators redirectChain finalDestination].
    repeat split; try discriminate.
    intros _ t' verdict' text' Hg'. rewrite Hg in Hg'.
    injection Hg' as _ -> ->. reflexivity.
  - eexists. split; [reflexivity|].
    cbn [indicators redirectChain finalDestination riskScore riskLevel
         isSafe reason geminiVerdict].
    repeat split; try discriminate; apply localStep_scored.
Qed.

End Url.

End RouteFacts.





(** C6, as stated, fails for URL requests.  For the short link that
    leads to [https://example.com] the scorer emits no indicator, and the
    final result lists one: the line the route puts in front. *)
Lemma indicators_unmodified_counterexample :
  let url := js "https://bit.ly/abc123" in
  let emitted :=
    CheckUrl.indicators
      (CheckUrl.performLocalURLAnalysis (P := Fixtures.platform)
         (js "https://example.com")) in
  exists r,
    CheckUrl.POST (P := Fixtures.platform) Fixtures.shortLink
      (Fixtures.answering CheckUrl.Safe) url = Ok200 r
    /\ CheckUrl.finalDestination r = Some (js "https://example.com")
    /\ emitted = []
    /\ CheckUrl.indicators r
       = [CheckUrl.LINK
            ++ js " SHORTENED URL: Redirects to https://example.com"]
    /\ CheckUrl.indicators r <> emitted.
Proof.
  cbv zeta. eexists. split; [vm_compute; reflexivity|].
  repeat split; try (vm_compute; reflexivity).
  vm_compute. discriminate.
Qed.

(** C6, amended.  In the e-mail route, every result lists exactly the
    indicators the scorer emitted, in emission order.  In the URL route,
    every result lists the indicators the scorer emitted for the
    destination, in emission order, behind one line "SHORTENED URL:
    Redirects to ..." when the input host is a shortener and the chain
    has more than one URL; it carries the chain of the resolver
    unchanged, or the input alone when the 5000 ms timer of the route
    fired first. *)
Theorem indicators_and_chain_carried (P : Platform) :
  (forall (A : Arbiter CheckEmail.Verdict) (email : jsstring)
          (r : CheckEmail.SpamCheckResult),
     CheckEmail.POST A email = Ok200 r ->
     CheckEmail.indicators r
     = CheckEmail.indicators (CheckEmail.performLocalSpamDetection email))
  /\
  (forall (net : CheckUrl.Network) (A : Arbiter CheckUrl.RiskLevel)
          (url : jsstring) (r : CheckUrl.URLCheckResult),
     CheckUrl.POST net A url = Ok200 r ->
     let resolved := CheckUrl.resolveURLRedirects net url in
     let info :=
       if CheckUrl.resolverLate net then CheckUrl.unresolved url
       else resolved in
     let emitted :=
       CheckUrl.indicators
         (CheckUrl.performLocalURLAnalysis (CheckUrl.finalUrl info)) in
     CheckUrl.indicators r
     = (if CheckUrl.shortened info
           && Nat.ltb 1 (List.length (CheckUrl.chain info))
        then [CheckUrl.LINK ++ js " SHORTENED URL: Redirects to "
                ++ CheckUrl.finalUrl info]
        else [])
       ++ emitted
     /\ CheckUrl.redirectChain r = Some (CheckUrl.chain info)
     /\ (CheckUrl.resolverLate net = false ->
           CheckUrl.redirectChain r = Some (CheckUrl.chain resolved))
     /\ (CheckUrl.resolverLate net = true ->
           CheckUrl.redirectChain r = Some [url]
           /\ CheckUrl.indicators r = emitted)).
Proof.
  split.
  - intros A email r. unfold CheckEmail.POST.
    destruct (emailSchema email); cbn [negb]; [|discriminate].
    destruct (configured (apiKey A)); cbn [negb].
    + destruct (CheckEmail.getGeminiAnalysis A email _)
        as [t [verdict explanation] | t |]; try discriminate.
      intros H. injection H as <-. reflexivity.
    + intros H. injection H as <-. reflexivity.
  - intros net A url r Hpost. cbv zeta.
    destruct (urlSchema url) eqn:Hvalid.
    + destruct (RouteFacts.POST_answers net A url Hvalid)
        as [r' [Hpost' [Hind [Hchain _]]]].
      rewrite Hpost in Hpost'. injection Hpost' as <-.
      destruct (RouteFacts.localStep_scored (CheckUrl.redirectStep net url))
        as [_ [_ [_ [_ [Hi _]]]]].
      rewrite Hind, Hchain. clear Hind Hchain Hpost.
      unfold CheckUrl.redirectStep in *.
      destruct (CheckUrl.resolverLate net).
      * repeat split; try discriminate; exact Hi.
      * repeat split; try discriminate; exact Hi.
    + unfold CheckUrl.POST in Hpost. rewrite Hvalid in Hpost.
      discriminate Hpost.
Qed.

(** [indicators_and_chain_carried] on the results of the two routes for
    [john.doe@example.org] and for the short link. *)
Lemma indicators_and_chain_carried_witness :
  (exists r,
     CheckEmail.POST (P := Fixtures.platform)
       (Fixtures.answering CheckEmail.Legitimate)
       (js "john.doe@example.org") = Ok200 r
     /\ CheckEmail.indicators r = [])
  /\
  (exists r,
     CheckUrl.POST (P := Fixtures.platform) Fixtures.shortLink
       (Fixtures.answering CheckUrl.Safe) (js "https://bit.ly/abc123")
     = Ok200 r
     /\ CheckUrl.redirectChain r
        = Some [js "https://bit.ly/abc123"; js "https://hop.example/r";
                js "https://example.com"]).
Proof.
  split.
  - destruct (CheckEmail.POST (P := Fixtures.platform)
                (Fixtures.answering CheckEmail.Legitimate)
                (js "john.doe@example.org")) as [r | | |] eqn:Hpost;
      try (vm_compute in Hpost; discriminate Hpost).
    exists r. split; [reflexivity|].
    rewrite (proj1 (indicators_and_chain_carried Fixtures.platform)
               _ _ _ Hpost).
    vm_compute. reflexivity.
  - destruct (CheckUrl.POST (P := Fixtures.platform) Fixtures.shortLink
                (Fixtures.answering CheckUrl.Safe)
                (js "https://bit.ly/abc123")) as [r | | |] eqn:Hpost;
      try (vm_compute in Hpost; discriminate Hpost).
    exists r. split; [reflexivity|].
    destruct (proj2 (indicators_and_chain_carried Fixtures.platform)
                _ _ _ _ Hpost) as [_ [Hchain _]].
    rewrite Hchain. vm_compute. reflexivity.
Defined.

(** C1, as stated, fails in both routes.  [john.doe@example.org] and
    [https://example.com] are locally [safe]; with an arbiter whose call
    is rejected, or never settles, the result shows the verdict
    [suspicious], not the image [legitimate] / [safe] of the local
    band. *)
Lemma failed_arbitration_counterexample :
  (let email := js "john.doe@example.org" in
   let local := CheckEmail.performLocalSpamDetection
                  (P := Fixtures.platform) email in
   exists r,
     CheckEmail.POST (P := Fixtures.platform) (Fixtures.failing _) email
     = Ok200 r
     /\ CheckEmail.riskLevel local = CheckEmail.Safe
     /\ CheckEmail.geminiVerdict r = Some CheckEmail.Suspicious
     /\ CheckEmail.geminiVerdict r
        <> Some (CheckEmail.verdictOfBand (CheckEmail.riskLevel local)))
  /\
  (let url := js "https://example.com" in
   let local := CheckUrl.performLocalURLAnalysis
                  (P := Fixtures.platform) url in
   exists r,
     CheckUrl.POST (P := Fixtures.platform) Fixtures.shortLink
       (Fixtures.hanging _) url = Ok200 r
     /\ CheckUrl.finalDestination r = Some url
     /\ CheckUrl.riskLevel local = CheckUrl.Safe
     /\ CheckUrl.geminiVerdict r = Some CheckUrl.Suspicious
     /\ CheckUrl.geminiVerdict r <> Some (CheckUrl.riskLevel local)).
Proof.
  split; cbv zeta.
  - eexists. split; [vm_compute; reflexivity|].
    repeat split; try (vm_compute; reflexivity).
    vm_compute. discriminate.
  - eexists. split; [vm_compute; reflexivity|].
    repeat split; try (vm_compute; reflexivity).
    vm_compute. discriminate.
Qed.

(** C1, amended.  The local band is mapped to the verdict when no API
    key is configured.  When the arbitration call is attempted and
    fails, the gateway answers the fixed verdict [suspicious] with a
    generic explanation, whatever the local band: in the e-mail route
    for every rejected call, in the URL route for every rejected call
    and every call that has not settled within the 18000 ms of the
    gateway.  The result then shows that verdict, its band and the score
    60. *)
Theorem failed_arbitration_verdict (P : Platform) :
  (forall (A : Arbiter CheckEmail.Verdict) (email : jsstring),
     emailSchema email = true ->
     let local := CheckEmail.performLocalSpamDetection email in
     let call := generateObject A email (CheckEmail.indicators local)
                                (CheckEmail.spamScore local) in
     (configured (apiKey A) = false ->
        exists r,
          CheckEmail.POST A email = Ok200 r
          /\ CheckEmail.geminiVerdict r
             = Some (CheckEmail.verdictOfBand (CheckEmail.riskLevel local))
          /\ CheckEmail.riskLevel r = CheckEmail.riskLevel local
          /\ CheckEmail.spamScore r = CheckEmail.spamScore local)
     /\ (configured (apiKey A) = true ->
         (exists t isError name message,
            call = Rejects t isError name message) ->
         exists r,
           CheckEmail.POST A email = Ok200 r
           /\ CheckEmail.geminiVerdict r = Some CheckEmail.Suspicious
           /\ CheckEmail.riskLevel r = CheckEmail.Risky
           /\ CheckEmail.spamScore r = 60%Z
           /\ CheckEmail.reason r
              = js "AI analysis encountered an error. Please try again."))
  /\
  (forall (net : CheckUrl.Network) (A : Arbiter CheckUrl.RiskLevel)
          (url : jsstring),
     urlSchema url = true ->
     let info := CheckUrl.redirectStep net url in
     let local := CheckUrl.localStep info in
     let band :=
       CheckUrl.riskLevel
         (CheckUrl.performLocalURLAnalysis (CheckUrl.finalUrl info)) in
     let call := generateObject A (CheckUrl.finalUrl info)
                                (CheckUrl.indicators local)
                                (CheckUrl.riskScore local) in
     (configured (apiKey A) = false ->
        exists r,
          CheckUrl.POST net A url = Ok200 r
          /\ CheckUrl.geminiVerdict r = Some band
          /\ CheckUrl.riskLevel r = band)
     /\ (configured (apiKey A) = true ->
         match call with
         | Resolves t _ _ => (CheckUrl.gatewayTimeout <= t)%Z
         | Rejects _ _ _ _ => True
         | Pending => True
         end ->
         exists r,
           CheckUrl.POST net A url = Ok200 r
           /\ CheckUrl.geminiVerdict r = Some CheckUrl.Suspicious
           /\ CheckUrl.riskLevel r = CheckUrl.Suspicious
           /\ CheckUrl.riskScore r = 60%Z
           /\ (CheckUrl.reason r = CheckUrl.timedOutText
               \/ CheckUrl.reason r = CheckUrl.errorText))).
Proof.
  split.
  - intros A email Hvalid. cbv zeta. unfold CheckEmail.POST.
    rewrite Hvalid. cbn [negb]. split.
    + intros Hkey. rewrite Hkey. cbn [negb].
      eexists. split; [reflexivity|]. repeat split.
    + intros Hkey [t [isError [name [message Hcall]]]].
      rewrite Hkey. cbn [negb].
      unfold CheckEmail.getGeminiAnalysis. rewrite Hkey, Hcall. cbn [negb].
      eexists. split; [reflexivity|]. repeat split.
  - intros net A url Hvalid. cbv zeta.
    destruct (RouteFacts.POST_answers net A url Hvalid)
      as [r [Hpost [_ [_ [_ [Hoff Hon]]]]]].
    destruct (RouteFacts.localStep_scored (CheckUrl.redirectStep net url))
      as [_ [Hlevel _]].
    split.
    + intros Hkey. destruct (Hoff Hkey) as [_ [Hl [_ [_ Hv]]]].
      exists r. split; [exact Hpost|]. split; congruence.
    + intros Hkey Hfail.
      destruct (RouteFacts.gateway_failure A _ _ Hkey Hfail)
        as [t [text [Hg Htext]]].
      rewrite (Hon Hkey _ _ _ Hg) in Hpost.
      eexists. split; [exact Hpost|].
      cbn [CheckUrl.assemble CheckUrl.geminiVerdict CheckUrl.riskLevel
           CheckUrl.riskScore CheckUrl.reason].
      repeat split. exact Htext.
Qed.

(** [failed_arbitration_verdict] for [john.doe@example.org] and
    [https://example.com], without API key and with a failing arbiter. *)
Lemma failed_arbitration_verdict_witness :
  (exists r,
     CheckEmail.POST (P := Fixtures.platform) (Fixtures.unconfigured _)
       (js "john.doe@example.org") = Ok200 r
     /\ CheckEmail.geminiVerdict r = Some CheckEmail.Legitimate)
  /\ (exists r,
        CheckEmail.POST (P := Fixtures.platform) (Fixtures.failing _)
          (js "john.doe@example.org") = Ok200 r
        /\ CheckEmail.geminiVerdict r = Some CheckEmail.Suspicious)
  /\ (exists r,
        CheckUrl.POST (P := Fixtures.platform) Fixtures.shortLink
          (Fixtures.unconfigured _) (js "https://example.com") = Ok200 r
        /\ CheckUrl.geminiVerdict r = Some CheckUrl.Safe)
  /\ (exists r,
        CheckUrl.POST (P := Fixtures.platform) Fixtures.shortLink
          (Fixtures.hanging _) (js "https://example.com") = Ok200 r
        /\ CheckUrl.geminiVerdict r = Some CheckUrl.Suspicious).
Proof.
  pose proof (failed_arbitration_verdict Fixtures.platform)
    as [Hemail Hurl].
  split; [|split; [|split]].
  - destruct (Hemail (Fixtures.unconfigured _) (js "john.doe@example.org")
                eq_refl) as [Hoff _].
    destruct (Hoff eq_refl) as [r [Hpost [Hv _]]].
    exists r. split; [exact Hpost|]. rewrite Hv. vm_compute. reflexivity.
  - destruct (Hemail (Fixtures.failing _) (js "john.doe@example.org")
                eq_refl) as [_ Hon].
    destruct (Hon eq_refl) as [r [Hpost [Hv _]]].
    + exists 1200%Z, true, (js "Error"), (js "fetch failed"). reflexivity.
    + exists r. split; [exact Hpost | exact Hv].
  - destruct (Hurl Fixtures.shortLink (Fixtures.unconfigured _)
                (js "https://example.com") eq_refl) as [Hoff _].
    destruct (Hoff eq_refl) as [r [Hpost [Hv _]]].
    exists r. split; [exact Hpost|]. rewrite Hv. vm_compute. reflexivity.
  - destruct (Hurl Fixtures.shortLink (Fixtures.hanging _)
                (js "https://example.com") eq_refl) as [_ Hon].
    destruct (Hon eq_refl I) as [r [Hpost [Hv _]]].
    exists r. split; [exact Hpost | exact Hv].
Defined.

(** * Properties of the code beyond the specification *)

(** ** The edit distance *)

Module MetricFacts.

Import CheckEmail LevenshteinFacts.

Lemma editRec_sym s : forall t, editRec s t = editRec t s.
Proof.
  induction s as [|a s IHs]; intros t.
  - rewrite editRec_nil_l, editRec_nil_r. reflexivity.
  - induction t as [|b t IHt].
    + rewrite editRec_nil_l, editRec_nil_r. reflexivity.
    + rewrite !editRec_cons, IHt, (IHs (b :: t)), (IHs t), (N.eqb_sym a b).
      lia.
Qed.

Lemma editRec_upper s : forall t, (editRec s t <= Z.max (len s) (len t))%Z.
Proof.
  induction s as [|a s IHs]; intros t.
  - rewrite editRec_nil_l. lia.
  - destruct t as [|b t].
    + rewrite editRec_nil_r. lia.
    + rewrite editRec_cons. specialize (IHs t).
      unfold len in *. cbn [List.length]. destruct (N.eqb a b); lia.
Qed.

Lemma editRec_lower s : forall t, (Z.abs (len s - len t) <= editRec s t)%Z.
Proof.
  induction s as [|a s IHs]; intros t.
  - rewrite editRec_nil_l. unfold len. simpl. lia.
  - induction t as [|b t IHt].
    + rewrite editRec_nil_r. unfold len. simpl. lia.
    + rewrite editRec_cons.
      pose proof (IHs (b :: t)) as Hdel. pose proof (IHs t) as Hsub.
      unfold len in *. cbn [List.length] in *.
      destruct (N.eqb a b); lia.
Qed.

End MetricFacts.

(** X1.  The matrix that [levenshteinDistance] fills computes the edit
    distance: it is the length of the other string when one string is
    empty, and for strings that end in [a] and [b] it is the least of
    the distance after deleting [a] plus one, the distance after
    deleting [b] plus one, and the distance of the two strings without
    their last units plus one when [a] and [b] differ.  It agrees with
    the recursive edit distance of the reversed strings. *)
Theorem levenshtein_is_edit_distance (str1 str2 : jsstring) :
  CheckEmail.levenshteinDistance str1 str2
  = CheckEmail.editRec (rev str1) (rev str2)
  /\ CheckEmail.levenshteinDistance [] str2 = len str2
  /\ CheckEmail.levenshteinDistance str1 [] = len str1
  /\ forall a b,
       CheckEmail.levenshteinDistance (str1 ++ [a]) (str2 ++ [b])
       = Z.min (Z.min (CheckEmail.levenshteinDistance str1 (str2 ++ [b]) + 1)
                      (CheckEmail.levenshteinDistance (str1 ++ [a]) str2 + 1))
               (CheckEmail.levenshteinDistance str1 str2
                + (if N.eqb a b then 0 else 1)).
Proof.
  assert (H : forall s t, CheckEmail.levenshteinDistance s t
                          = CheckEmail.editDistance s t).
  { intros s t. unfold CheckEmail.levenshteinDistance.
    pose proof (LevenshteinFacts.row0 s []) as Hr.
    cbn [List.length] in Hr. cbn [seq map]. rewrite Hr.
    pose proof (LevenshteinFacts.rows_row s t []) as Hrows.
    cbn in Hrows. unfold CheckEmail.row in Hrows.
    change (Z.of_nat 0) with (CheckEmail.editDistance [] []).
    rewrite Hrows. apply LevenshteinFacts.last_cells. }
  split; [rewrite H; reflexivity|].
  split; [rewrite H; apply LevenshteinFacts.editDistance_nil_l|].
  split; [rewrite H; apply LevenshteinFacts.editDistance_nil_r|].
  intros a b. rewrite !H. apply LevenshteinFacts.editDistance_snoc.
Qed.

(** X2.  [levenshteinDistance] is zero exactly for equal strings, does
    not depend on the order of its arguments, is at least the
    difference of the two lengths and at most the greater length. *)
Theorem levenshtein_zero_symmetric_bounded (str1 str2 : jsstring) :
  (CheckEmail.levenshteinDistance str1 str2 = 0%Z <-> str1 = str2)
  /\ CheckEmail.levenshteinDistance str1 str2
     = CheckEmail.levenshteinDistance str2 str1
  /\ (Z.abs (len str1 - len str2)
      <= CheckEmail.levenshteinDistance str1 str2
      <= Z.max (len str1) (len str2))%Z.
Proof.
  assert (Hlen : forall s : jsstring, len (rev s) = len s)
    by (intros s; unfold len; rewrite length_rev; reflexivity).
  split; [apply LevenshteinFacts.levenshteinDistance_zero|].
  rewrite !LevenshteinFacts.levenshteinDistance_editDistance.
  unfold CheckEmail.editDistance. split.
  - apply MetricFacts.editRec_sym.
  - pose proof (MetricFacts.editRec_lower (rev str1) (rev str2)) as Hlo.
    pose proof (MetricFacts.editRec_upper (rev str1) (rev str2)) as Hup.
    rewrite !Hlen in Hlo, Hup. lia.
Qed.

(** ** Weights, scores and bands *)

Ltac weight_heavy :=
  cbv [heavy weightContribution CheckEmail.ind CheckUrl.ind]; lia.

(** Finds a firing in the concatenation of the rules. *)
Ltac pick_firing :=
  first [ left; reflexivity
        | apply in_or_app;
          first [ left; solve [pick_firing] | right; pick_firing ] ].

Module WeightFacts.

Section Generic.

Variable Rule : Type.
Implicit Types (fs : list (Indicator Rule)).

Lemma totalWeight_heavy k fs :
  (0 <= k)%Z -> Forall (heavy k) fs -> fs <> [] -> (k <= totalWeight fs)%Z.
Proof.
  intros Hk Hall Hne. destruct Hall as [|i fs Hi Hfs]; [congruence|].
  assert (Hnn : Forall (@nonneg Rule) fs).
  { eapply Forall_impl; [|exact Hfs]. unfold heavy, nonneg. intros; lia. }
  apply totalWeight_nonneg in Hnn. unfold totalWeight in *. simpl.
  unfold heavy in Hi. lia.
Qed.

End Generic.

Import CheckEmail.

Lemma email_loop_heavy domain baseDomain entries :
  Forall (heavy (Rule:=Rule) 10) (typosquattingLoop domain baseDomain entries).
Proof.
  induction entries as [|[legitimate typos] rest IH];
    cbn [typosquattingLoop]; [constructor|].
  match goal with |- context [if ?c then _ else _] => destruct c end;
    each_firing weight_heavy; assumption.
Qed.

Lemma email_keyboard_heavy baseDomain entries :
  Forall (heavy (Rule:=Rule) 10) (keyboardLoop baseDomain entries).
Proof.
  induction entries as [|[legitimate typos] rest IH];
    cbn [keyboardLoop]; [constructor|].
  match goal with |- context [if ?c then _ else _] => destruct c end;
    each_firing weight_heavy; assumption.
Qed.

Lemma email_keyword_heavy u : Forall (heavy (Rule:=Rule) 10) (keywordRule u).
Proof.
  unfold keywordRule.
  destruct (filter (includes u) suspiciousKeywords) as [|k ks];
    cbn [List.length Nat.ltb Nat.leb when]; [constructor|].
  each_firing ltac:(cbv [heavy weightContribution ind];
                    rewrite Nat2Z.inj_succ; lia).
Qed.

Lemma email_firings_heavy {P : Platform} email username domain :
  Forall (heavy (Rule:=Rule) 10) (ruleFirings email username domain).
Proof.
  unfold ruleFirings. cbv zeta.
  repeat first
    [ apply email_loop_heavy
    | apply email_keyboard_heavy
    | apply email_keyword_heavy
    | apply Forall_nil
    | apply Forall_when; weight_heavy
    | apply Forall_cons; [weight_heavy|]
    | apply Forall_app; split
    | match goal with
      | |- Forall _ (match ?x with _ => _ end) => destruct x
      end
    | progress unfold suffixRule ].
Qed.

Lemma url_firings_heavy {P : Platform} url urlObj :
  Forall (heavy (Rule:=CheckUrl.Rule) 20) (CheckUrl.ruleFirings url urlObj).
Proof.
  unfold CheckUrl.ruleFirings. cbv zeta.
  repeat first
    [ apply Forall_nil
    | apply Forall_when; weight_heavy
    | apply Forall_app; split ].
Qed.

End WeightFacts.

(** X3.  A result of either scorer has no indicator exactly when its
    score is 0, and exactly when its reason is the text for a clean
    input.  No rule weighs less than 10 in the e-mail scorer or less
    than 20 in the URL scorer, so a result with an indicator scores at
    least that. *)
Theorem score_zero_iff_no_indicator (P : Platform) :
  (forall email : jsstring,
     let r := CheckEmail.performLocalSpamDetection email in
     (CheckEmail.indicators r = [] <-> CheckEmail.spamScore r = 0%Z)
     /\ (CheckEmail.indicators r <> [] -> (10 <= CheckEmail.spamScore r)%Z)
     /\ (CheckEmail.indicators r = []
         <-> CheckEmail.reason r = js "Email appears legitimate"))
  /\
  (forall url : jsstring,
     let r := CheckUrl.performLocalURLAnalysis url in
     (CheckUrl.indicators r = [] <-> CheckUrl.riskScore r = 0%Z)
     /\ (CheckUrl.indicators r <> [] -> (20 <= CheckUrl.riskScore r)%Z)
     /\ (CheckUrl.indicators r = []
         <-> CheckUrl.reason r
             = js "URL appears safe - no red flags detected")).
Proof.
  split.
  - intros email. cbv zeta. unfold CheckEmail.performLocalSpamDetection.
    destruct (CheckEmail.emailParts email) as [[username domain]|].
    + rewrite runRules_eq.
      cbn [CheckEmail.indicators CheckEmail.spamScore CheckEmail.reason].
      pose proof (WeightFacts.email_firings_heavy email username domain)
        as Hheavy.
      destruct (CheckEmail.ruleFirings email username domain) as [|i fs].
      * cbn. repeat split; try reflexivity; congruence.
      * assert (H10 : (10 <= totalWeight (i :: fs))%Z)
          by (apply WeightFacts.totalWeight_heavy;
              [lia | exact Hheavy | discriminate]).
        cbn [map List.length Nat.eqb].
        repeat split; try discriminate; try lia.
    + cbn. repeat split; try discriminate; try lia.
  - intros url. cbv zeta.
    unfold CheckUrl.performLocalURLAnalysis, CheckUrl.tryBlock.
    destruct (parseURL url) as [urlObj|].
    + rewrite runRules_eq.
      cbn [CheckUrl.indicators CheckUrl.riskScore CheckUrl.reason].
      pose proof (WeightFacts.url_firings_heavy url urlObj) as Hheavy.
      destruct (CheckUrl.ruleFirings url urlObj) as [|i fs].
      * cbn. repeat split; try reflexivity; congruence.
      * assert (H20 : (20 <= totalWeight (i :: fs))%Z)
          by (apply WeightFacts.totalWeight_heavy;
              [lia | exact Hheavy | discriminate]).
        cbn [map List.length Nat.eqb].
        repeat split; try discriminate; try lia.
    + cbn. repeat split; try discriminate; try lia.
Qed.

Module BandFacts.

Lemma email_bandOf {P : Platform} email :
  let r := CheckEmail.performLocalSpamDetection email in
  CheckEmail.riskLevel r = emailBandOf (CheckEmail.spamScore r)
  /\ CheckEmail.isSpam r = (35 <? CheckEmail.spamScore r)%Z
  /\ (0 <= CheckEmail.spamScore r <= 100)%Z.
Proof.
  cbv zeta. unfold emailBandOf.
  pose proof (EmailFacts.firedIndicators_nonneg email) as Hnn.
  apply totalWeight_nonneg in Hnn. revert Hnn.
  unfold CheckEmail.firedIndicators, CheckEmail.performLocalSpamDetection.
  destruct (CheckEmail.emailParts email) as [[username domain]|].
  - rewrite runRules_eq. set (raw := totalWeight _).
    cbn [CheckEmail.riskLevel CheckEmail.spamScore CheckEmail.isSpam].
    intros Hnn. split; [|split; [reflexivity | lia]].
    destruct (65 <=? Z.min raw 100)%Z, (35 <=? Z.min raw 100)%Z;
      reflexivity.
  - intros _. cbn. repeat split; lia.
Qed.

Lemma url_bandOf {P : Platform} url :
  let r := CheckUrl.performLocalURLAnalysis url in
  CheckUrl.riskLevel r = urlBandOf (CheckUrl.riskScore r)
  /\ CheckUrl.isSafe r = (CheckUrl.riskScore r <? 30)%Z
  /\ (0 <= CheckUrl.riskScore r <= 100)%Z.
Proof.
  cbv zeta. unfold urlBandOf.
  pose proof (UrlFacts.url_firedIndicators_nonneg url) as Hnn.
  apply totalWeight_nonneg in Hnn. revert Hnn.
  unfold CheckUrl.firedIndicators, CheckUrl.performLocalURLAnalysis,
    CheckUrl.tryBlock.
  destruct (parseURL url) as [urlObj|].
  - rewrite runRules_eq. set (raw := totalWeight _).
    cbn [CheckUrl.riskLevel CheckUrl.riskScore CheckUrl.isSafe].
    intros Hnn. split; [|split; [reflexivity | lia]].
    destruct (60 <=? Z.min raw 100)%Z, (30 <=? Z.min raw 100)%Z;
      reflexivity.
  - intros _. cbn. repeat split; lia.
Qed.

(** What a lower bound [s] of the score says about the result. *)
Lemma email_at_least {P : Platform} email s :
  let r := CheckEmail.performLocalSpamDetection email in
  (s <= CheckEmail.spamScore r)%Z ->
  ((65 <= s)%Z -> CheckEmail.riskLevel r = CheckEmail.Invalid)
  /\ ((35 < s)%Z -> CheckEmail.isSpam r = true)
  /\ ((35 <= s)%Z -> CheckEmail.riskLevel r <> CheckEmail.Safe).
Proof.
  cbv zeta. intros Hs.
  destruct (email_bandOf email) as [Hband [Hspam _]]. cbv zeta in *.
  rewrite Hband, Hspam. unfold emailBandOf.
  destruct (Z.leb_spec 65 (CheckEmail.spamScore
              (CheckEmail.performLocalSpamDetection email))),
           (Z.leb_spec 35 (CheckEmail.spamScore
              (CheckEmail.performLocalSpamDetection email)));
    repeat split; intros; try lia; try reflexivity; try discriminate;
    apply Z.ltb_lt; lia.
Qed.

Lemma url_at_least {P : Platform} url s :
  let r := CheckUrl.performLocalURLAnalysis url in
  (s <= CheckUrl.riskScore r)%Z ->
  ((60 <= s)%Z -> CheckUrl.riskLevel r = CheckUrl.Dangerous)
  /\ ((30 <= s)%Z -> CheckUrl.isSafe r = false)
  /\ ((30 <= s)%Z -> CheckUrl.riskLevel r <> CheckUrl.Safe).
Proof.
  cbv zeta. intros Hs.
  destruct (url_bandOf url) as [Hband [Hsafe _]]. cbv zeta in *.
  rewrite Hband, Hsafe. unfold urlBandOf.
  destruct (Z.leb_spec 60 (CheckUrl.riskScore
              (CheckUrl.performLocalURLAnalysis url))),
           (Z.leb_spec 30 (CheckUrl.riskScore
              (CheckUrl.performLocalURLAnalysis url)));
    repeat split; intros; try lia; try reflexivity; try discriminate;
    apply Z.ltb_ge; lia.
Qed.

Lemma email_score_fired {P : Platform} email i :
  In i (CheckEmail.firedIndicators email) ->
  (Z.min (weightContribution i) 100
   <= CheckEmail.spamScore (CheckEmail.performLocalSpamDetection email))%Z.
Proof.
  intros Hin.
  pose proof (@totalWeight_In _ _ _
                (EmailFacts.firedIndicators_nonneg email) Hin) as Hle.
  revert Hle. unfold CheckEmail.firedIndicators,
    CheckEmail.performLocalSpamDetection.
  destruct (CheckEmail.emailParts email) as [[username domain]|].
  - rewrite runRules_eq. cbn [CheckEmail.spamScore]. lia.
  - cbn. lia.
Qed.

Lemma url_score_fired {P : Platform} url i :
  In i (CheckUrl.firedIndicators url) ->
  (Z.min (weightContribution i) 100
   <= CheckUrl.riskScore (CheckUrl.performLocalURLAnalysis url))%Z.
Proof.
  intros Hin.
  pose proof (@totalWeight_In _ _ _
                (UrlFacts.url_firedIndicators_nonneg url) Hin) as Hle.
  revert Hle. unfold CheckUrl.firedIndicators,
    CheckUrl.performLocalURLAnalysis, CheckUrl.tryBlock.
  destruct (parseURL url) as [urlObj|].
  - rewrite runRules_eq. cbn [CheckUrl.riskScore]. lia.
  - cbn. lia.
Qed.

End BandFacts.

(** X4.  No rule takes weight away, so one fired rule decides a lower
    bound of the result: the score is at least its weight, capped at
    100.  In the e-mail scorer a fired rule of weight 65 or more makes
    the result [invalid] and one of weight over 35 makes it spam and not
    [safe]; in the URL scorer a fired rule of weight 60 or more makes
    the result [dangerous] and one of weight 30 or more makes it not
    safe. *)
Theorem heavy_rule_forces_band (P : Platform) :
  (forall (email : jsstring) (i : Indicator CheckEmail.Rule),
     In i (CheckEmail.firedIndicators email) ->
     let r := CheckEmail.performLocalSpamDetection email in
     (Z.min (weightContribution i) 100 <= CheckEmail.spamScore r)%Z
     /\ ((65 <= weightContribution i)%Z ->
           CheckEmail.riskLevel r = CheckEmail.Invalid)
     /\ ((35 < weightContribution i)%Z ->
           CheckEmail.isSpam r = true
           /\ CheckEmail.riskLevel r <> CheckEmail.Safe))
  /\
  (forall (url : jsstring) (i : Indicator CheckUrl.Rule),
     In i (CheckUrl.firedIndicators url) ->
     let r := CheckUrl.performLocalURLAnalysis url in
     (Z.min (weightContribution i) 100 <= CheckUrl.riskScore r)%Z
     /\ ((60 <= weightContribution i)%Z ->
           CheckUrl.riskLevel r = CheckUrl.Dangerous)
     /\ ((30 <= weightContribution i)%Z ->
           CheckUrl.isSafe r = false
           /\ CheckUrl.riskLevel r <> CheckUrl.Safe)).
Proof.
  split.
  - intros email i Hin. cbv zeta.
    pose proof (BandFacts.email_score_fired email i Hin) as Hs.
    destruct (BandFacts.email_at_least email Hs) as [H65 [H35 Hsafe]].
    split; [exact Hs|]. split.
    + intros Hw. apply H65. lia.
    + intros Hw. split; [apply H35 | apply Hsafe]; lia.
  - intros url i Hin. cbv zeta.
    pose proof (BandFacts.url_score_fired url i Hin) as Hs.
    destruct (BandFacts.url_at_least url Hs) as [H60 [H30 Hsafe]].
    split; [exact Hs|]. split.
    + intros Hw. apply H60. lia.
    + intros Hw. split; [apply H30 | apply Hsafe]; lia.
Qed.

(** [heavy_rule_forces_band] on [http://example.com/], where the rule
    for a missing [https:] fires with weight 50. *)
Lemma heavy_rule_forces_band_witness :
  let r := CheckUrl.performLocalURLAnalysis (P := Samples.platform)
             (js "http://example.com/") in
  (50 <= CheckUrl.riskScore r)%Z
  /\ CheckUrl.isSafe r = false
  /\ CheckUrl.riskLevel r <> CheckUrl.Safe.
Proof.
  cbv zeta.
  destruct (proj2 (heavy_rule_forces_band Samples.platform)
              (js "http://example.com/")
              (CheckUrl.ind CheckUrl.NoHttps
                 (CheckUrl.SIREN ++ js " NO SSL/HTTPS: Website does not use secure encryption")
                 50))
    as [Hscore [_ Hunsafe]].
  - vm_compute. left. reflexivity.
  - split; [exact Hscore|]. apply Hunsafe. vm_compute. discriminate.
Defined.

(** X5.  A URL that parses and whose protocol is not [https:] is never
    reported safe by the scorer: the rule for the missing encryption
    fires, its text is in the result, the score is at least 50, and the
    level is [suspicious] or [dangerous]. *)
Theorem plain_http_is_never_safe (P : Platform) (url : jsstring)
        (urlObj : URLObject) :
  parseURL url = Some urlObj ->
  protocol urlObj <> js "https:" ->
  let r := CheckUrl.performLocalURLAnalysis url in
  (50 <= CheckUrl.riskScore r)%Z
  /\ CheckUrl.isSafe r = false
  /\ CheckUrl.riskLevel r <> CheckUrl.Safe
  /\ In (CheckUrl.SIREN ++ js " NO SSL/HTTPS: Website does not use secure encryption")
        (CheckUrl.indicators r).
Proof.
  intros Hparse Hproto. cbv zeta.
  apply StrFacts.eqb_neq in Hproto.
  assert (Hin : In (CheckUrl.ind CheckUrl.NoHttps
                      (CheckUrl.SIREN ++ js " NO SSL/HTTPS: Website does not use secure encryption") 50)
                   (CheckUrl.firedIndicators url)).
  { unfold CheckUrl.firedIndicators. rewrite Hparse.
    unfold CheckUrl.ruleFirings. cbv zeta. rewrite Hproto.
    apply in_or_app. left. left. reflexivity. }
  pose proof (BandFacts.url_score_fired url _ Hin) as Hs.
  cbn [weightContribution CheckUrl.ind] in Hs.
  destruct (@BandFacts.url_at_least _ url 50) as [_ [H30 Hsafe]]; [lia|].
  split; [lia|]. split; [apply H30; lia|]. split; [apply Hsafe; lia|].
  destruct (UrlFacts.performLocalURLAnalysis_scored _ Hparse) as [Hind _].
  rewrite Hind. unfold CheckUrl.firedIndicators in Hin.
  rewrite Hparse in Hin.
  apply (in_map (@description _)) in Hin. exact Hin.
Qed.

(** [plain_http_is_never_safe] on [http://example.com/]. *)
Lemma plain_http_is_never_safe_witness :
  let r := CheckUrl.performLocalURLAnalysis (P := Samples.platform)
             (js "http://example.com/") in
  (50 <= CheckUrl.riskScore r)%Z
  /\ CheckUrl.isSafe r = false
  /\ CheckUrl.riskLevel r <> CheckUrl.Safe
  /\ In (CheckUrl.SIREN ++ js " NO SSL/HTTPS: Website does not use secure encryption")
        (CheckUrl.indicators r).
Proof.
  apply (@plain_http_is_never_safe Samples.platform
           (js "http://example.com/")
           {| hostname := js "example.com"; protocol := js "http:";
              pathname := js "/"; searchKeys := []; port := [] |}).
  - reflexivity.
  - vm_compute. discriminate.
Defined.

(** ** Splitting and joining *)

Module SplitJoinFacts.

Import StrFacts SplitFacts.

Lemma split_cons (c x : N) (s : jsstring) :
  split c (x :: s)
  = if N.eqb x c then [] :: split c s
    else (x :: hd [] (split c s)) :: tl (split c s).
Proof.
  cbn [split]. destruct (N.eqb x c); [reflexivity|].
  pose proof (split_nonempty c s).
  destruct (split c s); [congruence | reflexivity].
Qed.

(** One piece more than there are separators. *)
Lemma split_length (c : N) (s : jsstring) :
  List.length (split c s) = S (countUnit c s).
Proof.
  induction s as [|x s IH]; [reflexivity|].
  rewrite split_cons, countUnit_cons.
  pose proof (split_nonempty c s).
  destruct (N.eqb x c); cbn [List.length]; [congruence|].
  destruct (split c s); [congruence|]. cbn [tl List.length] in *. exact IH.
Qed.

(** Joining the pieces with the separator gives the string back. *)
Lemma join_split (c : N) (s : jsstring) : join [c] (split c s) = s.
Proof.
  induction s as [|x s IH]; [reflexivity|].
  rewrite split_cons. pose proof (split_nonempty c s) as Hne.
  destruct (N.eqb x c) eqn:Hx.
  - apply N.eqb_eq in Hx. subst x.
    destruct (split c s) as [|p ps] eqn:Hs; [congruence|].
    cbn [join]. cbn [app]. rewrite <- IH. reflexivity.
  - destruct (split c s) as [|p ps] eqn:Hs; [congruence|].
    cbn [hd tl]. rewrite <- IH. destruct ps; reflexivity.
Qed.

(** No piece contains the separator, and pieces are made of units of the
    string. *)
Lemma split_pieces (c : N) (s : jsstring) :
  forall p, In p (split c s) -> ~ In c p /\ (forall x, In x p -> In x s).
Proof.
  induction s as [|x s IH]; intros p.
  - intros [<- | []]. split; [intros [] | tauto].
  - rewrite split_cons. pose proof (split_nonempty c s) as Hne.
    destruct (N.eqb x c) eqn:Hx.
    + intros [<- | Hin]; [split; [intros [] | intros y []]|].
      destruct (IH p Hin) as [H1 H2]. split; [exact H1|].
      intros y Hy. right. auto.
    + apply N.eqb_neq in Hx.
      destruct (split c s) as [|q qs]; [congruence|]. cbn [hd tl].
      intros [<- | Hin].
      * destruct (IH q (or_introl eq_refl)) as [H1 H2]. split.
        -- intros [Heq | Hc]; [congruence | contradiction].
        -- intros y [<- | Hy]; [left; reflexivity | right; auto].
      * destruct (IH p (or_intror Hin)) as [H1 H2]. split; [exact H1|].
        intros y Hy. right. auto.
Qed.

Lemma countUnit_zero (c : N) (s : jsstring) :
  countUnit c s = 0 <-> ~ In c s.
Proof.
  induction s as [|x s IH]; [simpl; tauto|].
  rewrite countUnit_cons. destruct (N.eqb x c) eqn:Hx.
  - apply N.eqb_eq in Hx. subst. split; [discriminate|].
    intros H. exfalso. apply H. left. reflexivity.
  - apply N.eqb_neq in Hx. rewrite IH. simpl. tauto.
Qed.

(** Joining a list is joining its first [k] elements, the separator, and
    the rest. *)
Lemma join_firstn_skipn (sep : jsstring) (k : nat) :
  forall l : list jsstring,
    0 < k < List.length l ->
    join sep (firstn k l) ++ sep ++ join sep (skipn k l) = join sep l.
Proof.
  induction k as [|k IH]; intros l Hk; [lia|].
  destruct l as [|p [|q l]]; cbn [List.length] in Hk; try lia.
  destruct k as [|k].
  - reflexivity.
  - cbn [firstn skipn]. specialize (IH (q :: l)).
    cbn [firstn skipn List.length] in IH.
    change (join sep (p :: q :: firstn k l))
      with (p ++ sep ++ join sep (q :: firstn k l)).
    change (join sep (p :: q :: l)) with (p ++ sep ++ join sep (q :: l)).
    rewrite <- IH by lia. rewrite <- !app_assoc. reflexivity.
Qed.

End SplitJoinFacts.

(** X6.  The e-mail scorer takes the last two labels of the domain as
    its base domain and, for a domain of more than two labels, the
    labels before them as its subdomain.  A domain of at most two labels
    is its own base domain and has the empty subdomain; a longer one is
    its subdomain, a dot and its base domain, and the base domain then
    has exactly two labels.  A base domain never has more than one
    dot. *)
Theorem domain_recomposes (domain : jsstring) :
  let domainParts := split DOT domain in
  let baseDomain := join [DOT] (lastN 2 domainParts) in
  let subdomain :=
    if Nat.ltb 2 (List.length domainParts)
    then join [DOT] (dropLastN 2 domainParts) else [] in
  (List.length domainParts <= 2 -> baseDomain = domain /\ subdomain = [])
  /\ (2 < List.length domainParts ->
        subdomain ++ [DOT] ++ baseDomain = domain
        /\ countUnit DOT baseDomain = 1
        /\ List.length (split DOT baseDomain) = 2)
  /\ countUnit DOT baseDomain <= 1.
Proof.
  cbv zeta. unfold lastN, dropLastN.
  pose proof (SplitJoinFacts.join_split DOT domain) as Hjoin.
  pose proof (SplitJoinFacts.split_pieces DOT domain) as Hpieces.
  set (parts := split DOT domain) in *.
  assert (Hbase : forall l : list jsstring,
            (forall p, In p l -> ~ In DOT p) ->
            countUnit DOT (join [DOT] l) = List.length l - 1).
  { induction l as [|p [|q l] IH]; intros Hl.
    - reflexivity.
    - cbn [join List.length]. apply SplitJoinFacts.countUnit_zero.
      apply Hl. left. reflexivity.
    - change (join [DOT] (p :: q :: l)) with (p ++ [DOT] ++ join [DOT] (q :: l)).
      unfold countUnit in *. rewrite !filter_app, !length_app.
      rewrite IH by (intros r Hr; apply Hl; right; exact Hr).
      assert (Hp : List.length (filter (N.eqb DOT) p) = 0)
        by (apply SplitJoinFacts.countUnit_zero, Hl; left; reflexivity).
      rewrite Hp. cbn [List.length filter N.eqb]. simpl. lia. }
  assert (Hskip : forall p, In p (skipn (List.length parts - 2) parts) ->
                            ~ In DOT p).
  { intros p Hp. apply Hpieces.
    rewrite <- (firstn_skipn (List.length parts - 2) parts).
    apply in_or_app. right. exact Hp. }
  assert (Hlen : List.length (skipn (List.length parts - 2) parts)
                 = Nat.min 2 (List.length parts))
    by (rewrite length_skipn; lia).
  split; [|split].
  - intros Hle. destruct (Nat.ltb_spec 2 (List.length parts)); [lia|].
    split; [|reflexivity].
    replace (List.length parts - 2) with 0 by lia.
    cbn [skipn]. exact Hjoin.
  - intros Hgt. destruct (Nat.ltb_spec 2 (List.length parts)); [|lia].
    rewrite SplitJoinFacts.join_firstn_skipn by lia.
    split; [exact Hjoin|].
    rewrite SplitJoinFacts.split_length, (Hbase _ Hskip), Hlen.
    split; lia.
  - rewrite (Hbase _ Hskip), Hlen. lia.
Qed.

(** [domain_recomposes] on [mail.example.com]. *)
Lemma domain_recomposes_witness :
  let domainParts := split DOT (js "mail.example.com") in
  let baseDomain := join [DOT] (lastN 2 domainParts) in
  let subdomain :=
    if Nat.ltb 2 (List.length domainParts)
    then join [DOT] (dropLastN 2 domainParts) else [] in
  subdomain ++ [DOT] ++ baseDomain = js "mail.example.com"
  /\ countUnit DOT baseDomain = 1
  /\ List.length (split DOT baseDomain) = 2.
Proof.
  apply (proj1 (proj2 (domain_recomposes (js "mail.example.com")))).
  vm_compute. lia.
Defined.

(** ** Single rules of the URL scorer *)



(** ** Single rules of the e-mail scorer *)

Module PatternFacts.

Import RegexFacts.

Lemma Matches_lit ci (s : jsstring) : Matches ci (lit s) s.
Proof.
  induction s as [|c s IH]; cbn [lit]; [constructor|].
  change (c :: s) with ([c] ++ s). constructor; [|exact IH].
  constructor. unfold inClass, inRanges. cbn [existsb fst snd].
  rewrite N.leb_refl. reflexivity.
Qed.

Lemma Matches_alts ci (l : list re) (r : re) (s : jsstring) :
  In r l -> Matches ci r s -> Matches ci (alts l) s.
Proof.
  induction l as [|r0 [|r1 l] IH]; intros Hin Hm.
  - destruct Hin.
  - destruct Hin as [<- | []]. exact Hm.
  - change (alts (r0 :: r1 :: l)) with (Alt r0 (alts (r1 :: l))).
    destruct Hin as [<- | Hin]; [apply MAltL; exact Hm|].
    apply MAltR. apply IH; assumption.
Qed.

Lemma Matches_words ci (l : list string) (w : string) :
  In w l -> Matches ci (words l) (js w).
Proof.
  intros Hin. unfold words. apply Matches_alts with (r := word w).
  - apply in_map. exact Hin.
  - apply Matches_lit.
Qed.

(** A one-unit class matches one unit of the class. *)
Lemma Matches_Cls ci ranges (s : jsstring) :
  Matches ci (Cls ranges) s ->
  exists c, s = [c] /\ inClass ci ranges c = true.
Proof. intros H. inversion H; subst. eauto. Qed.

(** [/r/.test(s)] for a class [r]: some unit of [s] is in the class. *)
Lemma test_Cls ci ranges (s : jsstring) :
  test ci (Cls ranges) s = true
  <-> exists c, In c s /\ inClass ci ranges c = true.
Proof.
  rewrite test_Matches. split.
  - intros [before [m [after [-> Hm]]]].
    apply Matches_Cls in Hm. destruct Hm as [c [-> Hc]].
    exists c. split; [|exact Hc].
    apply in_or_app. right. left. reflexivity.
  - intros [c [Hin Hc]]. apply in_split in Hin.
    destruct Hin as [before [after ->]].
    exists before, [c], after. split; [reflexivity|].
    constructor. exact Hc.
Qed.

(** What the look-ahead [(?=[a-z]*@)] needs: an [@] further on. *)
Lemma ahead_needs_at (s : jsstring) :
  testAhead false (chr "I") (Seq (Star CheckEmail.lowerLetter) (chr "@")) s
  = true -> In AT s.
Proof.
  intros H. apply testAhead_Matches in H.
  destruct H as [before [m [after [-> [_ [w [rest [-> Hw]]]]]]]].
  inversion Hw as [| | |r0 s0 u v Hu Hv Hr Hs| | | |]; subst.
  apply Matches_Cls in Hv. destruct Hv as [c [-> Hc]].
  unfold inClass, inRanges in Hc. cbn in Hc.
  rewrite !orb_false_r, andb_true_iff, !N.leb_le in Hc.
  assert (c = AT) by (unfold AT; lia). subst c.
  apply in_or_app. right. apply in_or_app. right.
  apply in_or_app. left. apply in_or_app. right. left. reflexivity.
Qed.

End PatternFacts.

(** X8.  An address whose domain contains one of the brand names of the
    combination patterns, directly followed by a hyphen or a dot, is
    flagged as a combination attack: the score is at least 45, the
    address is spam and its level is not [safe].  The official domains
    of the brands, such as [paypal.com], are among them. *)
Theorem combo_rule_flags_brand_domains (P : Platform)
        (email username domain : jsstring) :
  CheckEmail.emailParts email = Some (username, domain) ->
  forall (brand : string) (separator : N) (before after : jsstring),
    In brand ["amazon"; "paypal"; "apple"; "microsoft"; "google";
              "netflix"; "facebook"; "chase"; "bank"; "citibank"; "wells";
              "fargo"]%string ->
    separator = HYPHEN \/ separator = DOT ->
    domain = before ++ js brand ++ [separator] ++ after ->
    let r := CheckEmail.performLocalSpamDetection email in
    (45 <= CheckEmail.spamScore r)%Z
    /\ CheckEmail.isSpam r = true
    /\ CheckEmail.riskLevel r <> CheckEmail.Safe.
Proof.
  intros Hparts brand separator before after Hbrand Hsep Hdom. cbv zeta.
  assert (Hsepm : Matches true CheckEmail.hyphenOrDot [separator]).
  { constructor. destruct Hsep as [-> | ->]; reflexivity. }
  assert (Hfire : exists name,
            In (CheckEmail.ind CheckEmail.ComboDomain
                  (js "Combo domain attack: Uses " ++ name
                      ++ js " name in suspicious context") 45)
               (CheckEmail.comboRule domain)).
  { unfold CheckEmail.comboRule, CheckEmail.suspiciousComboPatterns.
    cbn [flat_map fst snd].
    assert (Hin7 : In brand ["amazon"; "paypal"; "apple"; "microsoft";
                             "google"; "netflix"; "facebook"]%string
                   \/ In brand ["chase"; "bank"; "citibank"; "wells";
                                "fargo"]%string).
    { cbn [In] in Hbrand |- *. tauto. }
    destruct Hin7 as [Hin | Hin].
    - exists (js "major tech/retail brand").
      match goal with
      | |- In _ (when ?c _ ++ _) =>
          assert (Hc : c = true);
          [|rewrite Hc; left; reflexivity]
      end.
      apply RegexFacts.test_Matches.
      exists before, (js brand ++ [separator]), after.
      split; [rewrite Hdom, <- app_assoc; reflexivity|].
      constructor; [apply PatternFacts.Matches_words; exact Hin|].
      exact Hsepm.
    - exists (js "financial institution").
      apply in_or_app. right.
      match goal with
      | |- In _ (when ?c _ ++ _) =>
          assert (Hc : c = true);
          [|rewrite Hc; left; reflexivity]
      end.
      apply RegexFacts.test_Matches.
      exists before, (js brand ++ [separator]), after.
      split; [rewrite Hdom, <- app_assoc; reflexivity|].
      constructor; [apply PatternFacts.Matches_words; exact Hin|].
      exact Hsepm. }
  destruct Hfire as [name Hfire].
  assert (Hin : In (CheckEmail.ind CheckEmail.ComboDomain
                      (js "Combo domain attack: Uses " ++ name
                          ++ js " name in suspicious context") 45)
                   (CheckEmail.firedIndicators email)).
  { unfold CheckEmail.firedIndicators. rewrite Hparts.
    unfold CheckEmail.ruleFirings. cbv zeta.
    do 3 (apply in_or_app; right). apply in_or_app. left. exact Hfire. }
  pose proof (BandFacts.email_score_fired email _ Hin) as Hs.
  cbn [weightContribution CheckEmail.ind] in Hs.
  destruct (@BandFacts.email_at_least _ email 45) as [_ [H35 Hsafe]]; [lia|].
  split; [lia|]. split; [apply H35 | apply Hsafe]; lia.
Qed.

(** [combo_rule_flags_brand_domains] on [billing@paypal.com]. *)
Lemma combo_rule_flags_brand_domains_witness :
  let r := CheckEmail.performLocalSpamDetection (P := Samples.platform)
             (js "billing@paypal.com") in
  (45 <= CheckEmail.spamScore r)%Z
  /\ CheckEmail.isSpam r = true
  /\ CheckEmail.riskLevel r <> CheckEmail.Safe.
Proof.
  apply (@combo_rule_flags_brand_domains Samples.platform
           (js "billing@paypal.com") (js "billing") (js "paypal.com")
           eq_refl "paypal"%string DOT [] (js "com")).
  - simpl. tauto.
  - right. reflexivity.
  - reflexivity.
Defined.

Module DescriptionFacts.

Import CheckEmail.

Lemma typosquattingLoop_desc target domain baseDomain entries :
  (forall x, SIREN ++ js " TYPOSQUATTING CONFIRMED: " ++ x <> target) ->
  (forall x, WARNING ++ js " TYPOSQUATTING (fuzzy match): " ++ x <> target) ->
  Forall (fun i : Indicator Rule => description i <> target)
         (typosquattingLoop domain baseDomain entries).
Proof.
  intros Hexact Hfuzzy.
  induction entries as [|[legitimate typos] rest IH];
    cbn [typosquattingLoop]; [constructor|].
  match goal with |- context [if ?c then _ else _] => destruct c end;
    repeat first [ apply Forall_nil
                 | assumption
                 | apply Forall_when; apply Hexact
                 | apply Forall_cons; [apply Hfuzzy|]
                 | apply Forall_app; split ].
Qed.

Lemma keyboardLoop_desc target baseDomain entries :
  (forall x, js "Keyboard proximity typo: " ++ x <> target) ->
  Forall (fun i : Indicator Rule => description i <> target)
         (keyboardLoop baseDomain entries).
Proof.
  intros Hkey.
  induction entries as [|[legitimate typos] rest IH];
    cbn [keyboardLoop]; [constructor|].
  match goal with |- context [if ?c then _ else _] => destruct c end;
    [apply Forall_cons; [apply Hkey | constructor] | exact IH].
Qed.

End DescriptionFacts.

(** Goes through the firings of the e-mail scorer for a property of the
    descriptions that holds by their first units. *)
Ltac email_descriptions :=
  repeat first
    [ apply DescriptionFacts.typosquattingLoop_desc;
      intros ? Heq; discriminate Heq
    | apply DescriptionFacts.keyboardLoop_desc;
      intros ? Heq; discriminate Heq
    | apply Forall_nil
    | apply Forall_when; unfold CheckEmail.ind; cbn [description];
      intros Heq; discriminate Heq
    | apply Forall_cons;
      [unfold CheckEmail.ind; cbn [description];
       intros Heq; discriminate Heq|]
    | apply Forall_app; split
    | match goal with
      | |- Forall _ (match ?x with _ => _ end) => destruct x
      end
    | progress unfold CheckEmail.suffixRule, CheckEmail.keywordRule,
        CheckEmail.randomnessRules, CheckEmail.comboRule,
        CheckEmail.substitutionRule, CheckEmail.becRule,
        CheckEmail.expiredRule, CheckEmail.homoglyphDomainRule,
        CheckEmail.suspiciousComboPatterns, CheckEmail.substitutionPatterns,
        CheckEmail.BECPatterns, CheckEmail.homoglyphPatterns
    | progress cbn [flat_map fst snd] ].

(** X9.  Two rules of the e-mail scorer test the domain, which is a
    piece of the lower-cased address split at [@].  The homoglyph
    pattern for a capital I looks ahead for an [@], which no such piece
    contains: its indicator is in no result.  The rule for upper-case
    letters in the domain needs a letter A to Z: its indicator is in no
    result when lower-casing leaves none. *)
Theorem dead_rules_of_the_email_scorer (P : Platform) (email : jsstring) :
  let r := CheckEmail.performLocalSpamDetection email in
  ~ In (js "Homoglyph attack in domain: Capital I/lowercase l in domain")
       (CheckEmail.indicators r)
  /\ ((forall s c, In c (toLowerCase s) -> isUpperAscii c = false) ->
      ~ In (js "Mixed case in domain: Legitimate domains don't use uppercase")
           (CheckEmail.indicators r)).
Proof.
  cbv zeta.
  destruct (CheckEmail.emailParts email) as [[username domain]|] eqn:Hparts.
  - destruct (EmailFacts.performLocalSpamDetection_scored _ Hparts)
      as [Hind _].
    rewrite Hind.
    assert (Hpiece : In domain (split AT (toLowerCase email))).
    { unfold CheckEmail.emailParts in Hparts.
      destruct (split AT (toLowerCase email)) as [|u [|d rest]];
        try discriminate.
      destruct (eqb u [] || eqb d []); [discriminate|].
      injection Hparts as _ <-. right. left. reflexivity. }
    destruct (SplitJoinFacts.split_pieces _ _ _ Hpiece) as [Hnoat Hunits].
    split.
    + assert (Hdead : testAhead false (chr "I")
                        (Seq (Star CheckEmail.lowerLetter) (chr "@")) domain
                      = false).
      { destruct (testAhead _ _ _ domain) eqn:Ht; [|reflexivity].
        apply PatternFacts.ahead_needs_at in Ht. contradiction. }
      intros Hin. apply in_map_iff in Hin.
      destruct Hin as [i [Hdesc Hin]]. revert Hdesc.
      change ((fun j => description j <> js "Homoglyph attack in domain: Capital I/lowercase l in domain") i).
      revert i Hin. apply Forall_forall.
      unfold CheckEmail.ruleFirings. cbv zeta.
      email_descriptions.
      all: rewrite Hdead; apply Forall_nil.
    + intros Hlower.
      assert (Hdead : test false (Cls [(65, 90)%N]) domain = false).
      { destruct (test _ _ domain) eqn:Ht; [|reflexivity].
        apply PatternFacts.test_Cls in Ht. destruct Ht as [c [Hc Hup]].
        apply Hunits in Hc. apply Hlower in Hc.
        unfold inClass, inRanges in Hup. cbn in Hup.
        unfold isUpperAscii in Hc. rewrite !orb_false_r in Hup. congruence. }
      intros Hin. apply in_map_iff in Hin.
      destruct Hin as [i [Hdesc Hin]]. revert Hdesc.
      change ((fun j => description j <> js "Mixed case in domain: Legitimate domains don't use uppercase") i).
      revert i Hin. apply Forall_forall.
      unfold CheckEmail.ruleFirings. cbv zeta.
      email_descriptions.
      all: rewrite Hdead; apply Forall_nil.
  - unfold CheckEmail.performLocalSpamDetection. rewrite Hparts.
    cbn [CheckEmail.indicators CheckEmail.invalidFormat].
    split; [|intros _]; intros [H | []]; discriminate H.
Qed.

(** [asciiLower] leaves no letter A to Z. *)
Lemma asciiLower_no_upper (s : jsstring) (c : N) :
  In c (asciiLower s) -> isUpperAscii c = false.
Proof.
  unfold asciiLower. intros H. apply in_map_iff in H.
  destruct H as [x [<- _]].
  destruct (isUpperAscii x) eqn:Hx; [|exact Hx].
  unfold isUpperAscii in *. apply andb_true_iff in Hx.
  destruct Hx as [H1 H2]. apply N.leb_le in H1, H2.
  apply andb_false_iff. right. apply N.leb_gt. lia.
Qed.

(** [dead_rules_of_the_email_scorer] on [John.Doe@Example.ORG]. *)
Lemma dead_rules_of_the_email_scorer_witness :
  ~ In (js "Mixed case in domain: Legitimate domains don't use uppercase")
       (CheckEmail.indicators
          (CheckEmail.performLocalSpamDetection (P := Samples.platform)
             (js "John.Doe@Example.ORG"))).
Proof.
  apply (proj2 (@dead_rules_of_the_email_scorer Samples.platform
                  (js "John.Doe@Example.ORG"))).
  exact asciiLower_no_upper.
Defined.

Module QuadFacts.

Lemma Matches_digit ci (c : N) :
  isDigit c = true -> Matches ci digit [c].
Proof.
  intros H. constructor. unfold inClass, inRanges. cbn [existsb fst snd].
  unfold isDigit in H. rewrite H. reflexivity.
Qed.

Lemma Matches_digits ci (s : jsstring) :
  digits1to3 s -> Matches ci (oneToThree digit) s.
Proof.
  intros [Hlen Hdig]. unfold oneToThree, opt.
  destruct s as [|x [|y [|z [|w s]]]]; cbn [List.length] in Hlen; try lia.
  - change [x] with ([x] ++ [] ++ []).
    apply MSeq; [apply Matches_digit, Hdig; simpl; tauto|].
    apply MSeq; apply MAltR; apply MEps.
  - change [x; y] with ([x] ++ [y] ++ []).
    apply MSeq; [apply Matches_digit, Hdig; simpl; tauto|].
    apply MSeq; [apply MAltL, Matches_digit, Hdig; simpl; tauto|].
    apply MAltR. apply MEps.
  - change [x; y; z] with ([x] ++ [y] ++ [z]).
    apply MSeq; [apply Matches_digit, Hdig; simpl; tauto|].
    apply MSeq; apply MAltL, Matches_digit, Hdig; simpl; tauto.
Qed.

Lemma Matches_dot ci : Matches ci (chr ".") [DOT].
Proof. constructor. reflexivity. Qed.

Lemma Matches_quad (q s : re) :
  q = Seq (oneToThree digit) (Seq (chr ".")
     (Seq (oneToThree digit) (Seq (chr ".")
     (Seq (oneToThree digit) (Seq (chr ".") (oneToThree digit)))))) ->
  forall t, dottedQuadText t -> Matches false q t.
Proof.
  intros -> t [a [b [c [d [Ha [Hb [Hc [Hd ->]]]]]]]].
  repeat (apply MSeq;
          [first [apply Matches_digits; assumption | apply Matches_dot]|]).
  apply Matches_digits. assumption.
Qed.

End QuadFacts.

(** X10.  A raw IP address is a severe finding in both scorers.  An
    address whose domain contains four groups of one to three digits
    separated by dots scores at least 80 and is [invalid] and spam; a
    URL whose lower-cased host name is such a text scores at least 80
    and is [dangerous] and not safe. *)
Theorem raw_ip_address_is_severe (P : Platform) :
  (forall email username domain before quad after,
     CheckEmail.emailParts email = Some (username, domain) ->
     dottedQuadText quad ->
     domain = before ++ quad ++ after ->
     let r := CheckEmail.performLocalSpamDetection email in
     (80 <= CheckEmail.spamScore r)%Z
     /\ CheckEmail.riskLevel r = CheckEmail.Invalid
     /\ CheckEmail.isSpam r = true)
  /\
  (forall url urlObj,
     parseURL url = Some urlObj ->
     dottedQuadText (toLowerCase (hostname urlObj)) ->
     let r := CheckUrl.performLocalURLAnalysis url in
     (80 <= CheckUrl.riskScore r)%Z
     /\ CheckUrl.riskLevel r = CheckUrl.Dangerous
     /\ CheckUrl.isSafe r = false).
Proof.
  split.
  - intros email username domain before quad after Hparts Hquad Hdom.
    cbv zeta.
    assert (Htest : test false CheckEmail.dottedQuad domain = true).
    { apply RegexFacts.test_Matches. exists before, quad, after.
      split; [exact Hdom|].
      apply (QuadFacts.Matches_quad Any eq_refl). exact Hquad. }
    assert (Hin : In (CheckEmail.ind CheckEmail.IPAddress
                        (CheckEmail.SIREN ++ js " IP ADDRESS AS DOMAIN: Using raw IP instead of domain name (major red flag)")
                        80)
                     (CheckEmail.firedIndicators email)).
    { unfold CheckEmail.firedIndicators. rewrite Hparts.
      unfold CheckEmail.ruleFirings. cbv zeta. rewrite Htest.
      do 25 (apply in_or_app; right).
      pick_firing. }
    pose proof (BandFacts.email_score_fired email _ Hin) as Hs.
    cbn [weightContribution CheckEmail.ind] in Hs.
    destruct (@BandFacts.email_at_least _ email 80) as [H65 [H35 _]]; [lia|].
    split; [lia|]. split; [apply H65 | apply H35]; lia.
  - intros url urlObj Hparse Hquad. cbv zeta.
    assert (Htest : fullMatch false CheckUrl.dottedQuad
                              (toLowerCase (hostname urlObj)) = true).
    { apply RegexFacts.fullMatch_Matches.
      apply (QuadFacts.Matches_quad Any eq_refl). exact Hquad. }
    assert (Hin : In (CheckUrl.ind CheckUrl.IPAddress
                        (CheckUrl.SIREN ++ js " IP ADDRESS: Using raw IP instead of domain name (extremely suspicious)")
                        80)
                     (CheckUrl.firedIndicators url)).
    { unfold CheckUrl.firedIndicators. rewrite Hparse.
      unfold CheckUrl.ruleFirings. cbv zeta. rewrite Htest.
      pick_firing. }
    pose proof (BandFacts.url_score_fired url _ Hin) as Hs.
    cbn [weightContribution CheckUrl.ind] in Hs.
    destruct (@BandFacts.url_at_least _ url 80) as [H60 [H30 _]]; [lia|].
    split; [lia|]. split; [apply H60 | apply H30]; lia.
Qed.

(** [192.168.0.1] is a dotted quad. *)
Lemma sample_quad : dottedQuadText (js "192.168.0.1").
Proof.
  exists (js "192"), (js "168"), (js "0"), (js "1").
  assert (Hd : forall s : jsstring,
            forallb isDigit s = true -> forall c, In c s -> isDigit c = true)
    by (intros s Hs; apply forallb_forall; exact Hs).
  repeat split; try (cbn; lia); apply Hd; reflexivity.
Qed.

(** [raw_ip_address_is_severe] on [admin@192.168.0.1] and on
    [https://192.168.0.1/login]. *)
Lemma raw_ip_address_is_severe_witness :
  (let r := CheckEmail.performLocalSpamDetection (P := Samples.platform)
              (js "admin@192.168.0.1") in
   (80 <= CheckEmail.spamScore r)%Z
   /\ CheckEmail.riskLevel r = CheckEmail.Invalid
   /\ CheckEmail.isSpam r = true)
  /\
  (let r := CheckUrl.performLocalURLAnalysis (P := Samples.platform)
              (js "https://192.168.0.1/login") in
   (80 <= CheckUrl.riskScore r)%Z
   /\ CheckUrl.riskLevel r = CheckUrl.Dangerous
   /\ CheckUrl.isSafe r = false).
Proof.
  split.
  - apply (proj1 (raw_ip_address_is_severe Samples.platform)
             (js "admin@192.168.0.1") (js "admin") (js "192.168.0.1")
             [] (js "192.168.0.1") [] eq_refl sample_quad eq_refl).
  - apply (proj2 (raw_ip_address_is_severe Samples.platform)
             (js "https://192.168.0.1/login")
             (Fixtures.urlObject "192.168.0.1" "/login")
             eq_refl sample_quad).
Defined.

(** X11.  [detectHomoglyphAttack] answers false on every text of ASCII
    units, and true on every text with a unit in the Greek and Cyrillic
    ranges U+0370 to U+052F. *)
Theorem homoglyph_detection (email : jsstring) :
  ((forall c, In c email -> (c < 128)%N) ->
   CheckEmail.detectHomoglyphAttack email = false)
  /\ (forall c, In c email -> (880 <= c <= 1327)%N ->
      CheckEmail.detectHomoglyphAttack email = true).
Proof.
  unfold CheckEmail.detectHomoglyphAttack. split.
  - intros Hascii. apply orb_false_iff. split.
    + apply not_true_is_false. intros H. apply existsb_exists in H.
      destruct H as [key [Hkey Hinc]].
      apply StrFacts.includes_substring in Hinc.
      destruct Hinc as [before [after ->]].
      assert (Hfirst : exists c rest, key = c :: rest /\ (128 <= c)%N).
      { unfold CheckEmail.cyrillicToLatin in Hkey. cbn [In] in Hkey.
        repeat destruct Hkey as [<- | Hkey];
          try (eexists; eexists; split; [reflexivity | lia]).
        destruct Hkey. }
      destruct Hfirst as [c [rest [-> Hc]]].
      specialize (Hascii c). assert (c < 128)%N; [|lia].
      apply Hascii. apply in_or_app. right. left. reflexivity.
    + apply not_true_is_false. intros H. apply existsb_exists in H.
      destruct H as [range [Hrange Ht]].
      unfold CheckEmail.suspiciousRanges in Hrange. cbn [In] in Hrange.
      repeat destruct Hrange as [<- | Hrange]; try destruct Hrange;
        apply PatternFacts.test_Cls in Ht; destruct Ht as [c [Hc Hin]];
        apply Hascii in Hc; unfold inClass, inRanges in Hin; cbn in Hin;
        rewrite !orb_false_r, andb_true_iff, !N.leb_le in Hin; lia.
  - intros c Hin Hc. apply orb_true_iff. right.
    apply existsb_exists.
    assert (Hcase : (880 <= c <= 1023)%N \/ (1024 <= c <= 1279)%N
                    \/ (1280 <= c <= 1327)%N) by lia.
    assert (Hrange : forall lo hi, (lo <= c <= hi)%N ->
                       inClass false [(lo, hi)] c = true).
    { intros lo hi Hb. unfold inClass, inRanges. cbn [existsb fst snd].
      rewrite !orb_false_r. apply andb_true_iff.
      split; apply N.leb_le; lia. }
    destruct Hcase as [H | [H | H]].
    + exists (Cls [(880, 1023)%N]). split; [simpl; tauto|].
      apply PatternFacts.test_Cls. exists c. auto.
    + exists (Cls [(1024, 1279)%N]). split; [simpl; tauto|].
      apply PatternFacts.test_Cls. exists c. auto.
    + exists (Cls [(1280, 1327)%N]). split; [simpl; tauto|].
      apply PatternFacts.test_Cls. exists c. auto.
Qed.

(** [homoglyph_detection] on [john.doe@example.org] and on the same
    address with the Cyrillic letter U+0430 for its [a]. *)
Lemma homoglyph_detection_witness :
  CheckEmail.detectHomoglyphAttack (js "john.doe@example.org") = false
  /\ CheckEmail.detectHomoglyphAttack
       (js "john.doe@ex" ++ [1072%N] ++ js "mple.org") = true.
Proof.
  split.
  - apply (proj1 (homoglyph_detection (js "john.doe@example.org"))).
    apply Forall_forall. vm_compute.
    repeat (constructor; [reflexivity|]). constructor.
  - apply (proj2 (homoglyph_detection
                    (js "john.doe@ex" ++ [1072%N] ++ js "mple.org"))
             1072%N).
    + apply in_or_app. right. left. reflexivity.
    + lia.
Defined.

Module TypoFacts.

Import CheckEmail.



End TypoFacts.



(** ** The redirect chain *)

Module ChainFacts.

Import CheckUrl ResolverFacts.

Section Chain.

Context {P : Platform}.
Variable net : Network.

(** Every iteration passed so far found time left. *)
Lemma hops_time st st' :
  hops net st st' ->
  forall j, attempts st <= j < attempts st' ->
            (elapsed net j < totalTimeLimit)%Z.
Proof.
  induction 1 as [st|st st1 st2 Hg Hit _ IH]; intros j Hj; [lia|].
  destruct (iteration_Some net _ Hit) as [u [_ Hst1]].
  assert (Hatt : attempts st1 = S (attempts st))
    by (rewrite Hst1; reflexivity).
  destruct (Nat.eq_dec j (attempts st)) as [-> | Hne].
  - unfold guard in Hg. apply andb_true_iff in Hg.
    destruct Hg as [_ Ht]. apply Z.ltb_lt in Ht. exact Ht.
  - apply IH. lia.
Qed.

Lemma linked_snoc n (l : list jsstring) : forall a b,
  linked net n (l ++ [a]) ->
  redirectsTo net (n + List.length l) a b ->
  linked net n (l ++ [a; b]).
Proof.
  revert n. induction l as [|x l IH]; intros n a b Hl Hab.
  - cbn in *. rewrite Nat.add_0_r in Hab. auto.
  - destruct l as [|y l].
    + cbn in *. destruct Hl as [Hxa _].
      rewrite Nat.add_1_r in Hab. auto.
    + cbn [app linked] in *. destruct Hl as [Hxy Hrest].
      split; [exact Hxy|].
      apply (IH (S n) a b Hrest).
      cbn [List.length] in Hab. rewrite Nat.add_succ_r in Hab. exact Hab.
Qed.

Lemma iteration_redirects st st' :
  iteration net st = Some st' ->
  redirectsTo net (attempts st) (nextUrl st) (nextUrl st').
Proof.
  unfold iteration, redirectsTo.
  destruct (head net (attempts st) (nextUrl st))
    as [|status [location|]] eqn:Hhead; try discriminate;
    (destruct ((300 <=? status) && (status <? 400))%Z eqn:Hs;
     [|discriminate]); [|discriminate].
  apply andb_true_iff in Hs. destruct Hs as [H1 H2].
  apply Z.leb_le in H1. apply Z.ltb_lt in H2.
  destruct location as [|c location]; [discriminate|].
  destruct (target st (c :: location)) as [redirectUrl|] eqn:Ht;
    [|discriminate].
  destruct (mem redirectUrl (loopChain st)); [discriminate|].
  intros H. injection H as <-. cbn [nextUrl].
  exists status, (c :: location).
  split; [reflexivity|]. split; [lia|]. split; [discriminate|]. exact Ht.
Qed.

(** The chain is made of real hops, and ends with [nextUrl]. *)
Lemma hops_linked url st st' :
  hops net st st' ->
  Inv url st ->
  linked net 0 (loopChain st) ->
  linked net 0 (loopChain st').
Proof.
  induction 1 as [st|st st1 st2 Hg Hit _ IH]; intros Hinv Hl; [exact Hl|].
  apply IH; [apply (Inv_iteration net Hinv Hg Hit)|].
  pose proof (iteration_redirects _ Hit) as Hred.
  destruct (iteration_Some net _ Hit) as [u [_ Hst1]].
  rewrite Hst1 in *. cbn [loopChain nextUrl] in *.
  destruct Hinv as [Hc Hlast Hh Hn Hlen Hb].
  assert (Hsplit : exists front, loopChain st = front ++ [nextUrl st]).
  { destruct (loopChain st) as [|x l] eqn:Hch; [discriminate|].
    exists (removelast (x :: l)).
    rewrite <- Hc, <- Hlast.
    apply app_removelast_last. discriminate. }
  destruct Hsplit as [front Hfront].
  rewrite Hfront, <- app_assoc. cbn [app].
  apply linked_snoc; [rewrite <- Hfront; exact Hl|].
  assert (Hidx : List.length front = attempts st).
  { rewrite Hfront, length_app in Hlen. cbn in Hlen. lia. }
  rewrite Hidx. exact Hred.
Qed.

End Chain.

End ChainFacts.

(** X13.  The chain [resolveURLRedirects] answers starts with the input
    URL, ends with the final URL, holds no URL twice and holds between
    one and six URLs; every URL of it but the first is the target of a
    redirect answer, with a [location] header, to the probe of the URL
    before it. *)
Theorem redirect_chain_shape (P : Platform) (net : CheckUrl.Network)
        (url : jsstring) :
  let r := CheckUrl.resolveURLRedirects net url in
  hd url (CheckUrl.chain r) = url
  /\ CheckUrl.finalUrl r = last (CheckUrl.chain r) url
  /\ NoDup (CheckUrl.chain r)
  /\ 1 <= List.length (CheckUrl.chain r) <= 6
  /\ linked net 0 (CheckUrl.chain r).
Proof.
  cbv zeta. unfold CheckUrl.resolveURLRedirects.
  destruct (parseURL url) as [urlObj|].
  - cbn [CheckUrl.chain CheckUrl.finalUrl]. fold (CheckUrl.initial url).
    destruct (@ResolverFacts.loop_stops P net CheckUrl.maxRedirects
                (CheckUrl.initial url)) as [Hhops _].
    { cbn [CheckUrl.initial CheckUrl.attempts]. lia. }
    pose proof (ResolverFacts.Inv_hops Hhops
                  (ResolverFacts.Inv_initial url)) as Hinv.
    pose proof (ChainFacts.hops_linked Hhops
                  (ResolverFacts.Inv_initial url) I) as Hlinked.
    destruct Hinv as [Hc Hl Hh Hn Hlen Hb].
    set (st := CheckUrl.loop net CheckUrl.maxRedirects
                 (CheckUrl.initial url)) in *.
    unfold CheckUrl.maxRedirects in Hb.
    split; [exact Hh|]. split; [symmetry; exact Hl|].
    split; [exact Hn|]. split; [lia|]. exact Hlinked.
  - cbn [CheckUrl.chain CheckUrl.finalUrl hd last List.length linked].
    split; [reflexivity|]. split; [reflexivity|].
    split; [constructor; [intros [] | constructor]|].
    split; [lia|]. exact I.
Qed.

(** X14.  The resolver follows no redirect after its time limit: when
    5000 ms or more have passed at the start of iteration [k], the
    chain holds at most [k + 1] URLs. *)
Theorem redirect_time_budget (P : Platform) (net : CheckUrl.Network)
        (url : jsstring) (k : nat) :
  (CheckUrl.totalTimeLimit <= CheckUrl.elapsed net k)%Z ->
  List.length (CheckUrl.chain (CheckUrl.resolveURLRedirects net url))
  <= S k.
Proof.
  intros Hk. unfold CheckUrl.resolveURLRedirects.
  destruct (parseURL url) as [urlObj|]; [|cbn; lia].
  cbn [CheckUrl.chain]. fold (CheckUrl.initial url).
  destruct (@ResolverFacts.loop_stops P net CheckUrl.maxRedirects
              (CheckUrl.initial url)) as [Hhops _].
  { cbn [CheckUrl.initial CheckUrl.attempts]. lia. }
  pose proof (ResolverFacts.Inv_hops Hhops
                (ResolverFacts.Inv_initial url)) as Hinv.
  pose proof (ChainFacts.hops_time Hhops) as Htime.
  destruct Hinv as [_ _ _ _ Hlen _].
  set (st := CheckUrl.loop net CheckUrl.maxRedirects
               (CheckUrl.initial url)) in *.
  rewrite Hlen.
  destruct (Nat.le_gt_cases (CheckUrl.attempts st) k)
    as [Hle | Hgt]; [lia|].
  specialize (Htime k). cbn [CheckUrl.initial CheckUrl.attempts] in Htime.
  assert (CheckUrl.elapsed net k < CheckUrl.totalTimeLimit)%Z
    by (apply Htime; lia).
  lia.
Qed.

(** [redirect_time_budget] on the short link with probes three
    seconds apart: the third iteration starts after 6000 ms. *)
Lemma redirect_time_budget_witness :
  List.length
    (CheckUrl.chain
       (CheckUrl.resolveURLRedirects (P := Fixtures.platform) Samples.slow
          (js "https://bit.ly/abc123")))
  <= 3.
Proof.
  apply (@redirect_time_budget Fixtures.platform Samples.slow
           (js "https://bit.ly/abc123") 2).
  vm_compute. discriminate.
Defined.

(** X15.  For a URL that parses, the resolver stops early only for a
    reason: when fewer than five redirects were followed and time is
    left, every redirect target the probe of the final URL announces is
    already in the chain. *)
Theorem fresh_redirects_are_followed (P : Platform)
        (net : CheckUrl.Network) (url : jsstring) (urlObj : URLObject)
        (b : jsstring) :
  parseURL url = Some urlObj ->
  let r := CheckUrl.resolveURLRedirects net url in
  let n := List.length (CheckUrl.chain r) - 1 in
  n < CheckUrl.maxRedirects ->
  (CheckUrl.elapsed net n < CheckUrl.totalTimeLimit)%Z ->
  redirectsTo net n (CheckUrl.finalUrl r) b ->
  In b (CheckUrl.chain r).
Proof.
  intros Hparse. cbv zeta. rewrite (ResolverFacts.resolve_parsed net _ Hparse).
  cbv zeta. cbn [CheckUrl.chain CheckUrl.finalUrl].
  destruct (@ResolverFacts.loop_stops P net CheckUrl.maxRedirects
              (CheckUrl.initial url)) as [Hhops Hstops].
  { cbn [CheckUrl.initial CheckUrl.attempts]. lia. }
  pose proof (ResolverFacts.Inv_hops Hhops
                (ResolverFacts.Inv_initial url)) as Hinv.
  destruct Hinv as [Hc _ _ _ Hlen _].
  set (st := CheckUrl.loop net CheckUrl.maxRedirects
               (CheckUrl.initial url)) in *.
  rewrite Hlen, Hc. cbn [Nat.sub]. rewrite Nat.sub_0_r.
  intros Hn Ht [status [location [Hhead [Hs [Hne Htarget]]]]].
  destruct Hstops as [Hg | Hit].
  - unfold CheckUrl.guard in Hg. apply andb_false_iff in Hg.
    destruct Hg as [Hg | Hg].
    + apply Nat.ltb_ge in Hg. lia.
    + apply Z.ltb_ge in Hg. lia.
  - unfold CheckUrl.iteration in Hit. rewrite Hhead in Hit.
    assert (H3 : ((300 <=? status) && (status <? 400))%Z = true).
    { apply andb_true_iff. split; [apply Z.leb_le | apply Z.ltb_lt]; lia. }
    rewrite H3 in Hit.
    destruct location as [|c location]; [congruence|].
    unfold CheckUrl.target in Hit. rewrite Htarget in Hit.
    destruct (mem b (CheckUrl.loopChain st)) eqn:Hmem; [|discriminate].
    apply StrFacts.mem_In. exact Hmem.
Qed.

(** [fresh_redirects_are_followed] on two URLs that redirect to each
    other: the probe of the final URL announces the first one. *)
Lemma fresh_redirects_are_followed_witness :
  In (js "https://a.example/")
     (CheckUrl.chain
        (CheckUrl.resolveURLRedirects (P := Fixtures.platform)
           Fixtures.cycle (js "https://a.example/"))).
Proof.
  apply (@fresh_redirects_are_followed Fixtures.platform Fixtures.cycle
           (js "https://a.example/") (Fixtures.urlObject "a.example" "/")
           (js "https://a.example/") eq_refl).
  - vm_compute. lia.
  - vm_compute. reflexivity.
  - exists 302%Z, (js "https://a.example/").
    split; [reflexivity|]. split; [lia|]. split; [discriminate|].
    reflexivity.
Defined.

(** ** The responses of the routes *)

(** X16.  Once the body is read, the e-mail route answers 400 exactly
    for a body the schema rejects and never answers 500: the gateway
    catches every failure of the call.  The call of the arbiter has no
    timer: the route gives no answer exactly when the body is valid, a
    key is configured and the call never settles, and it sends a result
    exactly when the body is valid and, with a key, the call settles.
    Every result it sends satisfies the thresholds of the scorer (the
    level is the band of the score, spam is a score over 35), carries an
    analysis text, and names the verdict that belongs to its level. *)
Theorem email_route_responses (P : Platform)
        (A : Arbiter CheckEmail.Verdict) (email : jsstring) :
  let local := CheckEmail.performLocalSpamDetection email in
  let call := generateObject A email (CheckEmail.indicators local)
                             (CheckEmail.spamScore local) in
  (CheckEmail.POST A email = Error400 <-> emailSchema email = false)
  /\ (CheckEmail.POST A email = NoResponse
      <-> emailSchema email = true
          /\ configured (apiKey A) = true
          /\ call = Pending)
  /\ CheckEmail.POST A email <> Error500
  /\ ((exists r, CheckEmail.POST A email = Ok200 r)
      <-> emailSchema email = true
          /\ (configured (apiKey A) = true -> call <> Pending))
  /\ (forall r,
        CheckEmail.POST A email = Ok200 r ->
        CheckEmail.riskLevel r = emailBandOf (CheckEmail.spamScore r)
        /\ CheckEmail.isSpam r = (35 <? CheckEmail.spamScore r)%Z
        /\ (0 <= CheckEmail.spamScore r <= 100)%Z
        /\ CheckEmail.geminiVerdict r
           = Some (CheckEmail.verdictOfBand (CheckEmail.riskLevel r))
        /\ CheckEmail.aiAnalysis r <> None).
Proof.
  cbv zeta. unfold CheckEmail.POST.
  destruct (emailSchema email); cbn [negb].
  2: { split; [tauto|]. split; [split; [discriminate | intros [H _]; discriminate H]|].
       split; [discriminate|].
       split; [split; [intros [r H]; discriminate H
                      | intros [H _]; discriminate H]|].
       intros r H. discriminate H. }
  destruct (configured (apiKey A)) eqn:Hkey; cbn [negb].
  - unfold CheckEmail.getGeminiAnalysis. rewrite Hkey. cbn [negb].
    destruct (generateObject A email _ _) as [t verdict e|t b n m|] eqn:Hcall.
    + split; [split; discriminate|].
      split; [split; [discriminate | intros [_ [_ H]]; discriminate H]|].
      split; [discriminate|].
      split; [split; [intros _; split; [reflexivity | intros _; discriminate]
                     | intros _; eexists; reflexivity]|].
      intros r H. injection H as <-. unfold emailBandOf.
      destruct verdict; cbn; repeat split; try lia; discriminate.
    + split; [split; discriminate|].
      split; [split; [discriminate | intros [_ [_ H]]; discriminate H]|].
      split; [discriminate|].
      split; [split; [intros _; split; [reflexivity | intros _; discriminate]
                     | intros _; eexists; reflexivity]|].
      intros r H. injection H as <-. unfold emailBandOf.
      cbn. repeat split; try lia; discriminate.
    + split; [split; discriminate|].
      split; [split; [intros _; repeat split | reflexivity]|].
      split; [discriminate|].
      split; [split; [intros [r H]; discriminate H
                     | intros [_ H]; exfalso; apply H; reflexivity]|].
      intros r H. discriminate H.
  - split; [split; discriminate|].
    split; [split; [discriminate | intros [_ [H _]]; discriminate H]|].
    split; [discriminate|].
    split; [split; [intros _; split; [reflexivity | discriminate]
                   | intros _; eexists; reflexivity]|].
    intros r H. injection H as <-.
    destruct (BandFacts.email_bandOf email) as [Hb [Hs Hr]].
    cbn [CheckEmail.riskLevel CheckEmail.spamScore CheckEmail.isSpam
         CheckEmail.geminiVerdict CheckEmail.aiAnalysis].
    repeat split; try assumption; try lia. discriminate.
Qed.

(** [email_route_responses] on [john.doe@example.org] with an arbiter
    that never answers. *)
Lemma email_route_responses_witness :
  CheckEmail.POST (P := Fixtures.platform) (Fixtures.hanging _)
    (js "john.doe@example.org") = NoResponse.
Proof.
  apply (proj1 (proj2 (@email_route_responses Fixtures.platform
                         (Fixtures.hanging _)
                         (js "john.doe@example.org")))).
  repeat split.
Defined.

(** X17.  Once the body is read, the URL route always answers, whatever
    the network and the arbiter do: 400 exactly for a body the schema
    rejects, 200 otherwise, never 500 and never nothing.  In every result [isSafe]
    holds exactly for the level [safe] and exactly for a score under
    30, a [dangerous] result scores at least 60, the verdict is the
    level, and an analysis text is present.  With a key the result
    names the submitted URL, without one the URL that was analysed. *)
Theorem url_route_always_answers (P : Platform) (net : CheckUrl.Network)
        (A : Arbiter CheckUrl.RiskLevel) (url : jsstring) :
  match CheckUrl.POST net A url with
  | Error400 => urlSchema url = false
  | Ok200 r =>
      urlSchema url = true
      /\ (CheckUrl.isSafe r = true <-> CheckUrl.riskLevel r = CheckUrl.Safe)
      /\ CheckUrl.isSafe r = (CheckUrl.riskScore r <? 30)%Z
      /\ (CheckUrl.riskLevel r = CheckUrl.Dangerous ->
          (60 <= CheckUrl.riskScore r)%Z)
      /\ (0 <= CheckUrl.riskScore r <= 100)%Z
      /\ CheckUrl.geminiVerdict r = Some (CheckUrl.riskLevel r)
      /\ CheckUrl.aiAnalysis r <> None
      /\ CheckUrl.url r
         = (if configured (apiKey A) then url
            else CheckUrl.finalUrl (CheckUrl.redirectStep net url))
  | Error500 | NoResponse => False
  end.
Proof.
  unfold CheckUrl.POST.
  destruct (urlSchema url); cbn [negb]; [|reflexivity].
  cbv zeta.
  destruct (RouteFacts.localStep_scored (CheckUrl.redirectStep net url))
    as [Hscore [Hlevel [Hsafe _]]]. cbv zeta in *.
  destruct (BandFacts.url_bandOf
              (CheckUrl.finalUrl (CheckUrl.redirectStep net url)))
    as [Hb [Hs Hr]]. cbv zeta in *.
  destruct (configured (apiKey A)) eqn:Hkey; cbn [negb].
  - destruct (CheckUrl.verdictStep A _ _) as [verdict explanation].
    destruct verdict; cbn; repeat split; try lia; try discriminate;
      intros; congruence.
  - cbn [CheckUrl.riskLevel CheckUrl.riskScore CheckUrl.isSafe
         CheckUrl.geminiVerdict CheckUrl.aiAnalysis CheckUrl.url].
    rewrite Hscore, Hlevel, Hsafe, Hs, Hb.
    set (score := CheckUrl.riskScore (CheckUrl.performLocalURLAnalysis _))
      in *.
    assert (Hurl : forall u,
              CheckUrl.url (CheckUrl.performLocalURLAnalysis u) = u).
    { intros u. unfold CheckUrl.performLocalURLAnalysis, CheckUrl.tryBlock.
      destruct (parseURL u); [destruct (runRules _)|]; reflexivity. }
    unfold CheckUrl.localStep. cbn [CheckUrl.url]. rewrite Hurl.
    unfold urlBandOf.
    destruct (Z.leb_spec 60 score), (Z.leb_spec 30 score),
      (Z.ltb_spec score 30); try lia;
      repeat split; try lia; try discriminate; try reflexivity.
Qed.

(** X18.  The URL scorer gives the score 60 the level [dangerous], so no
    local result has score 60 and level [suspicious].  When the arbiter
    answers [suspicious] in time, the route sends exactly that: score 60
    with level [suspicious], a level that is not the band of its
    score. *)
Theorem suspicious_verdict_is_off_band (P : Platform) :
  (forall url : jsstring,
     let local := CheckUrl.performLocalURLAnalysis url in
     CheckUrl.riskScore local = 60%Z ->
     CheckUrl.riskLevel local = CheckUrl.Dangerous)
  /\
  (forall (net : CheckUrl.Network) (A : Arbiter CheckUrl.RiskLevel)
          (url : jsstring) (t : Z) (explanation : jsstring),
     urlSchema url = true ->
     configured (apiKey A) = true ->
     (let info := CheckUrl.redirectStep net url in
      let local := CheckUrl.localStep info in
      generateObject A (CheckUrl.finalUrl info) (CheckUrl.indicators local)
                     (CheckUrl.riskScore local)
      = Resolves t CheckUrl.Suspicious explanation) ->
     (t < CheckUrl.gatewayTimeout)%Z ->
     exists r,
       CheckUrl.POST net A url = Ok200 r
       /\ CheckUrl.riskScore r = 60%Z
       /\ CheckUrl.riskLevel r = CheckUrl.Suspicious
       /\ CheckUrl.riskLevel r <> urlBandOf (CheckUrl.riskScore r)).
Proof.
  split.
  - intros url. cbv zeta. intros H60.
    destruct (BandFacts.url_bandOf url) as [Hb _]. cbv zeta in Hb.
    rewrite Hb, H60. reflexivity.
  - intros net A url t explanation Hvalid Hkey Hcall Ht. cbv zeta in Hcall.
    unfold CheckUrl.POST. rewrite Hvalid, Hkey. cbn [negb]. cbv zeta.
    assert (Hg : CheckUrl.getGeminiURLAnalysis A
                   (CheckUrl.finalUrl (CheckUrl.redirectStep net url))
                   (CheckUrl.localStep (CheckUrl.redirectStep net url))
                 = Fulfilled t (CheckUrl.Suspicious, explanation)).
    { unfold CheckUrl.getGeminiURLAnalysis, CheckUrl.raceGateway.
      rewrite Hkey, Hcall. cbn [negb].
      apply Z.ltb_lt in Ht. rewrite Ht. reflexivity. }
    rewrite (RouteFacts.verdictStep_gateway A _ _ Hg).
    eexists. split; [reflexivity|]. cbn. repeat split. discriminate.
Qed.

(** [suspicious_verdict_is_off_band] on [https://example.com] with an
    arbiter that answers [suspicious] after one second. *)
Lemma suspicious_verdict_is_off_band_witness :
  exists r,
    CheckUrl.POST (P := Fixtures.platform) Fixtures.shortLink
      (Fixtures.answering CheckUrl.Suspicious) (js "https://example.com")
    = Ok200 r
    /\ CheckUrl.riskScore r = 60%Z
    /\ CheckUrl.riskLevel r = CheckUrl.Suspicious
    /\ CheckUrl.riskLevel r <> urlBandOf (CheckUrl.riskScore r).
Proof.
  apply (proj2 (suspicious_verdict_is_off_band Fixtures.platform)
           Fixtures.shortLink (Fixtures.answering CheckUrl.Suspicious)
           (js "https://example.com") 1000%Z (js "ok")).
  - reflexivity.
  - reflexivity.
  - reflexivity.
  - reflexivity.
Defined.

(** X20.  The gateway of the URL route always settles, and within the
    18000 ms of its own timer: at once without a key, with the answer of
    the call when that comes earlier, and with the verdict [suspicious]
    otherwise.  So the 22000 ms timer of the route never wins its race,
    and the route always takes the answer of the gateway; its fall-back
    to the local level and reason is never used. *)
Theorem handler_timer_never_wins (P : Platform)
        (A : Arbiter CheckUrl.RiskLevel) (url : jsstring)
        (localResult : CheckUrl.URLCheckResult) :
  exists t data,
    CheckUrl.getGeminiURLAnalysis A url localResult = Fulfilled t data
    /\ (t <= CheckUrl.gatewayTimeout)%Z
    /\ (t < CheckUrl.handlerTimeout)%Z
    /\ CheckUrl.verdictStep A url localResult = data
    /\ (configured (apiKey A) = true ->
        match generateObject A url (CheckUrl.indicators localResult)
                             (CheckUrl.riskScore localResult) with
        | Resolves t' verdict explanation =>
            (t' < CheckUrl.gatewayTimeout)%Z ->
            data = (verdict, explanation)
        | _ => True
        end).
Proof.
  destruct (RouteFacts.gateway_settles A url localResult)
    as [t [data [Hg Ht]]].
  exists t, data. split; [exact Hg|]. split.
  { revert Hg. unfold CheckUrl.getGeminiURLAnalysis, CheckUrl.raceGateway,
      CheckUrl.gatewayTimeout.
    destruct (configured (apiKey A)); cbn [negb].
    - destruct (generateObject A url (CheckUrl.indicators localResult)
                               (CheckUrl.riskScore localResult))
        as [t' v e | t' isError name message |];
        try (destruct (Z.ltb_spec t' 18000));
        repeat match goal with
               | |- context [if ?c then _ else _] => destruct c
               end;
        intros Hg; injection Hg as <- _; lia.
    - intros Hg. injection Hg as <- _. lia. }
  split; [exact Ht|].
  split; [apply (RouteFacts.verdictStep_gateway A _ _ Hg)|].
  intros Hkey. revert Hg.
  unfold CheckUrl.getGeminiURLAnalysis, CheckUrl.raceGateway.
  rewrite Hkey. cbn [negb].
  destruct (generateObject A url (CheckUrl.indicators localResult)
                           (CheckUrl.riskScore localResult))
    as [t' v e | t' isError name message |]; try (intros _; exact I).
  intros Hg Hlt. apply Z.ltb_lt in Hlt. rewrite Hlt in Hg.
  injection Hg as _ <-. reflexivity.
Qed.

(** ** The PDF report *)

Module ReportFacts.

Import Report.

Lemma count_cons s c claims :
  count s (c :: claims)
  = (if hasStatus s c then 1 else 0) + count s claims.
Proof. unfold count. cbn [filter]. destruct (hasStatus s c); reflexivity. Qed.

Lemma boxesFrom_length claims : forall index,
  List.length (boxesFrom index claims) = List.length claims.
Proof.
  induction claims as [|c claims IH]; intros index; cbn; [reflexivity|].
  rewrite IH. reflexivity.
Qed.

Lemma boxesFrom_covers claims : forall index,
  list_sum (map covers (boxesFrom index claims)) = List.length claims.
Proof.
  induction claims as [|c claims IH]; intros index; cbn; [reflexivity|].
  rewrite IH. reflexivity.
Qed.

Lemma boxesFrom_nth claims : forall index i c,
  nth_error claims i = Some c ->
  nth_error (boxesFrom index claims) i
  = Some (ClaimBox (index + i) (claimBorderColor c) c).
Proof.
  induction claims as [|c0 claims IH]; intros index [|i] c H;
    cbn in *; try discriminate.
  - injection H as <-. rewrite Nat.add_0_r. reflexivity.
  - rewrite (IH (S index) i c H). rewrite Nat.add_succ_r. reflexivity.
Qed.

End ReportFacts.

(** X19.  The report accounts for every claim.  The numbers of
    verified, contradicted and unverified claims add up to the number of
    claims.  The claims section has at most eleven children: a box for
    each of the first ten claims, in order, with its index and the
    colour of its status, and a closing line that counts the claims
    left out, so that boxes and count together cover all claims. *)
Theorem report_accounts_for_every_claim (claims : list Report.Claim) :
  Report.count Report.Verified claims
  + Report.count Report.Contradicted claims
  + Report.count Report.Unverified claims = List.length claims
  /\ List.length (Report.claimElements claims) <= 11
  /\ list_sum (map Report.covers (Report.claimElements claims))
     = List.length claims
  /\ (forall i c, i < 10 -> nth_error claims i = Some c ->
        nth_error (Report.claimElements claims) i
        = Some (Report.ClaimBox i (Report.claimBorderColor c) c)).
Proof.
  split; [|split; [|split]].
  - induction claims as [|c claims IH]; [reflexivity|].
    rewrite !ReportFacts.count_cons. cbn [List.length].
    unfold Report.hasStatus. destruct (Report.status c); lia.
  - unfold Report.claimElements. rewrite length_app,
      ReportFacts.boxesFrom_length, length_firstn.
    destruct (Nat.ltb 10 (List.length claims)); cbn [List.length]; lia.
  - unfold Report.claimElements. rewrite map_app, list_sum_app,
      ReportFacts.boxesFrom_covers, length_firstn.
    destruct (Nat.ltb_spec 10 (List.length claims));
      cbn [map list_sum fold_right Report.covers]; lia.
  - intros i c Hi Hnth. unfold Report.claimElements.
    assert (Hfirst : nth_error (firstn 10 claims) i = Some c).
    { rewrite nth_error_firstn.
      destruct (Nat.ltb_spec i 10); [exact Hnth | lia]. }
    rewrite nth_error_app1.
    + apply (ReportFacts.boxesFrom_nth _ 0 _ Hfirst).
    + rewrite ReportFacts.boxesFrom_length.
      apply nth_error_Some. congruence.
Qed.

(** [report_accounts_for_every_claim] on twelve claims: the third box
    shows the third claim, which is unverified. *)
Lemma report_accounts_for_every_claim_witness :
  nth_error (Report.claimElements Samples.claims) 2
  = Some (Report.ClaimBox 2 "#f59e0b"
            {| Report.text := js "2"; Report.status := Report.Unverified;
               Report.explanation := [] |}).
Proof.
  apply (proj2 (proj2 (proj2
           (report_accounts_for_every_claim Samples.claims))) 2
           {| Report.text := js "2"; Report.status := Report.Unverified;
              Report.explanation := [] |}).
  - lia.
  - reflexivity.
Defined.
